(** * C-Volley: a shallow embedding of [blobby_volley.c]

    The game keeps all of its state in file-level globals and advances it
    one frame at a time in [UpdateGame].  The embedding below threads one
    [State] record through functions named after the C functions.

    Numbers.  The C code computes positions and velocities in [float].
    They are modelled here as real numbers ([R]): every arithmetic
    operation is the exact one, without binary32 rounding, and a literal
    such as [0.8f] stands for the real 8/10.  The C [int] globals are
    modelled as [Z] with the 32-bit wrap-around of [++] and [--] written
    out in [int_wrap].

    Environment.  Keyboard polling and the pseudo-random source belong to
    raylib; they enter the model through the [Input] record handed to each
    frame.  Sound, music and drawing calls do not feed back into the game
    state and are left out.

    Layout.  The program comes first, function by function; then the
    vocabulary in which the properties are stated; then the properties,
    each with the lemmas it rests on. *)

From Stdlib Require Import Reals Lra Lia ZArith List Bool Arith.
Import ListNotations.

Open Scope R_scope.

(* ------------------------------------------------------------------ *)
(** ** Numbers *)

(** Comparisons of the C code, as booleans. *)
Definition Rltb (a b : R) : bool := if Rlt_dec a b then true else false.
Definition Rleb (a b : R) : bool := if Rle_dec a b then true else false.
Definition Rgtb (a b : R) : bool := Rltb b a.
Definition Rgeb (a b : R) : bool := Rleb b a.

Infix "<?" := Rltb (at level 70, no associativity) : R_scope.
Infix "<=?" := Rleb (at level 70, no associativity) : R_scope.
Infix ">?" := Rgtb (at level 70, no associativity) : R_scope.
Infix ">=?" := Rgeb (at level 70, no associativity) : R_scope.

(** [fabsf] and [sqrtf]. *)
Definition fabsf (a : R) : R := Rabs a.
Definition sqrtf (a : R) : R := sqrt a.

(** A C [int]: 32 bits, two's complement.  [int_wrap] brings the
    mathematical result of [++] or [--] back into range. *)
Definition INT_MIN : Z := (- 2 ^ 31)%Z.
Definition INT_MAX : Z := (2 ^ 31 - 1)%Z.
Definition int_wrap (z : Z) : Z := ((z + 2 ^ 31) mod 2 ^ 32 - 2 ^ 31)%Z.
Definition int_incr (z : Z) : Z := int_wrap (z + 1).
Definition int_decr (z : Z) : Z := int_wrap (z - 1).

(* ------------------------------------------------------------------ *)
(** ** Defines *)

Definition SCREEN_WIDTH : Z := 1024.
Definition SCREEN_HEIGHT : Z := 768.

(** Physics constants *)
Definition PLAYER_GRAVITY : R := 0.8.
Definition BALL_GRAVITY : R := 0.4.
Definition BALL_BOUNCE_DAMPING : R := 1.
Definition GROUND_LEVEL : Z := (SCREEN_HEIGHT - 50)%Z.
Definition PLAYER_RADIUS : R := 50.
Definition BALL_RADIUS : R := 35.

(** Movement constants *)
Definition PLAYER_MOVE_SPEED : R := 4.
Definition PLAYER_JUMP_FORCE : R := -12.
Definition PLAYER_MAX_VELOCITY_Y : R := 15.
Definition BALL_MAX_SPEED : R := 15.

(** Court layout; [NET_X] is an integer division in C. *)
Definition NET_X : Z := (SCREEN_WIDTH ÷ 2)%Z.
Definition NET_HEIGHT : R := 140.
Definition NET_WIDTH : R := 10.

(** Game rules *)
Definition WIN_SCORE : Z := 10.
Definition TRAIL_LENGTH : nat := 3.

(** AI constants *)
Definition AI_REACTION_DISTANCE : R := 150.
Definition AI_JUMP_THRESHOLD : R := 60.
Definition AI_POSITION_TOLERANCE : R := 20.
Definition AI_JUMP_COOLDOWN : Z := 30.

Definition MAX_PARTICLES : nat := 100.
Definition SCORE_DELAY_FRAMES : Z := 120.

(** raylib's [DEG2RAD]. *)
Definition DEG2RAD : R := PI / 180.

(* ------------------------------------------------------------------ *)
(** ** Types and structures *)

Inductive GameState := MENU | PLAYING | GAMEOVER | CREDITS.
Inductive GameMode := SINGLE_PLAYER | TWO_PLAYER.
Inductive PlayerSide := LEFT | RIGHT.
Inductive Color := BLANK | BLUE | RED | DARKBROWN.

Record Vector2 := mkVector2 { vec_x : R; vec_y : R }.

Definition vzero : Vector2 := mkVector2 0 0.
Definition set_x (v : Vector2) (a : R) : Vector2 := mkVector2 a (vec_y v).
Definition set_y (v : Vector2) (a : R) : Vector2 := mkVector2 (vec_x v) a.

Record Rectangle := mkRectangle
  { rec_x : R; rec_y : R; rec_width : R; rec_height : R }.

Module Player.
Record t := mk
  { position : Vector2;
    velocity : Vector2;
    radius : R;
    side : PlayerSide;
    color : Color;
    score : Z;
    onGround : bool }.

Definition set_position (p : t) (v : Vector2) : t :=
  mk v (velocity p) (radius p) (side p) (color p) (score p) (onGround p).
Definition set_velocity (p : t) (v : Vector2) : t :=
  mk (position p) v (radius p) (side p) (color p) (score p) (onGround p).
Definition set_score (p : t) (n : Z) : t :=
  mk (position p) (velocity p) (radius p) (side p) (color p) n (onGround p).
Definition set_onGround (p : t) (b : bool) : t :=
  mk (position p) (velocity p) (radius p) (side p) (color p) (score p) b.

Definition set_position_x (p : t) (a : R) := set_position p (set_x (position p) a).
Definition set_position_y (p : t) (a : R) := set_position p (set_y (position p) a).
Definition set_velocity_x (p : t) (a : R) := set_velocity p (set_x (velocity p) a).
Definition set_velocity_y (p : t) (a : R) := set_velocity p (set_y (velocity p) a).

(** The all-zero value of a C static. *)
Definition zero : t := mk vzero vzero 0 LEFT BLANK 0 false.
End Player.

Module Ball.
Record t := mk
  { position : Vector2;
    velocity : Vector2;
    radius : R;
    trail : list Vector2;     (* Vector2 trail[TRAIL_LENGTH] *)
    trailCount : Z;
    rotation : R }.

Definition set_position (b : t) (v : Vector2) : t :=
  mk v (velocity b) (radius b) (trail b) (trailCount b) (rotation b).
Definition set_velocity (b : t) (v : Vector2) : t :=
  mk (position b) v (radius b) (trail b) (trailCount b) (rotation b).
Definition set_radius (b : t) (r : R) : t :=
  mk (position b) (velocity b) r (trail b) (trailCount b) (rotation b).
Definition set_trail (b : t) (l : list Vector2) : t :=
  mk (position b) (velocity b) (radius b) l (trailCount b) (rotation b).
Definition set_trailCount (b : t) (n : Z) : t :=
  mk (position b) (velocity b) (radius b) (trail b) n (rotation b).
Definition set_rotation (b : t) (r : R) : t :=
  mk (position b) (velocity b) (radius b) (trail b) (trailCount b) r.

Definition set_position_x (b : t) (a : R) := set_position b (set_x (position b) a).
Definition set_position_y (b : t) (a : R) := set_position b (set_y (position b) a).
Definition set_velocity_x (b : t) (a : R) := set_velocity b (set_x (velocity b) a).
Definition set_velocity_y (b : t) (a : R) := set_velocity b (set_y (velocity b) a).

Definition zero : t := mk vzero vzero 0 (repeat vzero TRAIL_LENGTH) 0 0.
End Ball.

Module Particle.
Record t := mk
  { position : Vector2;
    velocity : Vector2;
    color : Color;
    alpha : R;
    life : R;
    active : bool }.

Definition zero : t := mk vzero vzero BLANK 0 0 false.
End Particle.

(** The keys the game polls. *)
Inductive Key :=
| KEY_A | KEY_D | KEY_W | KEY_LEFT | KEY_RIGHT | KEY_UP | KEY_DOWN
| KEY_ENTER | KEY_ESCAPE | KEY_P.

(** What the environment supplies during one frame: the keys that are held
    ([IsKeyDown]), the keys that went down this frame ([IsKeyPressed]), and
    the raw values of raylib's random source, indexed by draw number. *)
Record Input := mkInput
  { IsKeyDown : Key -> bool;
    IsKeyPressed : Key -> bool;
    rnd : nat -> Z }.

(** The file-level globals.  [rngCalls] is not a C variable: it counts the
    values drawn so far from the random source, standing for the hidden
    state of raylib's generator. *)
Record State := mkState
  { gameState : GameState;
    gameMode : GameMode;
    pause : bool;
    framesCounter : Z;
    player1 : Player.t;
    player2 : Player.t;
    ball : Ball.t;
    particles : list Particle.t;   (* Particle particles[MAX_PARTICLES] *)
    aiJumpCooldown : Z;
    servingSide : PlayerSide;
    scoreDelayTimer : Z;
    menuSelection : Z;
    creditsScroll : R;
    shouldExitGame : bool;
    matchTimer : Z;
    rngCalls : nat }.

Definition set_gameState (s : State) (v : GameState) : State :=
  mkState v (gameMode s) (pause s) (framesCounter s) (player1 s) (player2 s)
    (ball s) (particles s) (aiJumpCooldown s) (servingSide s)
    (scoreDelayTimer s) (menuSelection s) (creditsScroll s)
    (shouldExitGame s) (matchTimer s) (rngCalls s).
Definition set_gameMode (s : State) (v : GameMode) : State :=
  mkState (gameState s) v (pause s) (framesCounter s) (player1 s) (player2 s)
    (ball s) (particles s) (aiJumpCooldown s) (servingSide s)
    (scoreDelayTimer s) (menuSelection s) (creditsScroll s)
    (shouldExitGame s) (matchTimer s) (rngCalls s).
Definition set_pause (s : State) (v : bool) : State :=
  mkState (gameState s) (gameMode s) v (framesCounter s) (player1 s) (player2 s)
    (ball s) (particles s) (aiJumpCooldown s) (servingSide s)
    (scoreDelayTimer s) (menuSelection s) (creditsScroll s)
    (shouldExitGame s) (matchTimer s) (rngCalls s).
Definition set_framesCounter (s : State) (v : Z) : State :=
  mkState (gameState s) (gameMode s) (pause s) v (player1 s) (player2 s)
    (ball s) (particles s) (aiJumpCooldown s) (servingSide s)
    (scoreDelayTimer s) (menuSelection s) (creditsScroll s)
    (shouldExitGame s) (matchTimer s) (rngCalls s).
Definition set_player1 (s : State) (v : Player.t) : State :=
  mkState (gameState s) (gameMode s) (pause s) (framesCounter s) v (player2 s)
    (ball s) (particles s) (aiJumpCooldown s) (servingSide s)
    (scoreDelayTimer s) (menuSelection s) (creditsScroll s)
    (shouldExitGame s) (matchTimer s) (rngCalls s).
Definition set_player2 (s : State) (v : Player.t) : State :=
  mkState (gameState s) (gameMode s) (pause s) (framesCounter s) (player1 s) v
    (ball s) (particles s) (aiJumpCooldown s) (servingSide s)
    (scoreDelayTimer s) (menuSelection s) (creditsScroll s)
    (shouldExitGame s) (matchTimer s) (rngCalls s).
Definition set_ball (s : State) (v : Ball.t) : State :=
  mkState (gameState s) (gameMode s) (pause s) (framesCounter s) (player1 s)
    (player2 s) v (particles s) (aiJumpCooldown s) (servingSide s)
    (scoreDelayTimer s) (menuSelection s) (creditsScroll s)
    (shouldExitGame s) (matchTimer s) (rngCalls s).
Definition set_particles (s : State) (v : list Particle.t) : State :=
  mkState (gameState s) (gameMode s) (pause s) (framesCounter s) (player1 s)
    (player2 s) (ball s) v (aiJumpCooldown s) (servingSide s)
    (scoreDelayTimer s) (menuSelection s) (creditsScroll s)
    (shouldExitGame s) (matchTimer s) (rngCalls s).
Definition set_aiJumpCooldown (s : State) (v : Z) : State :=
  mkState (gameState s) (gameMode s) (pause s) (framesCounter s) (player1 s)
    (player2 s) (ball s) (particles s) v (servingSide s)
    (scoreDelayTimer s) (menuSelection s) (creditsScroll s)
    (shouldExitGame s) (matchTimer s) (rngCalls s).
Definition set_servingSide (s : State) (v : PlayerSide) : State :=
  mkState (gameState s) (gameMode s) (pause s) (framesCounter s) (player1 s)
    (player2 s) (ball s) (particles s) (aiJumpCooldown s) v
    (scoreDelayTimer s) (menuSelection s) (creditsScroll s)
    (shouldExitGame s) (matchTimer s) (rngCalls s).
Definition set_scoreDelayTimer (s : State) (v : Z) : State :=
  mkState (gameState s) (gameMode s) (pause s) (framesCounter s) (player1 s)
    (player2 s) (ball s) (particles s) (aiJumpCooldown s) (servingSide s)
    v (menuSelection s) (creditsScroll s)
    (shouldExitGame s) (matchTimer s) (rngCalls s).
Definition set_menuSelection (s : State) (v : Z) : State :=
  mkState (gameState s) (gameMode s) (pause s) (framesCounter s) (player1 s)
    (player2 s) (ball s) (particles s) (aiJumpCooldown s) (servingSide s)
    (scoreDelayTimer s) v (creditsScroll s)
    (shouldExitGame s) (matchTimer s) (rngCalls s).
Definition set_creditsScroll (s : State) (v : R) : State :=
  mkState (gameState s) (gameMode s) (pause s) (framesCounter s) (player1 s)
    (player2 s) (ball s) (particles s) (aiJumpCooldown s) (servingSide s)
    (scoreDelayTimer s) (menuSelection s) v
    (shouldExitGame s) (matchTimer s) (rngCalls s).
Definition set_shouldExitGame (s : State) (v : bool) : State :=
  mkState (gameState s) (gameMode s) (pause s) (framesCounter s) (player1 s)
    (player2 s) (ball s) (particles s) (aiJumpCooldown s) (servingSide s)
    (scoreDelayTimer s) (menuSelection s) (creditsScroll s)
    v (matchTimer s) (rngCalls s).
Definition set_matchTimer (s : State) (v : Z) : State :=
  mkState (gameState s) (gameMode s) (pause s) (framesCounter s) (player1 s)
    (player2 s) (ball s) (particles s) (aiJumpCooldown s) (servingSide s)
    (scoreDelayTimer s) (menuSelection s) (creditsScroll s)
    (shouldExitGame s) v (rngCalls s).
Definition set_rngCalls (s : State) (v : nat) : State :=
  mkState (gameState s) (gameMode s) (pause s) (framesCounter s) (player1 s)
    (player2 s) (ball s) (particles s) (aiJumpCooldown s) (servingSide s)
    (scoreDelayTimer s) (menuSelection s) (creditsScroll s)
    (shouldExitGame s) (matchTimer s) v.

(* ------------------------------------------------------------------ *)
(** ** raylib helpers *)

(** Modelled from the spec: raylib's [GetRandomValue], a library function
    the repository does not contain.  It returns an integer between its two
    bounds, whichever order they are given in; [raw] is the value of the
    underlying generator. *)
Definition GetRandomValue (lo hi : Z) (raw : Z) : Z :=
  let a := Z.min lo hi in
  let b := Z.max lo hi in
  (a + raw mod (b - a + 1))%Z.

(** Draw the next random value in [lo, hi], advancing the generator. *)
Definition draw (i : Input) (lo hi : Z) (s : State) : Z * State :=
  (GetRandomValue lo hi (rnd i (rngCalls s)), set_rngCalls s (S (rngCalls s))).

(** Modelled from the spec: raylib's [CheckCollisionCircles], a library
    function the repository does not contain; section 2 of the spec names
    it a circle-circle intersection test: the centres are no further apart
    than the sum of the radii. *)
Definition CheckCollisionCircles
  (center1 : Vector2) (radius1 : R) (center2 : Vector2) (radius2 : R) : bool :=
  let dx := vec_x center2 - vec_x center1 in
  let dy := vec_y center2 - vec_y center1 in
  (dx * dx + dy * dy <=? (radius1 + radius2) * (radius1 + radius2)).

(** Modelled from the spec: raylib's [CheckCollisionCircleRec], a library
    function the repository does not contain; section 2 of the spec names
    it a circle-rectangle intersection test.  The circle meets the
    rectangle when the centre is within the rectangle grown by the radius
    along one axis, or within the radius of a corner. *)
Definition CheckCollisionCircleRec
  (center : Vector2) (radius : R) (rec : Rectangle) : bool :=
  let dx := fabsf (vec_x center - (rec_x rec + rec_width rec / 2)) in
  let dy := fabsf (vec_y center - (rec_y rec + rec_height rec / 2)) in
  if dx >? rec_width rec / 2 + radius then false
  else if dy >? rec_height rec / 2 + radius then false
  else if dx <=? rec_width rec / 2 then true
  else if dy <=? rec_height rec / 2 then true
  else
    let cx := dx - rec_width rec / 2 in
    let cy := dy - rec_height rec / 2 in
    (cx * cx + cy * cy <=? radius * radius).

(* ------------------------------------------------------------------ *)
(** ** ResetBall and InitGame *)

(** Reset ball on serving player's side. *)
Definition ResetBall (s : State) : State :=
  let b := ball s in
  let b :=
    match servingSide s with
    | LEFT => Ball.set_position b (mkVector2 (IZR (SCREEN_WIDTH ÷ 4)) 100)
    | RIGHT => Ball.set_position b (mkVector2 (IZR (SCREEN_WIDTH * 3 ÷ 4)) 100)
    end in
  let b := Ball.set_velocity_x b 0 in
  let b := Ball.set_velocity_y b 0 in
  let b := Ball.set_trailCount b 0 in
  let b := Ball.set_rotation b 0 in
  set_ball s b.

(** The globals as their C initialisers leave them. *)
Definition static_init : State :=
  mkState MENU SINGLE_PLAYER false 0 Player.zero Player.zero Ball.zero
    (repeat Particle.zero MAX_PARTICLES) 0 LEFT 0 0 0 false 0 0.

Definition InitGame (s : State) : State :=
  let s := set_gameState s MENU in
  let s := set_menuSelection s 0 in
  let s := set_pause s false in
  let s := set_framesCounter s 0 in
  let s := set_aiJumpCooldown s 0 in
  let s := set_servingSide s LEFT in
  let s := set_scoreDelayTimer s 0 in
  let s := set_matchTimer s 0 in
  let s := set_player1 s
    (Player.mk (mkVector2 (IZR (SCREEN_WIDTH ÷ 4)) (IZR GROUND_LEVEL - PLAYER_RADIUS))
       vzero PLAYER_RADIUS LEFT BLUE 0 true) in
  let s := set_player2 s
    (Player.mk (mkVector2 (IZR (SCREEN_WIDTH * 3 ÷ 4)) (IZR GROUND_LEVEL - PLAYER_RADIUS))
       vzero PLAYER_RADIUS RIGHT RED 0 true) in
  let s := set_ball s (Ball.set_radius (ball s) BALL_RADIUS) in
  let s := set_ball s (Ball.set_trailCount (ball s) 0) in
  ResetBall s.

(** The state in which the main loop starts. *)
Definition initial_state : State := InitGame static_init.

(* ------------------------------------------------------------------ *)
(** ** UpdatePlayerControls *)

(** Player 1 (left side) - W/A/D controls, jump, and "keep player on their
    side (left of net)". *)
Definition controls1 (i : Input) (p1 : Player.t) : Player.t :=
  let p1 :=
    if IsKeyDown i KEY_A then
      let p := Player.set_position_x p1 (vec_x (Player.position p1) - PLAYER_MOVE_SPEED) in
      Player.set_velocity_x p (- PLAYER_MOVE_SPEED)
    else if IsKeyDown i KEY_D then
      let p := Player.set_position_x p1 (vec_x (Player.position p1) + PLAYER_MOVE_SPEED) in
      Player.set_velocity_x p PLAYER_MOVE_SPEED
    else Player.set_velocity_x p1 0 in
  let p1 :=
    if IsKeyPressed i KEY_W && Player.onGround p1 then
      Player.set_onGround (Player.set_velocity_y p1 PLAYER_JUMP_FORCE) false
    else p1 in
  let p1 :=
    if vec_x (Player.position p1) - Player.radius p1 <? 0 then
      Player.set_position_x p1 (Player.radius p1)
    else p1 in
  if vec_x (Player.position p1) + Player.radius p1 >? IZR NET_X - NET_WIDTH / 2 then
    Player.set_position_x p1 (IZR NET_X - NET_WIDTH / 2 - Player.radius p1)
  else p1.

(** Player 2 (right side) - arrow keys, jump, and "keep player on their
    side (right of net)". *)
Definition controls2 (i : Input) (p2 : Player.t) : Player.t :=
  let p2 :=
    if IsKeyDown i KEY_LEFT then
      let p := Player.set_position_x p2 (vec_x (Player.position p2) - PLAYER_MOVE_SPEED) in
      Player.set_velocity_x p (- PLAYER_MOVE_SPEED)
    else if IsKeyDown i KEY_RIGHT then
      let p := Player.set_position_x p2 (vec_x (Player.position p2) + PLAYER_MOVE_SPEED) in
      Player.set_velocity_x p PLAYER_MOVE_SPEED
    else Player.set_velocity_x p2 0 in
  let p2 :=
    if IsKeyPressed i KEY_UP && Player.onGround p2 then
      Player.set_onGround (Player.set_velocity_y p2 PLAYER_JUMP_FORCE) false
    else p2 in
  let p2 :=
    if vec_x (Player.position p2) - Player.radius p2 <? IZR NET_X + NET_WIDTH / 2 then
      Player.set_position_x p2 (IZR NET_X + NET_WIDTH / 2 + Player.radius p2)
    else p2 in
  if vec_x (Player.position p2) + Player.radius p2 >? IZR SCREEN_WIDTH then
    Player.set_position_x p2 (IZR SCREEN_WIDTH - Player.radius p2)
  else p2.

Definition UpdatePlayerControls (i : Input) (s : State) : State :=
  let s := set_player1 s (controls1 i (player1 s)) in
  (* Player 2 (right side) - only in TWO_PLAYER mode *)
  match gameMode s with
  | SINGLE_PLAYER => s
  | TWO_PLAYER => set_player2 s (controls2 i (player2 s))
  end.

(* ------------------------------------------------------------------ *)
(** ** UpdateAI (controls player2 in single-player mode) *)

(** Only react if ball is on AI's side or coming toward it. *)
Definition ballComingToward (b : Ball.t) : bool :=
  ((vec_x (Ball.velocity b) >? 0) && (vec_x (Ball.position b) <? IZR NET_X))
  || (vec_x (Ball.position b) >=? IZR NET_X).

(** Return to center of side; the published horizontal velocity is zero. *)
Definition ai_return_to_center (p2 : Player.t) : Player.t :=
  let targetX := IZR (NET_X + (SCREEN_WIDTH - NET_X) ÷ 2) in
  let p2 :=
    if vec_x (Player.position p2) <? targetX - AI_POSITION_TOLERANCE then
      Player.set_position_x p2 (vec_x (Player.position p2) + PLAYER_MOVE_SPEED * 0.6)
    else if vec_x (Player.position p2) >? targetX + AI_POSITION_TOLERANCE then
      Player.set_position_x p2 (vec_x (Player.position p2) - PLAYER_MOVE_SPEED * 0.6)
    else p2 in
  Player.set_velocity_x p2 0.

(** Move toward ball's X position, then keep AI on their side. *)
Definition ai_move_toward (distanceX : R) (p2 : Player.t) : Player.t :=
  let p2 :=
    if distanceX <? - AI_POSITION_TOLERANCE then
      let p := Player.set_position_x p2 (vec_x (Player.position p2) - PLAYER_MOVE_SPEED * 0.8) in
      Player.set_velocity_x p (- PLAYER_MOVE_SPEED * 0.8)
    else if distanceX >? AI_POSITION_TOLERANCE then
      let p := Player.set_position_x p2 (vec_x (Player.position p2) + PLAYER_MOVE_SPEED * 0.8) in
      Player.set_velocity_x p (PLAYER_MOVE_SPEED * 0.8)
    else Player.set_velocity_x p2 0 in
  let p2 :=
    if vec_x (Player.position p2) - Player.radius p2 <? IZR NET_X + NET_WIDTH / 2 then
      Player.set_position_x p2 (IZR NET_X + NET_WIDTH / 2 + Player.radius p2)
    else p2 in
  if vec_x (Player.position p2) + Player.radius p2 >? IZR SCREEN_WIDTH then
    Player.set_position_x p2 (IZR SCREEN_WIDTH - Player.radius p2)
  else p2.

(** Jump decision logic.  [distanceX] is the horizontal distance computed
    before the move.  The random value (20% chance to miss) is drawn only
    when [shouldJump] holds. *)
Definition ai_jump (i : Input) (distanceX : R) (s : State) : State :=
  let distanceY :=
    vec_y (Player.position (player2 s)) - vec_y (Ball.position (ball s)) in
  let horizontalDist := fabsf distanceX in
  let shouldJump :=
    (horizontalDist <? AI_REACTION_DISTANCE)
    && (distanceY >? - AI_JUMP_THRESHOLD)
    && (distanceY <? 100)
    && (aiJumpCooldown s =? 0)%Z
    && Player.onGround (player2 s) in
  if shouldJump then
    let '(r, s) := draw i 0 100 s in
    if (r >? 20)%Z then
      let p2 := Player.set_velocity_y (player2 s) (PLAYER_JUMP_FORCE * 0.9) in
      let p2 := Player.set_onGround p2 false in
      set_aiJumpCooldown (set_player2 s p2) AI_JUMP_COOLDOWN
    else s
  else s.

Definition UpdateAI (i : Input) (s : State) : State :=
  (* Cooldown management *)
  let s :=
    if (aiJumpCooldown s >? 0)%Z
    then set_aiJumpCooldown s (int_decr (aiJumpCooldown s))
    else s in
  if negb (ballComingToward (ball s)) then
    set_player2 s (ai_return_to_center (player2 s))
  else
    (* Calculate horizontal distance to ball *)
    let distanceX :=
      vec_x (Ball.position (ball s)) - vec_x (Player.position (player2 s)) in
    let s := set_player2 s (ai_move_toward distanceX (player2 s)) in
    ai_jump i distanceX s.

(* ------------------------------------------------------------------ *)
(** ** UpdateBallTrail *)

(** Shift the trail one place and store the current position in front;
    on the array of [TRAIL_LENGTH] entries this drops the oldest one. *)
Definition UpdateBallTrail (b : Ball.t) : Ball.t :=
  let b := Ball.set_trail b (firstn TRAIL_LENGTH (Ball.position b :: Ball.trail b)) in
  if (Ball.trailCount b <? Z.of_nat TRAIL_LENGTH)%Z
  then Ball.set_trailCount b (int_incr (Ball.trailCount b))
  else b.

(* ------------------------------------------------------------------ *)
(** ** Particle system *)

(** The first inactive slot of the scan is overwritten with [fresh];
    [None] when every slot is active. *)
Fixpoint claim_slot (fresh : Particle.t) (ps : list Particle.t)
  : option (list Particle.t) :=
  match ps with
  | [] => None
  | p :: rest =>
    if Particle.active p
    then option_map (cons p) (claim_slot fresh rest)
    else Some (fresh :: rest)
  end.

(** Body of the outer loop of [SpawnGroundParticles]: one requested
    particle.  The three random values are drawn only when a slot is found. *)
Definition spawn_one (i : Input) (position : Vector2) (s : State) : State :=
  let n := rngCalls s in
  let angle := IZR (GetRandomValue (-60) (-120) (rnd i n)) * DEG2RAD in
  let speed := IZR (GetRandomValue 2 6 (rnd i (S n))) in
  let sign := if (GetRandomValue 0 1 (rnd i (S (S n))) =? 0)%Z then -1 else 1 in
  let fresh :=
    Particle.mk position
      (mkVector2 (cos angle * speed * sign) (sin angle * speed))
      DARKBROWN 1 1 true in
  match claim_slot fresh (firstn MAX_PARTICLES (particles s)) with
  | Some ps =>
    set_rngCalls (set_particles s (ps ++ skipn MAX_PARTICLES (particles s)))
      (S (S (S n)))
  | None => s
  end.

Fixpoint spawn_loop (i : Input) (position : Vector2) (iters : nat) (s : State)
  : State :=
  match iters with
  | O => s
  | S k => spawn_loop i position k (spawn_one i position s)
  end.

(** [for (int i = 0; i < count && i < MAX_PARTICLES; i++)]: the body runs
    [min(count, MAX_PARTICLES)] times, and not at all for [count <= 0]. *)
Definition SpawnGroundParticles (i : Input) (position : Vector2) (count : Z)
  (s : State) : State :=
  spawn_loop i position (Z.to_nat (Z.min count (Z.of_nat MAX_PARTICLES))) s.

Definition update_particle (p : Particle.t) : Particle.t :=
  if Particle.active p then
    let vy := vec_y (Particle.velocity p) + 0.3 in
    let vel := set_y (Particle.velocity p) vy in
    let pos := mkVector2 (vec_x (Particle.position p) + vec_x vel)
                         (vec_y (Particle.position p) + vec_y vel) in
    let life := Particle.life p - 0.02 in
    let alpha := life in
    let active :=
      if (life <=? 0) || (vec_y pos >? IZR (GROUND_LEVEL + 20)) then false else true in
    Particle.mk pos vel (Particle.color p) alpha life active
  else p.

Definition UpdateParticles (s : State) : State :=
  set_particles s
    (map update_particle (firstn MAX_PARTICLES (particles s))
       ++ skipn MAX_PARTICLES (particles s)).

(* ------------------------------------------------------------------ *)
(** ** UpdateGame: the PLAYING frame, phase by phase *)

(** Apply physics to players, clamp the fall speed, ground collision. *)
Definition player_physics (s : State) : State :=
  let p1 := player1 s in
  let p2 := player2 s in
  let p1 := Player.set_position_x p1 (vec_x (Player.position p1) + vec_x (Player.velocity p1)) in
  let p1 := Player.set_position_y p1 (vec_y (Player.position p1) + vec_y (Player.velocity p1)) in
  let p2 := Player.set_position_x p2 (vec_x (Player.position p2) + vec_x (Player.velocity p2)) in
  let p2 := Player.set_position_y p2 (vec_y (Player.position p2) + vec_y (Player.velocity p2)) in
  let p1 := Player.set_velocity_y p1 (vec_y (Player.velocity p1) + PLAYER_GRAVITY) in
  let p2 := Player.set_velocity_y p2 (vec_y (Player.velocity p2) + PLAYER_GRAVITY) in
  (* Clamp max velocity *)
  let p1 :=
    if vec_y (Player.velocity p1) >? PLAYER_MAX_VELOCITY_Y
    then Player.set_velocity_y p1 PLAYER_MAX_VELOCITY_Y else p1 in
  let p2 :=
    if vec_y (Player.velocity p2) >? PLAYER_MAX_VELOCITY_Y
    then Player.set_velocity_y p2 PLAYER_MAX_VELOCITY_Y else p2 in
  (* Player ground collision *)
  let p1 :=
    if vec_y (Player.position p1) + Player.radius p1 >=? IZR GROUND_LEVEL then
      let p := Player.set_position_y p1 (IZR GROUND_LEVEL - Player.radius p1) in
      let p := Player.set_velocity_y p 0 in
      Player.set_onGround p true
    else Player.set_onGround p1 false in
  let p2 :=
    if vec_y (Player.position p2) + Player.radius p2 >=? IZR GROUND_LEVEL then
      let p := Player.set_position_y p2 (IZR GROUND_LEVEL - Player.radius p2) in
      let p := Player.set_velocity_y p 0 in
      Player.set_onGround p true
    else Player.set_onGround p2 false in
  set_player2 (set_player1 s p1) p2.

(** Handle score delay timer. *)
Definition score_delay_step (s : State) : State :=
  if (scoreDelayTimer s >? 0)%Z then
    let s := set_scoreDelayTimer s (int_decr (scoreDelayTimer s)) in
    if (scoreDelayTimer s =? 0)%Z then ResetBall s else s
  else s.

(** Update ball physics, and the rotation from the horizontal speed. *)
Definition ball_integrate (b : Ball.t) : Ball.t :=
  let b := Ball.set_position_x b (vec_x (Ball.position b) + vec_x (Ball.velocity b)) in
  let b := Ball.set_position_y b (vec_y (Ball.position b) + vec_y (Ball.velocity b)) in
  let b := Ball.set_velocity_y b (vec_y (Ball.velocity b) + BALL_GRAVITY) in
  let speed := sqrtf (vec_x (Ball.velocity b) * vec_x (Ball.velocity b)) in
  Ball.set_rotation b (Ball.rotation b + (speed / Ball.radius b) * 35).

(** Update trail every 2nd frame; [%] is C's remainder. *)
Definition ball_trail_step (frames : Z) (b : Ball.t) : Ball.t :=
  if (Z.rem frames 2 =? 0)%Z then UpdateBallTrail b else b.

(** Ball wall collision (left and right) and ceiling collision. *)
Definition ball_wall_collision (b : Ball.t) : Ball.t :=
  let b :=
    if vec_x (Ball.position b) - Ball.radius b <=? 0 then
      let b := Ball.set_position_x b (Ball.radius b) in
      Ball.set_velocity_x b (vec_x (Ball.velocity b) * - BALL_BOUNCE_DAMPING)
    else b in
  let b :=
    if vec_x (Ball.position b) + Ball.radius b >=? IZR SCREEN_WIDTH then
      let b := Ball.set_position_x b (IZR SCREEN_WIDTH - Ball.radius b) in
      Ball.set_velocity_x b (vec_x (Ball.velocity b) * - BALL_BOUNCE_DAMPING)
    else b in
  if vec_y (Ball.position b) - Ball.radius b <=? 0 then
    let b := Ball.set_position_y b (Ball.radius b) in
    Ball.set_velocity_y b (vec_y (Ball.velocity b) * - BALL_BOUNCE_DAMPING)
  else b.

Definition netRect : Rectangle :=
  mkRectangle (IZR NET_X - NET_WIDTH / 2) (IZR GROUND_LEVEL - NET_HEIGHT)
    NET_WIDTH NET_HEIGHT.

(** Ball-net collision. *)
Definition ball_net_collision (b : Ball.t) : Ball.t :=
  if CheckCollisionCircleRec (Ball.position b) (Ball.radius b) netRect then
    let b := Ball.set_velocity_x b (vec_x (Ball.velocity b) * - BALL_BOUNCE_DAMPING) in
    let b := Ball.set_velocity_y b (vec_y (Ball.velocity b) * 0.9) in
    (* Push ball out of net *)
    if vec_x (Ball.position b) <? IZR NET_X
    then Ball.set_position_x b (rec_x netRect - Ball.radius b)
    else Ball.set_position_x b (rec_x netRect + rec_width netRect + Ball.radius b)
  else b.

(** Collision normal: from the player's centre to the ball's centre,
    normalised unless its length is zero. *)
Definition collision_normal (p : Player.t) (b : Ball.t) : Vector2 :=
  let nx := vec_x (Ball.position b) - vec_x (Player.position p) in
  let ny := vec_y (Ball.position b) - vec_y (Player.position p) in
  let length := sqrtf (nx * nx + ny * ny) in
  if length >? 0 then mkVector2 (nx / length) (ny / length)
  else mkVector2 nx ny.

(** Reflect ball velocity about the normal. *)
Definition reflect (v normal : Vector2) : Vector2 :=
  let dotProduct := vec_x v * vec_x normal + vec_y v * vec_y normal in
  mkVector2 (vec_x v - 2 * dotProduct * vec_x normal)
            (vec_y v - 2 * dotProduct * vec_y normal).

(** Clamp ball speed. *)
Definition clamp_speed (v : Vector2) : Vector2 :=
  let speed := sqrtf (vec_x v * vec_x v + vec_y v * vec_y v) in
  if speed >? BALL_MAX_SPEED
  then mkVector2 ((vec_x v / speed) * BALL_MAX_SPEED)
                 ((vec_y v / speed) * BALL_MAX_SPEED)
  else v.

(** Energy loss, the player's velocity influence and the jump boost, as
    applied to the reflected velocity [v]. *)
Definition transfer (p : Player.t) (v : Vector2) : Vector2 :=
  let v := mkVector2 (vec_x v * 0.95) (vec_y v * 0.95) in
  let v := mkVector2 (vec_x v + vec_x (Player.velocity p) * 0.7)
                     (vec_y v + vec_y (Player.velocity p) * 0.5) in
  if vec_y (Player.velocity p) <? -5
  then set_y v (vec_y v - 3)
  else v.

(** Body of a ball-player collision; the code for player1 and for player2
    differs only in the player it names. *)
Definition hit_ball (p : Player.t) (b : Ball.t) : Ball.t :=
  let normal := collision_normal p b in
  let b := Ball.set_velocity b (reflect (Ball.velocity b) normal) in
  let b := Ball.set_velocity b (transfer p (Ball.velocity b)) in
  let b := Ball.set_velocity b (clamp_speed (Ball.velocity b)) in
  (* Push ball out of blob *)
  Ball.set_position b
    (mkVector2
       (vec_x (Player.position p) + vec_x normal * (Player.radius p + Ball.radius b))
       (vec_y (Player.position p) + vec_y normal * (Player.radius p + Ball.radius b))).

(** Ball-player collision with velocity transfer (skip during score delay). *)
Definition ball_player_collision (p : Player.t) (s : State) : State :=
  if (scoreDelayTimer s =? 0)%Z
     && CheckCollisionCircles (Ball.position (ball s)) (Ball.radius (ball s))
          (Player.position p) (Player.radius p)
  then set_ball s (hit_ball p (ball s))
  else s.

(** Determine which side scored, then check the win condition. *)
Definition resolve_score (s : State) : State :=
  let s :=
    if vec_x (Ball.position (ball s)) <? IZR NET_X then
      (* Ball landed on left side, right player scores *)
      let s := set_player2 s
                 (Player.set_score (player2 s) (int_incr (Player.score (player2 s)))) in
      set_servingSide s RIGHT
    else
      (* Ball landed on right side, left player scores *)
      let s := set_player1 s
                 (Player.set_score (player1 s) (int_incr (Player.score (player1 s)))) in
      set_servingSide s LEFT in
  if (Player.score (player1 s) >=? WIN_SCORE)%Z
     || (Player.score (player2 s) >=? WIN_SCORE)%Z
  then set_gameState s GAMEOVER
  else set_scoreDelayTimer s SCORE_DELAY_FRAMES.

(** The ball's bottom edge has reached the ground line. *)
Definition touches_ground (b : Ball.t) : bool :=
  vec_y (Ball.position b) + Ball.radius b >=? IZR GROUND_LEVEL.

(** Bounce ball off ground. *)
Definition ground_bounce (b : Ball.t) : Ball.t :=
  let b := Ball.set_position_y b (IZR GROUND_LEVEL - Ball.radius b) in
  Ball.set_velocity_y b (vec_y (Ball.velocity b) * - BALL_BOUNCE_DAMPING).

(** Ball ground collision. *)
Definition ball_ground_collision (i : Input) (s : State) : State :=
  if touches_ground (ball s) then
    let s := set_ball s (ground_bounce (ball s)) in
    (* Spawn ground particles on impact *)
    let impactPos := mkVector2 (vec_x (Ball.position (ball s))) (IZR GROUND_LEVEL) in
    let s := SpawnGroundParticles i impactPos 15 s in
    (* Only process scoring if not in delay *)
    if (scoreDelayTimer s =? 0)%Z then resolve_score s else s
  else s.

(** First part of the PLAYING frame: match timer, particles, controls,
    AI and player physics. *)
Definition players_phase (i : Input) (s : State) : State :=
  let s := set_matchTimer s (int_incr (matchTimer s)) in
  let s := UpdateParticles s in
  let s := UpdatePlayerControls i s in
  let s := match gameMode s with
           | SINGLE_PLAYER => UpdateAI i s
           | TWO_PLAYER => s
           end in
  player_physics s.

(** Second part: score delay timer, ball physics, trail, and the ball's
    collisions with the walls, the net and the two players. *)
Definition ball_phase (s : State) : State :=
  let s := score_delay_step s in
  let s := set_ball s (ball_integrate (ball s)) in
  let s := set_ball s (ball_trail_step (framesCounter s) (ball s)) in
  let s := set_ball s (ball_wall_collision (ball s)) in
  let s := set_ball s (ball_net_collision (ball s)) in
  let s := ball_player_collision (player1 s) s in
  ball_player_collision (player2 s) s.

(** Everything the PLAYING case does up to, and not including, the ball's
    ground collision. *)
Definition before_ground (i : Input) (s : State) : State :=
  ball_phase (players_phase i s).

(** The body of [if (!pause)] in the PLAYING case. *)
Definition playing_frame (i : Input) (s : State) : State :=
  ball_ground_collision i (before_ground i s).

(* ------------------------------------------------------------------ *)
(** ** UpdateGame (one frame) *)

Definition update_menu (i : Input) (s : State) : State :=
  (* Menu navigation *)
  let s :=
    if IsKeyPressed i KEY_UP then
      let s := set_menuSelection s (int_decr (menuSelection s)) in
      if (menuSelection s <? 0)%Z then set_menuSelection s 3 else s
    else s in
  let s :=
    if IsKeyPressed i KEY_DOWN then
      let s := set_menuSelection s (int_incr (menuSelection s)) in
      if (menuSelection s >? 3)%Z then set_menuSelection s 0 else s
    else s in
  (* Start game, show credits, or exit *)
  if IsKeyPressed i KEY_ENTER then
    if (menuSelection s =? 0)%Z || (menuSelection s =? 1)%Z then
      let s := set_gameMode s
                 (if (menuSelection s =? 0)%Z then SINGLE_PLAYER else TWO_PLAYER) in
      let s := set_gameState s PLAYING in
      (* Reset scores *)
      let s := set_player1 s (Player.set_score (player1 s) 0) in
      let s := set_player2 s (Player.set_score (player2 s) 0) in
      let s := set_matchTimer s 0 in
      ResetBall s
    else if (menuSelection s =? 2)%Z then
      set_creditsScroll (set_gameState s CREDITS) (IZR SCREEN_HEIGHT)
    else if (menuSelection s =? 3)%Z then
      set_shouldExitGame s true
    else s
  else s.

Definition update_playing (i : Input) (s : State) : State :=
  let s := if IsKeyPressed i KEY_P then set_pause s (negb (pause s)) else s in
  (* Return to menu on Escape *)
  if IsKeyPressed i KEY_ESCAPE then
    set_menuSelection (set_gameState s MENU) 0
  else if negb (pause s) then playing_frame i s
  else s.

Definition update_gameover (i : Input) (s : State) : State :=
  (* Return to menu *)
  if IsKeyPressed i KEY_ENTER then
    let s := set_gameState s MENU in
    let s := set_menuSelection s 0 in
    let s := set_player1 s (Player.set_score (player1 s) 0) in
    let s := set_player2 s (Player.set_score (player2 s) 0) in
    set_matchTimer s 0
  else s.

Definition update_credits (i : Input) (s : State) : State :=
  (* Scroll credits up *)
  let s := set_creditsScroll s (creditsScroll s - 2) in
  let s := if creditsScroll s <=? -800 then set_creditsScroll s (-800) else s in
  if IsKeyPressed i KEY_ENTER || IsKeyPressed i KEY_ESCAPE then
    set_menuSelection (set_gameState s MENU) 0
  else s.

Definition UpdateGame (i : Input) (s : State) : State :=
  let s := set_framesCounter s (int_incr (framesCounter s)) in
  match gameState s with
  | MENU => update_menu i s
  | PLAYING => update_playing i s
  | GAMEOVER => update_gameover i s
  | CREDITS => update_credits i s
  end.

(** Successive frames, one [Input] per frame. *)
Fixpoint run (inputs : list Input) (s : State) : State :=
  match inputs with
  | [] => s
  | i :: rest => run rest (UpdateGame i s)
  end.

(** The states the program can be in: those [UpdateGame] reaches from the
    state [InitGame] leaves, under any inputs. *)
Inductive reachable : State -> Prop :=
| reachable_init : reachable initial_state
| reachable_step : forall i s, reachable s -> reachable (UpdateGame i s).

(* ------------------------------------------------------------------ *)
(** ** Drawing

    What the draw functions compute from the globals before they hand it
    to raylib: colours, circles, the clock, the shadow and the winner. *)

Module Menu.
(** The two colours [DrawMenu] gives an option. *)
Inductive Color := RED | GRAY.
End Menu.

(** [DrawMenu], "highlight selected option": the colours in which the four
    options are drawn, from top to bottom. *)
Definition DrawMenu (s : State) : list Menu.Color :=
  let color1 := if (menuSelection s =? 0)%Z then Menu.RED else Menu.GRAY in
  let color2 := if (menuSelection s =? 1)%Z then Menu.RED else Menu.GRAY in
  let color3 := if (menuSelection s =? 2)%Z then Menu.RED else Menu.GRAY in
  let color4 := if (menuSelection s =? 3)%Z then Menu.RED else Menu.GRAY in
  [color1; color2; color3; color4].

(** A circle handed to raylib's [DrawCircleV]: centre, radius and the
    opacity given to [Fade]. *)
Record Circle := mkCircle
  { circle_centre : Vector2; circle_radius : R; circle_alpha : R }.

(** The loop of [DrawBallTrail] from index [i] on, [n] iterations to go:
    the circles drawn, most recent position first.  [None] stands for a
    read of [ball.trail[i]] outside the array. *)
Fixpoint DrawBallTrail_loop (i n : nat) (b : Ball.t) : option (list Circle) :=
  match n with
  | O => Some []
  | S k =>
    match nth_error (Ball.trail b) i with
    | None => None
    | Some pos =>
      let alpha := 1 - INR i / INR TRAIL_LENGTH in
      let radius := Ball.radius b * (1 - (INR i / INR TRAIL_LENGTH) * 0.5) in
      option_map (cons (mkCircle pos radius (alpha * 0.6)))
        (DrawBallTrail_loop (S i) k b)
    end
  end.

(** [for (int i = 0; i < ball.trailCount; i++)]. *)
Definition DrawBallTrail (b : Ball.t) : option (list Circle) :=
  DrawBallTrail_loop 0 (Z.to_nat (Ball.trailCount b)) b.

(** [DrawParticles]: one circle for each active particle, of radius
    [3 * life] and opacity [alpha]. *)
Definition DrawParticles (s : State) : list Circle :=
  map (fun p => mkCircle (Particle.position p) (3 * Particle.life p) (Particle.alpha p))
      (filter Particle.active (firstn MAX_PARTICLES (particles s))).

(** The two texts of the winner announcement of [DrawGame]. *)
Inductive Announcement := PLAYER_1_WINS | PLAYER_2_WINS.

(** [DrawGame], GAMEOVER case, "winner announcement". *)
Definition winner (s : State) : Announcement :=
  if (Player.score (player1 s) >=? WIN_SCORE)%Z then PLAYER_1_WINS else PLAYER_2_WINS.

(** [DrawScore], "match timer (convert frames to minutes:seconds)": the
    two numbers printed; [/] and [%] are C's division and remainder. *)
Definition DrawScore_timer (s : State) : Z * Z :=
  let totalSeconds := (matchTimer s ÷ 60)%Z in
  let minutes := (totalSeconds ÷ 60)%Z in
  let seconds := Z.rem totalSeconds 60 in
  (minutes, seconds).

(** [DrawPlayerShadow], "shadow size and opacity decrease with height":
    the scale of the ellipse and its opacity. *)
Definition shadowScale (player : Player.t) : R :=
  let height := IZR GROUND_LEVEL - vec_y (Player.position player) - Player.radius player in
  let shadowScale := 1 - height / 200 in
  let shadowScale := if shadowScale <? 0.4 then 0.4 else shadowScale in
  if shadowScale >? 1 then 1 else shadowScale.

Definition shadowAlpha (player : Player.t) : R := 0.3 * shadowScale player.

(* ================================================================== *)
(** * Vocabulary of the statements

    Names for the intermediate states of a frame, for what the claims
    speak about, and for the concrete matches the claims are tried on. *)

(* ------------------------------------------------------------------ *)
(** ** The parts of a PLAYING frame *)

(** The state a PLAYING frame works on once the frame counter has been
    bumped and the pause key handled. *)
Definition enter_playing (i : Input) (s : State) : State :=
  let s := set_framesCounter s (int_incr (framesCounter s)) in
  if IsKeyPressed i KEY_P then set_pause s (negb (pause s)) else s.

(** The frame runs the physics: the game is PLAYING, Escape is not pressed
    and, after the pause key has been handled, the game is not paused. *)
Definition runs_physics (i : Input) (s : State) : Prop :=
  gameState s = PLAYING /\
  IsKeyPressed i KEY_ESCAPE = false /\
  pause (enter_playing i s) = false.

(** The frame's input neither leaves the match nor toggles the pause. *)
Definition plays_on (i : Input) : Prop :=
  IsKeyPressed i KEY_ESCAPE = false /\ IsKeyPressed i KEY_P = false.

(** The globals at the moment control reaches the ground-collision test. *)
Definition at_ground (i : Input) (s : State) : State :=
  before_ground i (enter_playing i s).

(** What [player_physics] does to one player. *)
Definition settle (p : Player.t) : Player.t :=
  let p := Player.set_position_x p (vec_x (Player.position p) + vec_x (Player.velocity p)) in
  let p := Player.set_position_y p (vec_y (Player.position p) + vec_y (Player.velocity p)) in
  let p := Player.set_velocity_y p (vec_y (Player.velocity p) + PLAYER_GRAVITY) in
  let p :=
    if vec_y (Player.velocity p) >? PLAYER_MAX_VELOCITY_Y
    then Player.set_velocity_y p PLAYER_MAX_VELOCITY_Y else p in
  if vec_y (Player.position p) + Player.radius p >=? IZR GROUND_LEVEL then
    let q := Player.set_position_y p (IZR GROUND_LEVEL - Player.radius p) in
    let q := Player.set_velocity_y q 0 in
    Player.set_onGround q true
  else Player.set_onGround p false.

(** The delay timer after "Handle score delay timer". *)
Definition delay_after (t : Z) : Z :=
  if (t >? 0)%Z then int_decr t else t.

(** The ball's flight between the delay-timer step and the player
    collisions: integration, trail, walls and ceiling, net. *)
Definition flight (frames : Z) (b : Ball.t) : Ball.t :=
  ball_net_collision (ball_wall_collision (ball_trail_step frames (ball_integrate b))).

(** A player collision as the ball sees it, given the delay timer [t]. *)
Definition hits (t : Z) (p : Player.t) (b : Ball.t) : Ball.t :=
  if (t =? 0)%Z
     && CheckCollisionCircles (Ball.position b) (Ball.radius b)
          (Player.position p) (Player.radius p)
  then hit_ball p b else b.

(* ------------------------------------------------------------------ *)
(** ** Which globals a phase may write *)

(** [s'] differs from [s] at most in the players' motion, the ball, the
    particles, the AI cooldown, the delay timer, the match timer and the
    random source: the rules of the match (state, mode, pause, frame
    counter, serving side, scores and menu) are those of [s]. *)
Definition same_rules (s s' : State) : Prop :=
  gameState s' = gameState s /\
  gameMode s' = gameMode s /\
  pause s' = pause s /\
  framesCounter s' = framesCounter s /\
  servingSide s' = servingSide s /\
  Player.score (player1 s') = Player.score (player1 s) /\
  Player.score (player2 s') = Player.score (player2 s) /\
  menuSelection s' = menuSelection s /\
  shouldExitGame s' = shouldExitGame s.

(** A phase that writes only the players' motion, the particles, the AI
    cooldown, the match timer and the random source. *)
Definition moves_players (s s' : State) : Prop :=
  same_rules s s' /\
  ball s' = ball s /\
  scoreDelayTimer s' = scoreDelayTimer s.

(** Spawning particles writes the pool and the random source only. *)
Definition writes_particles (s s' : State) : Prop :=
  exists ps rc, s' = set_rngCalls (set_particles s ps) rc.

(* ------------------------------------------------------------------ *)
(** ** Scores, spawn points, players at rest *)

Definition score1 (s : State) : Z := Player.score (player1 s).
Definition score2 (s : State) : Z := Player.score (player2 s).

(** Both scores lie between 0 and the win score, and reach it only in
    the game-over state. *)
Definition score_inv (s : State) : Prop :=
  (0 <= score1 s <= WIN_SCORE)%Z /\
  (0 <= score2 s <= WIN_SCORE)%Z /\
  (gameState s <> GAMEOVER -> (score1 s < WIN_SCORE)%Z /\ (score2 s < WIN_SCORE)%Z).



(** The player stands still on the ground at [x]. *)
Definition standing (x : R) (p : Player.t) : Prop :=
  Player.position p = mkVector2 x 668 /\
  Player.velocity p = vzero /\
  Player.radius p = 50 /\
  Player.onGround p = true.

(** [n] times what a frame of play does to player 1 under the input [i]:
    his controls, then the player physics. *)
Fixpoint walk (i : Input) (n : nat) (p : Player.t) : Player.t :=
  match n with
  | O => p
  | S k => walk i k (settle (controls1 i p))
  end.

(* ------------------------------------------------------------------ *)
(** ** Vectors *)

(** Euclidean length, dot product and direction of a vector. *)
Definition norm (v : Vector2) : R :=
  sqrt (vec_x v * vec_x v + vec_y v * vec_y v).

Definition dot (v w : Vector2) : R :=
  vec_x v * vec_x w + vec_y v * vec_y w.

Definition direction (v : Vector2) : Vector2 :=
  mkVector2 (vec_x v / norm v) (vec_y v / norm v).

(** The vector from the player's centre to the ball's centre. *)
Definition centre_to_centre (p : Player.t) (b : Ball.t) : Vector2 :=
  mkVector2 (vec_x (Ball.position b) - vec_x (Player.position p))
            (vec_y (Ball.position b) - vec_y (Player.position p)).

(* ------------------------------------------------------------------ *)
(** ** The particle pool *)

(** Number of active, and of inactive, slots. *)
Definition count_active (ps : list Particle.t) : nat :=
  length (filter Particle.active ps).

Definition count_inactive (ps : list Particle.t) : nat :=
  length (filter (fun p => negb (Particle.active p)) ps).

(* ------------------------------------------------------------------ *)
(** ** The AI controller on its own *)

(** Successive calls of the AI controller; the ball is not touched. *)
Fixpoint ai_run (inputs : list Input) (s : State) : State :=
  match inputs with
  | [] => s
  | i :: rest => ai_run rest (UpdateAI i s)
  end.

(** Player 2's horizontal position. *)
Definition x2 (s : State) : R := vec_x (Player.position (player2 s)).

(** The horizontal midpoint of the AI's half. *)
Definition ai_target : R := IZR (NET_X + (SCREEN_WIDTH - NET_X) ÷ 2).

(** Player 2 is within the tolerance band around the midpoint. *)
Definition in_band (s : State) : Prop :=
  Rabs (x2 s - ai_target) <= AI_POSITION_TOLERANCE.

(* ------------------------------------------------------------------ *)
(** ** Inputs and matches the claims are tried on *)

(** No key is touched. *)
Definition no_keys : Input :=
  mkInput (fun _ => false) (fun _ => false) (fun _ => 0%Z).

(** ENTER goes down. *)
Definition press_enter : Input :=
  mkInput (fun _ => false)
          (fun k => match k with KEY_ENTER => true | _ => false end)
          (fun _ => 0%Z).

(** Player 1 holds A (move left), or D (move right). *)
Definition hold_A : Input :=
  mkInput (fun k => match k with KEY_A => true | _ => false end)
          (fun _ => false) (fun _ => 0%Z).

Definition hold_D : Input :=
  mkInput (fun k => match k with KEY_D => true | _ => false end)
          (fun _ => false) (fun _ => 0%Z).

(** A two-player match in progress: the players stand on the ground at
    [x1] and [x2], the ball is at [pos] with velocity [vel], the scores are
    [a] and [b], the delay timer is at [delay] and [serve] is the serving
    side. *)
Definition court (x1 x2 : R) (pos vel : Vector2) (a b delay : Z)
  (serve : PlayerSide) : State :=
  mkState PLAYING TWO_PLAYER false 0
    (Player.mk (mkVector2 x1 668) vzero PLAYER_RADIUS LEFT BLUE a true)
    (Player.mk (mkVector2 x2 668) vzero PLAYER_RADIUS RIGHT RED b true)
    (Ball.mk pos vel BALL_RADIUS (repeat vzero TRAIL_LENGTH) 0 0)
    (repeat Particle.zero MAX_PARTICLES) 0 serve delay 0 0 false 0 0.

(** The ball comes down left of the net, between player 1 and the net,
    with the scores at [a] and [b]: it is at the ground, the delay is
    inactive, and player 2 scores. *)
Definition landing (a b : Z) : State :=
  court 256 768 (mkVector2 400 680) (mkVector2 0 10) a b 0 LEFT.

(** The first point of a match, and a match point for player 2. *)
Definition landing_left : State := landing 0 0.

Definition match_point : State := landing 0 9.

(** Player 1 stands near the net and the ball drops onto his right
    shoulder: the push out of the blob leaves the ball's centre exactly on
    the centerline, low enough to touch the ground. *)
Definition landing_centre : State :=
  court 437 768 (mkVector2 452 676.4) (mkVector2 0 (-0.4)) 0 0 0 LEFT.

(** A two-player match with player 1 touching the left screen edge, and
    one with player 1 touching the net's near edge: where the clamp of
    [UpdatePlayerControls] puts a player who has walked outwards. *)
Definition at_left_wall : State :=
  court 50 768 (mkVector2 768 100) vzero 0 0 0 RIGHT.

Definition at_net : State :=
  court 457 768 (mkVector2 768 100) vzero 0 0 0 RIGHT.


(** A single-player match in which the ball lies still on the AI's own
    side, 160 units to the right of the AI. *)
Definition ball_on_ai_side : State :=
  set_gameMode (court 256 790 (mkVector2 950 683) vzero 0 0 0 LEFT) SINGLE_PLAYER.

(** A single-player match with the ball lying still on the left half and
    the AI at the net. *)
Definition ball_on_left_side : State :=
  set_gameMode (court 256 567 (mkVector2 200 683) vzero 0 0 0 LEFT) SINGLE_PLAYER.

(* ------------------------------------------------------------------ *)
(** ** Frames, inputs and what holds in every reachable state *)

(** What moves of a player: position, velocity, radius and ground flag. *)
Definition body (p : Player.t) : Vector2 * Vector2 * R * bool :=
  (Player.position p, Player.velocity p, Player.radius p, Player.onGround p).

(** The game states [UpdateGame] can move between in one frame. *)
Definition transition (a b : GameState) : Prop :=
  match a, b with
  | MENU, (MENU | PLAYING | CREDITS) => True
  | PLAYING, (PLAYING | MENU | GAMEOVER) => True
  | GAMEOVER, (GAMEOVER | MENU) => True
  | CREDITS, (CREDITS | MENU) => True
  | _, _ => False
  end.

(** The key [k] goes down, and no other. *)
Definition press (k : Key) : Input :=
  mkInput (fun _ => false)
          (fun k' => match k, k' with
                     | KEY_A, KEY_A | KEY_D, KEY_D | KEY_W, KEY_W
                     | KEY_LEFT, KEY_LEFT | KEY_RIGHT, KEY_RIGHT
                     | KEY_UP, KEY_UP | KEY_DOWN, KEY_DOWN
                     | KEY_ENTER, KEY_ENTER | KEY_ESCAPE, KEY_ESCAPE
                     | KEY_P, KEY_P => true
                     | _, _ => false
                     end)
          (fun _ => 0%Z).

(** All the arrow keys held and pressed, and ENTER pressed. *)
Definition arrows_and_enter : Input :=
  mkInput (fun k => match k with
                    | KEY_LEFT | KEY_RIGHT | KEY_UP | KEY_DOWN => true
                    | _ => false
                    end)
          (fun k => match k with
                    | KEY_LEFT | KEY_RIGHT | KEY_UP | KEY_DOWN | KEY_ENTER => true
                    | _ => false
                    end)
          (fun _ => 0%Z).

(** No key is touched and the random source gives 50 each time. *)
Definition draws_50 : Input :=
  mkInput (fun _ => false) (fun _ => false) (fun _ => 50%Z).

(** A single-player match with the ball coming down 60 units to the right
    of the AI, 18 units above its centre. *)
Definition ball_over_ai : State :=
  set_gameMode (court 256 790 (mkVector2 850 650) (mkVector2 0 5) 0 0 0 LEFT)
    SINGLE_PLAYER.

(** The two inputs agree on all a single-player match reads: P, Escape,
    player 1's keys W, A and D, and the random source. *)
Definition same_single_player_input (i i' : Input) : Prop :=
  IsKeyPressed i KEY_P = IsKeyPressed i' KEY_P /\
  IsKeyPressed i KEY_ESCAPE = IsKeyPressed i' KEY_ESCAPE /\
  IsKeyPressed i KEY_W = IsKeyPressed i' KEY_W /\
  IsKeyDown i KEY_A = IsKeyDown i' KEY_A /\
  IsKeyDown i KEY_D = IsKeyDown i' KEY_D /\
  forall n : nat, rnd i n = rnd i' n.

(** The frame counter after [n] more frames. *)
Definition frames_later (n : nat) (frames : Z) : Z := Nat.iter n int_incr frames.

(** Every frame of the list runs the physics. *)
Fixpoint play (inputs : list Input) (s : State) : Prop :=
  match inputs with
  | [] => True
  | i :: rest => runs_physics i s /\ play rest (UpdateGame i s)
  end.

(** The menu selection is one of the four options. *)
Definition menu_inv (s : State) : Prop := (0 <= menuSelection s <= 3)%Z.

(** The delay timer and the AI cooldown are within their ranges. *)
Definition timers_inv (s : State) : Prop :=
  (0 <= scoreDelayTimer s <= SCORE_DELAY_FRAMES)%Z /\
  (0 <= aiJumpCooldown s <= AI_JUMP_COOLDOWN)%Z.

(** The credits are between their end position and the screen height. *)
Definition credits_inv (s : State) : Prop :=
  -800 <= creditsScroll s <= IZR SCREEN_HEIGHT.

(** The player is on or above the ground line, falls no faster than the
    maximum, and his ground flag says whether he rests on the line. *)
Definition grounded (p : Player.t) : Prop :=
  vec_y (Player.position p) + Player.radius p <= IZR GROUND_LEVEL /\
  vec_y (Player.velocity p) <= PLAYER_MAX_VELOCITY_Y /\
  (Player.onGround p = true ->
     vec_y (Player.position p) + Player.radius p = IZR GROUND_LEVEL /\
     vec_y (Player.velocity p) = 0) /\
  (Player.onGround p = false ->
     vec_y (Player.position p) + Player.radius p < IZR GROUND_LEVEL).

(** The players have their radius, are within 4 units of their bounds,
    and are [grounded]. *)
Definition players_inv (s : State) : Prop :=
  (Player.radius (player1 s) = PLAYER_RADIUS /\
   Player.radius (player2 s) = PLAYER_RADIUS) /\
  (46 <= vec_x (Player.position (player1 s)) <= 461 /\
   563 <= vec_x (Player.position (player2 s)) <= 978) /\
  grounded (player1 s) /\ grounded (player2 s).

(** How far above his standing height a player is [n] frames into a
    jump: 12 units up per frame, less the gravity summed so far. *)
Definition jump_height (n : nat) : R := 12 * INR n - 0.4 * INR n * (INR n - 1).

(** Player [p], [n] physics steps after the jump was started: in the air
    for the first 30, back on the ground at the 31st. *)
Definition jumped (n : nat) (p : Player.t) : Prop :=
  Player.radius p = 50 /\
  if (n <=? 30)%nat then
    vec_y (Player.position p) = 668 - jump_height n /\
    vec_y (Player.velocity p) = -12 + 0.8 * INR n /\
    Player.onGround p = false
  else
    vec_y (Player.position p) = 668 /\
    vec_y (Player.velocity p) = 0 /\
    Player.onGround p = true.

(** The trail array has its [TRAIL_LENGTH] entries and the count of
    those in use is between 0 and [TRAIL_LENGTH]. *)
Definition trail_ok (b : Ball.t) : Prop :=
  length (Ball.trail b) = TRAIL_LENGTH /\
  (0 <= Ball.trailCount b <= Z.of_nat TRAIL_LENGTH)%Z.

(** The ball has its radius, is not below the ground line, and its trail
    is [trail_ok]. *)
Definition ball_inv (s : State) : Prop :=
  Ball.radius (ball s) = BALL_RADIUS /\
  vec_y (Ball.position (ball s)) + Ball.radius (ball s) <= IZR GROUND_LEVEL /\
  trail_ok (ball s).

(** An active particle has a life in (0, 1] and an opacity equal to it. *)
Definition particle_ok (p : Particle.t) : Prop :=
  Particle.active p = true ->
  Particle.alpha p = Particle.life p /\ 0 < Particle.life p <= 1.

(** The pool has its slots, each [particle_ok]. *)
Definition particles_inv (s : State) : Prop :=
  length (particles s) = MAX_PARTICLES /\ Forall particle_ok (particles s).

(* ================================================================== *)
(** * Properties *)

(* ------------------------------------------------------------------ *)
(** ** Comparisons and constants *)

Lemma Rltb_true (a b : R) : a < b -> (a <? b) = true.
Proof. intros H. unfold Rltb. destruct (Rlt_dec a b); [reflexivity | contradiction]. Qed.

Lemma Rltb_false (a b : R) : b <= a -> (a <? b) = false.
Proof. intros H. unfold Rltb. destruct (Rlt_dec a b); [lra | reflexivity]. Qed.

Lemma Rleb_true (a b : R) : a <= b -> (a <=? b) = true.
Proof. intros H. unfold Rleb. destruct (Rle_dec a b); [reflexivity | contradiction]. Qed.

Lemma Rleb_false (a b : R) : b < a -> (a <=? b) = false.
Proof. intros H. unfold Rleb. destruct (Rle_dec a b); [lra | reflexivity]. Qed.

Lemma Rltb_spec (a b : R) : (a <? b) = true <-> a < b.
Proof.
  split; [| apply Rltb_true].
  unfold Rltb. destruct (Rlt_dec a b); [trivial | discriminate].
Qed.

Lemma Rleb_spec (a b : R) : (a <=? b) = true <-> a <= b.
Proof.
  split; [| apply Rleb_true].
  unfold Rleb. destruct (Rle_dec a b); [trivial | discriminate].
Qed.

Lemma Rltb_nspec (a b : R) : (a <? b) = false <-> b <= a.
Proof.
  split; [| apply Rltb_false].
  unfold Rltb. destruct (Rlt_dec a b); [discriminate | lra].
Qed.

Lemma Rleb_nspec (a b : R) : (a <=? b) = false <-> b < a.
Proof.
  split; [| apply Rleb_false].
  unfold Rleb. destruct (Rle_dec a b); [discriminate | lra].
Qed.

Lemma Rabs_le_bounds (a b : R) : Rabs a <= b -> - b <= a <= b.
Proof. unfold Rabs. destruct (Rcase_abs a); lra. Qed.

Lemma sqrtf_sq (a : R) : sqrtf (a * a) = Rabs a.
Proof. unfold sqrtf. apply (sqrt_Rsqr_abs a). Qed.

Lemma IZR_NET_X : IZR NET_X = 512.
Proof. reflexivity. Qed.

Lemma IZR_SCREEN_WIDTH : IZR SCREEN_WIDTH = 1024.
Proof. reflexivity. Qed.

Lemma IZR_GROUND_LEVEL : IZR GROUND_LEVEL = 718.
Proof. reflexivity. Qed.

Lemma IZR_spawn_left : IZR (SCREEN_WIDTH ÷ 4) = 256.
Proof. reflexivity. Qed.

Lemma IZR_spawn_right : IZR (SCREEN_WIDTH * 3 ÷ 4) = 768.
Proof. reflexivity. Qed.

Lemma IZR_ai_target : IZR (NET_X + (SCREEN_WIDTH - NET_X) ÷ 2) = 768.
Proof. reflexivity. Qed.

Lemma int_incr_small (z : Z) : (INT_MIN <= z < INT_MAX)%Z -> int_incr z = (z + 1)%Z.
Proof.
  unfold int_incr, int_wrap, INT_MIN, INT_MAX. intros H.
  rewrite Z.mod_small; lia.
Qed.

Lemma int_decr_small (z : Z) : (INT_MIN < z <= INT_MAX)%Z -> int_decr z = (z - 1)%Z.
Proof.
  unfold int_decr, int_wrap, INT_MIN, INT_MAX. intros H.
  rewrite Z.mod_small; lia.
Qed.

(** Expose the records the setters build. *)
Ltac setters :=
  cbv beta iota delta
      [set_gameState set_gameMode set_pause set_framesCounter set_player1
       set_player2 set_ball set_particles set_aiJumpCooldown set_servingSide
       set_scoreDelayTimer set_menuSelection set_creditsScroll
       set_shouldExitGame set_matchTimer set_rngCalls
       Player.set_position Player.set_velocity Player.set_score
       Player.set_onGround Player.set_position_x Player.set_position_y
       Player.set_velocity_x Player.set_velocity_y
       Ball.set_position Ball.set_velocity Ball.set_radius Ball.set_trail
       Ball.set_trailCount Ball.set_rotation Ball.set_position_x
       Ball.set_position_y Ball.set_velocity_x Ball.set_velocity_y
       set_x set_y];
  cbn [gameState gameMode pause framesCounter player1 player2 ball particles
       aiJumpCooldown servingSide scoreDelayTimer menuSelection creditsScroll
       shouldExitGame matchTimer rngCalls
       Player.position Player.velocity Player.radius Player.side Player.color
       Player.score Player.onGround
       Ball.position Ball.velocity Ball.radius Ball.trail Ball.trailCount
       Ball.rotation vec_x vec_y].

(** Unfold the record accessors and setters, and nothing else. *)
Ltac fields :=
  cbn [gameState gameMode pause framesCounter player1 player2 ball particles
       aiJumpCooldown servingSide scoreDelayTimer menuSelection creditsScroll
       shouldExitGame matchTimer rngCalls
       set_gameState set_gameMode set_pause set_framesCounter set_player1
       set_player2 set_ball set_particles set_aiJumpCooldown set_servingSide
       set_scoreDelayTimer set_menuSelection set_creditsScroll
       set_shouldExitGame set_matchTimer set_rngCalls
       Player.position Player.velocity Player.radius Player.side Player.color
       Player.score Player.onGround
       Player.set_position Player.set_velocity Player.set_score
       Player.set_onGround Player.set_position_x Player.set_position_y
       Player.set_velocity_x Player.set_velocity_y
       Ball.position Ball.velocity Ball.radius Ball.trail Ball.trailCount
       Ball.rotation
       Ball.set_position Ball.set_velocity Ball.set_radius Ball.set_trail
       Ball.set_trailCount Ball.set_rotation Ball.set_position_x
       Ball.set_position_y Ball.set_velocity_x Ball.set_velocity_y
       Particle.position Particle.velocity Particle.color Particle.alpha
       Particle.life Particle.active
       vec_x vec_y set_x set_y rec_x rec_y rec_width rec_height
       IsKeyDown IsKeyPressed rnd andb orb negb fst snd].

Ltac fields_in H :=
  cbn [gameState gameMode pause framesCounter player1 player2 ball particles
       aiJumpCooldown servingSide scoreDelayTimer menuSelection creditsScroll
       shouldExitGame matchTimer rngCalls
       set_gameState set_gameMode set_pause set_framesCounter set_player1
       set_player2 set_ball set_particles set_aiJumpCooldown set_servingSide
       set_scoreDelayTimer set_menuSelection set_creditsScroll
       set_shouldExitGame set_matchTimer set_rngCalls
       Player.position Player.velocity Player.radius Player.side Player.color
       Player.score Player.onGround
       Player.set_position Player.set_velocity Player.set_score
       Player.set_onGround Player.set_position_x Player.set_position_y
       Player.set_velocity_x Player.set_velocity_y
       Ball.position Ball.velocity Ball.radius Ball.trail Ball.trailCount
       Ball.rotation
       Ball.set_position Ball.set_velocity Ball.set_radius Ball.set_trail
       Ball.set_trailCount Ball.set_rotation Ball.set_position_x
       Ball.set_position_y Ball.set_velocity_x Ball.set_velocity_y
       Particle.position Particle.velocity Particle.color Particle.alpha
       Particle.life Particle.active
       vec_x vec_y set_x set_y rec_x rec_y rec_width rec_height
       IsKeyDown IsKeyPressed rnd andb orb negb fst snd] in H.

(** Settle the comparisons between closed real expressions. *)
Ltac rcompare :=
  repeat match goal with
  | |- context [Rgtb ?a ?b] => unfold Rgtb
  | |- context [Rgeb ?a ?b] => unfold Rgeb
  | |- context [Rltb ?a ?b] =>
      first [ rewrite (Rltb_true a b) by lra | rewrite (Rltb_false a b) by lra ]
  | |- context [Rleb ?a ?b] =>
      first [ rewrite (Rleb_true a b) by lra | rewrite (Rleb_false a b) by lra ]
  end.

Ltac consts :=
  rewrite ?IZR_NET_X, ?IZR_SCREEN_WIDTH, ?IZR_GROUND_LEVEL, ?IZR_spawn_left,
    ?IZR_spawn_right, ?IZR_ai_target;
  unfold PLAYER_GRAVITY, BALL_GRAVITY, BALL_BOUNCE_DAMPING, PLAYER_RADIUS,
    BALL_RADIUS, PLAYER_MOVE_SPEED, PLAYER_JUMP_FORCE, PLAYER_MAX_VELOCITY_Y,
    BALL_MAX_SPEED, NET_HEIGHT, NET_WIDTH, AI_REACTION_DISTANCE,
    AI_JUMP_THRESHOLD, AI_POSITION_TOLERANCE.

(* ------------------------------------------------------------------ *)
(** ** Which globals each phase writes *)

Lemma UpdateGame_playing (i : Input) (s : State) :
  runs_physics i s -> UpdateGame i s = ball_ground_collision i (at_ground i s).
Proof.
  intros (Hg & He & Hp).
  unfold UpdateGame, at_ground, enter_playing in *. fields.
  rewrite Hg. unfold update_playing. fields.
  destruct (IsKeyPressed i KEY_P); fields; fields_in Hp;
    rewrite He, Hp; reflexivity.
Qed.

Lemma same_rules_refl (s : State) : same_rules s s.
Proof. unfold same_rules; tauto. Qed.

Lemma same_rules_trans (s1 s2 s3 : State) :
  same_rules s1 s2 -> same_rules s2 s3 -> same_rules s1 s3.
Proof.
  unfold same_rules.
  intros (a1 & a2 & a3 & a4 & a5 & a6 & a7 & a8 & a9)
         (b1 & b2 & b3 & b4 & b5 & b6 & b7 & b8 & b9).
  repeat split; congruence.
Qed.

(** Case analysis on the tests of a phase, one at a time. *)
Ltac split_ifs :=
  repeat (match goal with
          | |- context [if ?c then _ else _] =>
              lazymatch c with
              | context [if _ then _ else _] => fail
              | _ => destruct c eqn:?
              end
          end; fields).

Lemma player_physics_players (s : State) :
  player_physics s = set_player2 (set_player1 s (settle (player1 s))) (settle (player2 s)).
Proof. reflexivity. Qed.

Lemma controls1_score (i : Input) (p : Player.t) :
  Player.score (controls1 i p) = Player.score p.
Proof. unfold controls1. split_ifs; reflexivity. Qed.

Lemma controls2_score (i : Input) (p : Player.t) :
  Player.score (controls2 i p) = Player.score p.
Proof. unfold controls2. split_ifs; reflexivity. Qed.

Lemma settle_score (p : Player.t) : Player.score (settle p) = Player.score p.
Proof. unfold settle. split_ifs; reflexivity. Qed.

Lemma moves_players_refl (s : State) : moves_players s s.
Proof. split; [apply same_rules_refl | tauto]. Qed.

Lemma moves_players_trans (s1 s2 s3 : State) :
  moves_players s1 s2 -> moves_players s2 s3 -> moves_players s1 s3.
Proof.
  intros (a & a1 & a2) (b & b1 & b2). split; [| split; congruence].
  eapply same_rules_trans; eassumption.
Qed.

Ltac same_fields :=
  unfold moves_players, same_rules; fields; repeat split; try reflexivity.

Lemma ai_return_to_center_score (p : Player.t) :
  Player.score (ai_return_to_center p) = Player.score p.
Proof. unfold ai_return_to_center. split_ifs; reflexivity. Qed.

Lemma ai_move_toward_score (d : R) (p : Player.t) :
  Player.score (ai_move_toward d p) = Player.score p.
Proof. unfold ai_move_toward. split_ifs; reflexivity. Qed.

Lemma ai_jump_moves (i : Input) (d : R) (s : State) : moves_players s (ai_jump i d s).
Proof.
  unfold ai_jump, draw.
  split_ifs; same_fields.
Qed.

Lemma UpdateAI_moves (i : Input) (s : State) : moves_players s (UpdateAI i s).
Proof.
  unfold UpdateAI.
  set (s1 := if (aiJumpCooldown s >? 0)%Z then _ else s).
  assert (H1 : moves_players s s1).
  { subst s1. destruct (aiJumpCooldown s >? 0)%Z; same_fields. }
  destruct (negb (ballComingToward (ball s1))).
  - eapply moves_players_trans; [exact H1 |].
    same_fields. apply ai_return_to_center_score.
  - eapply moves_players_trans; [exact H1 |].
    eapply moves_players_trans; [| apply ai_jump_moves].
    same_fields. apply ai_move_toward_score.
Qed.

Lemma UpdateAI_player1 (i : Input) (s : State) : player1 (UpdateAI i s) = player1 s.
Proof.
  unfold UpdateAI, ai_jump, draw. split_ifs; reflexivity.
Qed.

Lemma UpdatePlayerControls_moves (i : Input) (s : State) :
  moves_players s (UpdatePlayerControls i s).
Proof.
  unfold UpdatePlayerControls. fields.
  destruct (gameMode s); same_fields;
    auto using controls1_score, controls2_score.
Qed.

Lemma player_physics_moves (s : State) : moves_players s (player_physics s).
Proof.
  rewrite player_physics_players. same_fields; apply settle_score.
Qed.

Lemma players_phase_moves (i : Input) (s : State) :
  moves_players s (players_phase i s).
Proof.
  unfold players_phase.
  eapply moves_players_trans; [| apply player_physics_moves].
  set (s1 := UpdatePlayerControls i _).
  assert (H1 : moves_players s s1).
  { eapply moves_players_trans; [| apply UpdatePlayerControls_moves]. same_fields. }
  destruct (gameMode s1); [| exact H1].
  eapply moves_players_trans; [exact H1 | apply UpdateAI_moves].
Qed.

Lemma players_phase_player1 (i : Input) (s : State) :
  player1 (players_phase i s) = settle (controls1 i (player1 s)).
Proof.
  unfold players_phase. rewrite player_physics_players. fields.
  unfold UpdatePlayerControls, UpdateParticles. fields.
  destruct (gameMode s) eqn:E; fields; rewrite E; [rewrite UpdateAI_player1 |]; reflexivity.
Qed.

Lemma players_phase_player2_two (i : Input) (s : State) :
  gameMode s = TWO_PLAYER ->
  player2 (players_phase i s) = settle (controls2 i (player2 s)).
Proof.
  intros Hm.
  unfold players_phase. rewrite player_physics_players. fields.
  unfold UpdatePlayerControls, UpdateParticles. fields.
  rewrite Hm. fields. rewrite Hm. reflexivity.
Qed.

Lemma ball_player_collision_eq (p : Player.t) (s : State) :
  ball_player_collision p s = set_ball s (hits (scoreDelayTimer s) p (ball s)).
Proof.
  unfold ball_player_collision, hits.
  destruct s as [gs gm pa fc p1 p2 b ps cd sv t ms cr ex mt rc]. fields.
  destruct (_ && _); reflexivity.
Qed.

Lemma score_delay_step_eq (s : State) :
  score_delay_step s =
  let t := delay_after (scoreDelayTimer s) in
  set_ball (set_scoreDelayTimer s t)
    (if (scoreDelayTimer s >? 0)%Z && (t =? 0)%Z
     then ball (ResetBall s) else ball s).
Proof.
  unfold score_delay_step, delay_after, ResetBall.
  destruct s as [gs gm pa fc p1 p2 b ps cd sv t ms cr ex mt rc]. fields.
  destruct (t >? 0)%Z; fields; [| reflexivity].
  destruct (int_decr t =? 0)%Z; reflexivity.
Qed.

Lemma ball_phase_eq (s : State) :
  ball_phase s =
  let t := delay_after (scoreDelayTimer s) in
  let b0 := if (scoreDelayTimer s >? 0)%Z && (t =? 0)%Z
            then ball (ResetBall s) else ball s in
  set_ball (set_scoreDelayTimer s t)
    (hits t (player2 s) (hits t (player1 s) (flight (framesCounter s) b0))).
Proof.
  unfold ball_phase. rewrite !ball_player_collision_eq, score_delay_step_eq.
  reflexivity.
Qed.

Lemma ball_phase_moves_ball (s : State) :
  same_rules s (ball_phase s) /\
  player1 (ball_phase s) = player1 s /\
  player2 (ball_phase s) = player2 s /\
  particles (ball_phase s) = particles s /\
  rngCalls (ball_phase s) = rngCalls s /\
  scoreDelayTimer (ball_phase s) = delay_after (scoreDelayTimer s).
Proof. rewrite ball_phase_eq. same_fields. Qed.

Lemma writes_particles_refl (s : State) : writes_particles s s.
Proof. exists (particles s), (rngCalls s). destruct s; reflexivity. Qed.

Lemma writes_particles_trans (s1 s2 s3 : State) :
  writes_particles s1 s2 -> writes_particles s2 s3 -> writes_particles s1 s3.
Proof.
  intros (ps & rc & ->) (ps' & rc' & ->). exists ps', rc'. reflexivity.
Qed.

Lemma spawn_one_writes (i : Input) (pos : Vector2) (s : State) :
  writes_particles s (spawn_one i pos s).
Proof.
  unfold spawn_one.
  destruct (claim_slot _ _); [| apply writes_particles_refl].
  eexists _, _. reflexivity.
Qed.

Lemma spawn_loop_writes (i : Input) (pos : Vector2) (n : nat) (s : State) :
  writes_particles s (spawn_loop i pos n s).
Proof.
  revert s. induction n as [| n IH]; intros s; cbn [spawn_loop].
  - apply writes_particles_refl.
  - eapply writes_particles_trans; [apply spawn_one_writes | apply IH].
Qed.

Lemma SpawnGroundParticles_writes (i : Input) (pos : Vector2) (count : Z) (s : State) :
  writes_particles s (SpawnGroundParticles i pos count s).
Proof. apply spawn_loop_writes. Qed.

Lemma enter_playing_fields (i : Input) (s : State) :
  gameState (enter_playing i s) = gameState s /\
  gameMode (enter_playing i s) = gameMode s /\
  servingSide (enter_playing i s) = servingSide s /\
  player1 (enter_playing i s) = player1 s /\
  player2 (enter_playing i s) = player2 s /\
  ball (enter_playing i s) = ball s /\
  scoreDelayTimer (enter_playing i s) = scoreDelayTimer s /\
  framesCounter (enter_playing i s) = int_incr (framesCounter s).
Proof.
  unfold enter_playing. destruct (IsKeyPressed i KEY_P); fields; tauto.
Qed.

(** The rules of the match at ground contact are those the frame began
    with, and the delay timer has taken its step. *)
Lemma at_ground_rules (i : Input) (s : State) :
  gameState (at_ground i s) = gameState s /\
  servingSide (at_ground i s) = servingSide s /\
  Player.score (player1 (at_ground i s)) = Player.score (player1 s) /\
  Player.score (player2 (at_ground i s)) = Player.score (player2 s) /\
  scoreDelayTimer (at_ground i s) = delay_after (scoreDelayTimer s).
Proof.
  unfold at_ground, before_ground.
  destruct (enter_playing_fields i s) as (e1 & e2 & e3 & e4 & e5 & e6 & e7 & e8).
  destruct (players_phase_moves i (enter_playing i s))
    as ((a1 & a2 & a3 & a4 & a5 & a6 & a7 & a8 & a9) & a10 & a11).
  destruct (ball_phase_moves_ball (players_phase i (enter_playing i s)))
    as ((b1 & b2 & b3 & b4 & b5 & b6 & b7 & b8 & b9) & b10 & b11 & b12 & b13 & b14).
  repeat split; congruence.
Qed.

(** The ground collision when the ball is at the ground and the delay is
    inactive: bounce, particles, then scoring. *)
Lemma ball_ground_collision_scores (i : Input) (g : State) :
  touches_ground (ball g) = true ->
  scoreDelayTimer g = 0%Z ->
  exists g',
    ball_ground_collision i g = resolve_score g' /\
    writes_particles (set_ball g (ground_bounce (ball g))) g'.
Proof.
  intros Ht Hd. unfold ball_ground_collision. rewrite Ht.
  cbv zeta.
  set (g1 := set_ball g (ground_bounce (ball g))).
  set (g2 := SpawnGroundParticles i _ 15 g1).
  assert (W : writes_particles g1 g2) by apply SpawnGroundParticles_writes.
  exists g2. split; [| exact W].
  assert (Hd2 : scoreDelayTimer g2 = 0%Z).
  { destruct W as (ps & rc & E). rewrite E. exact Hd. }
  rewrite Hd2. reflexivity.
Qed.

Lemma ball_ground_collision_no_score (i : Input) (g : State) :
  scoreDelayTimer g <> 0%Z ->
  writes_particles
    (if touches_ground (ball g) then set_ball g (ground_bounce (ball g)) else g)
    (ball_ground_collision i g).
Proof.
  intros Hd. unfold ball_ground_collision.
  destruct (touches_ground (ball g)); [| apply writes_particles_refl].
  cbv zeta.
  set (g1 := set_ball g (ground_bounce (ball g))).
  set (g2 := SpawnGroundParticles i _ 15 g1).
  assert (W : writes_particles g1 g2) by apply SpawnGroundParticles_writes.
  destruct (scoreDelayTimer g2 =? 0)%Z eqn:E; [| exact W].
  exfalso. apply Hd. apply Z.eqb_eq in E.
  destruct W as (ps & rc & E2). rewrite E2 in E. exact E.
Qed.

Lemma ball_ground_collision_airborne (i : Input) (g : State) :
  touches_ground (ball g) = false -> ball_ground_collision i g = g.
Proof. intros H. unfold ball_ground_collision. rewrite H. reflexivity. Qed.

(** The two outcomes of "Determine which side scored". *)
Lemma resolve_score_left (s : State) :
  vec_x (Ball.position (ball s)) < IZR NET_X ->
  Player.score (player2 (resolve_score s)) = int_incr (Player.score (player2 s)) /\
  Player.score (player1 (resolve_score s)) = Player.score (player1 s) /\
  servingSide (resolve_score s) = RIGHT.
Proof.
  intros H. unfold resolve_score. rewrite (Rltb_true _ _ H). fields.
  destruct (_ || _); fields; auto.
Qed.

Lemma resolve_score_right (s : State) :
  IZR NET_X <= vec_x (Ball.position (ball s)) ->
  Player.score (player1 (resolve_score s)) = int_incr (Player.score (player1 s)) /\
  Player.score (player2 (resolve_score s)) = Player.score (player2 s) /\
  servingSide (resolve_score s) = LEFT.
Proof.
  intros H. unfold resolve_score. rewrite (Rltb_false _ _ H). fields.
  destruct (_ || _); fields; auto.
Qed.

Lemma ground_bounce_x (b : Ball.t) :
  vec_x (Ball.position (ground_bounce b)) = vec_x (Ball.position b).
Proof. reflexivity. Qed.

(** What the ground collision does to the scores and the serve, by the
    side of the centerline the ball is on. *)
Lemma ground_scoring (i : Input) (g : State) :
  touches_ground (ball g) = true ->
  scoreDelayTimer g = 0%Z ->
  let x := vec_x (Ball.position (ball g)) in
  let s' := ball_ground_collision i g in
  (x < IZR NET_X ->
     Player.score (player2 s') = int_incr (Player.score (player2 g)) /\
     Player.score (player1 s') = Player.score (player1 g) /\
     servingSide s' = RIGHT) /\
  (IZR NET_X <= x ->
     Player.score (player1 s') = int_incr (Player.score (player1 g)) /\
     Player.score (player2 s') = Player.score (player2 g) /\
     servingSide s' = LEFT).
Proof.
  intros Ht Hd x s'. subst s' x.
  destruct (ball_ground_collision_scores i _ Ht Hd) as (g' & E & (ps & rc & W)).
  rewrite E. clear E.
  assert (Hx : vec_x (Ball.position (ball g')) = vec_x (Ball.position (ball g)))
    by (rewrite W; reflexivity).
  assert (H1 : Player.score (player1 g') = Player.score (player1 g))
    by (rewrite W; reflexivity).
  assert (H2 : Player.score (player2 g') = Player.score (player2 g))
    by (rewrite W; reflexivity).
  clear W. rewrite <- Hx, <- H1, <- H2.
  split; intros Hside.
  - apply (resolve_score_left g' Hside).
  - apply (resolve_score_right g' Hside).
Qed.

(** The same, for a whole frame of [UpdateGame]. *)
Lemma scoring_frame (i : Input) (s : State) :
  runs_physics i s ->
  touches_ground (ball (at_ground i s)) = true ->
  scoreDelayTimer (at_ground i s) = 0%Z ->
  let x := vec_x (Ball.position (ball (at_ground i s))) in
  let s' := UpdateGame i s in
  (x < IZR NET_X ->
     Player.score (player2 s') = int_incr (Player.score (player2 s)) /\
     Player.score (player1 s') = Player.score (player1 s) /\
     servingSide s' = RIGHT) /\
  (IZR NET_X <= x ->
     Player.score (player1 s') = int_incr (Player.score (player1 s)) /\
     Player.score (player2 s') = Player.score (player2 s) /\
     servingSide s' = LEFT).
Proof.
  intros Hr Ht Hd. cbv zeta.
  rewrite (UpdateGame_playing i s Hr).
  destruct (at_ground_rules i s) as (_ & _ & r3 & r4 & _).
  rewrite <- r3, <- r4.
  exact (ground_scoring i (at_ground i s) Ht Hd).
Qed.

(* ------------------------------------------------------------------ *)
(** ** Running a frame on a concrete state *)

Lemma ResetBall_ball (s : State) :
  ball (ResetBall s) =
  Ball.mk
    (mkVector2 (match servingSide s with LEFT => 256 | RIGHT => 768 end) 100)
    vzero (Ball.radius (ball s)) (Ball.trail (ball s)) 0 0.
Proof.
  unfold ResetBall. fields. destruct (servingSide s); reflexivity.
Qed.

(** The ball at ground contact, in terms of the globals at frame start. *)
Lemma at_ground_ball (i : Input) (s : State) :
  ball (at_ground i s) =
  let t := delay_after (scoreDelayTimer s) in
  let b0 := if (scoreDelayTimer s >? 0)%Z && (t =? 0)%Z
            then ball (ResetBall s) else ball s in
  let s1 := players_phase i (enter_playing i s) in
  hits t (player2 s1) (hits t (player1 s1)
    (flight (int_incr (framesCounter s)) b0)).
Proof.
  unfold at_ground, before_ground. rewrite ball_phase_eq. fields.
  destruct (enter_playing_fields i s) as (e1 & e2 & e3 & e4 & e5 & e6 & e7 & e8).
  destruct (players_phase_moves i (enter_playing i s))
    as ((a1 & a2 & a3 & a4 & a5 & a6 & a7 & a8 & a9) & a10 & a11).
  rewrite a11, e7, a4, e8, a10, e6, !ResetBall_ball, a5, e3, a10, e6.
  reflexivity.
Qed.

(** Settle the absolute values and square roots of closed expressions. *)
Ltac rabs :=
  repeat match goal with
  | |- context [sqrtf (?a * ?a)] => rewrite (sqrtf_sq a)
  | |- context [fabsf ?a] => unfold fabsf
  | |- context [Rabs ?a] =>
      first [ rewrite (Rabs_pos_eq a) by lra | rewrite (Rabs_left a) by lra ]
  end.

(** Settle the integer tests on closed expressions. *)
Ltac zcompare :=
  repeat match goal with
  | |- context [(?a =? ?b)%Z] =>
      let v := eval vm_compute in (a =? b)%Z in
      lazymatch v with
      | true => change (a =? b)%Z with true
      | false => change (a =? b)%Z with false
      end
  | |- context [(?a >? ?b)%Z] =>
      let v := eval vm_compute in (a >? b)%Z in
      lazymatch v with
      | true => change (a >? b)%Z with true
      | false => change (a >? b)%Z with false
      end
  | |- context [(?a >=? ?b)%Z] =>
      let v := eval vm_compute in (a >=? b)%Z in
      lazymatch v with
      | true => change (a >=? b)%Z with true
      | false => change (a >=? b)%Z with false
      end
  | |- context [(?a <? ?b)%Z] =>
      let v := eval vm_compute in (a <? b)%Z in
      lazymatch v with
      | true => change (a <? b)%Z with true
      | false => change (a <? b)%Z with false
      end
  end.

(** Evaluate, step by step, a goal about concrete globals. *)
Ltac run_frame :=
  repeat (fields; consts; unfold delay_after; rabs; zcompare; rcompare).

(** Two records that differ in the way their numbers are written. *)
Ltac same_numbers :=
  setters; repeat (f_equal; try reflexivity; try lra).

(** Evaluate one call of [f] whose arguments are already values. *)
Ltac run1 f :=
  match goal with
  | |- context [f ?a] =>
      let H := fresh in
      eassert (H : f a = _); [unfold f; run_frame; setters; reflexivity | rewrite H; clear H]
  end.

Ltac run2 f :=
  match goal with
  | |- context [f ?a ?b] =>
      let H := fresh in
      eassert (H : f a b = _); [unfold f; run_frame; setters; reflexivity | rewrite H; clear H]
  end.

Lemma no_keys_runs (x1 x2 : R) (pos vel : Vector2) (a b d : Z) (sv : PlayerSide) :
  runs_physics no_keys (court x1 x2 pos vel a b d sv).
Proof. repeat split. Qed.

(** With no key held, players standing inside their halves stay put. *)
Lemma court_players (x1 x2 : R) (pos vel : Vector2) (a b d : Z) (sv : PlayerSide) :
  50 <= x1 <= 457 -> 567 <= x2 <= 974 ->
  let s1 := players_phase no_keys (enter_playing no_keys (court x1 x2 pos vel a b d sv)) in
  player1 s1 = Player.mk (mkVector2 x1 668) vzero 50 LEFT BLUE a true /\
  player2 s1 = Player.mk (mkVector2 x2 668) vzero 50 RIGHT RED b true.
Proof.
  intros H1 H2.
  cbv zeta. rewrite players_phase_player1, players_phase_player2_two by reflexivity.
  unfold enter_playing, court, no_keys, vzero. fields.
  run2 controls1. run2 controls2. run1 settle. run1 settle.
  split; same_numbers.
Qed.

(** The ball of such a match at ground contact. *)
Lemma court_at_ground (x1 x2 : R) (pos vel : Vector2) (a b d : Z) (sv : PlayerSide) :
  50 <= x1 <= 457 -> 567 <= x2 <= 974 ->
  let s := court x1 x2 pos vel a b d sv in
  let t := delay_after d in
  ball (at_ground no_keys s) =
  hits t (Player.mk (mkVector2 x2 668) vzero 50 RIGHT RED b true)
    (hits t (Player.mk (mkVector2 x1 668) vzero 50 LEFT BLUE a true)
       (flight 1 (if (d >? 0)%Z && (t =? 0)%Z
                  then ball (ResetBall s) else ball s))).
Proof.
  intros H1 H2. cbv zeta. rewrite at_ground_ball. cbv zeta.
  destruct (court_players x1 x2 pos vel a b d sv H1 H2) as (-> & ->).
  reflexivity.
Qed.

(** Evaluate the flight of a concrete ball, phase by phase. *)
Ltac run_flight :=
  unfold flight;
  run1 ball_integrate;
  match goal with
  | |- context [ball_trail_step ?f ?b] =>
      let H := fresh in
      eassert (H : ball_trail_step f b = _);
      [ unfold ball_trail_step, UpdateBallTrail, TRAIL_LENGTH; run_frame;
        cbn [firstn repeat]; setters; reflexivity
      | rewrite H; clear H ]
  end;
  run1 ball_wall_collision;
  match goal with
  | |- context [ball_net_collision ?b] =>
      let H := fresh in
      eassert (H : ball_net_collision b = _);
      [ unfold ball_net_collision, CheckCollisionCircleRec, netRect; run_frame;
        setters; reflexivity
      | rewrite H; clear H ]
  end.

(** Evaluate the player collision tests on concrete values. *)
Ltac run_hits :=
  repeat match goal with
  | |- context [hits ?t ?p ?b] =>
      let H := fresh in
      eassert (H : hits t p b = _);
      [ unfold hits, CheckCollisionCircles; run_frame; setters; reflexivity
      | rewrite H; clear H ]
  end.

Lemma landing_ball (a b : Z) :
  ball (at_ground no_keys (landing a b)) =
  Ball.mk (mkVector2 400 690) (mkVector2 0 10.4) 35
    (repeat vzero TRAIL_LENGTH) 0 0.
Proof.
  unfold landing. rewrite court_at_ground by lra.
  unfold court, vzero. run_frame. run_flight. run_hits.
  same_numbers.
Qed.

Lemma landing_left_ball :
  ball (at_ground no_keys landing_left) =
  Ball.mk (mkVector2 400 690) (mkVector2 0 10.4) 35
    (repeat vzero TRAIL_LENGTH) 0 0.
Proof. apply landing_ball. Qed.

(* ------------------------------------------------------------------ *)
(** ** Scoring at ground contact *)

(** C2.  In a PLAYING frame that runs the physics, when the ball's bottom
    edge has reached the ground line and the post-score delay is inactive:
    if the ball is left of the net centerline, the right player's score
    goes up by exactly 1, the serve passes to RIGHT and the left player's
    score is unchanged; if it is right of the centerline, the left player's
    score goes up by exactly 1, the serve passes to LEFT and the right
    player's score is unchanged.  (The scores are C ints below INT_MAX.) *)
Theorem ground_contact_scores_for_opposite_side (i : Input) (s : State) :
  runs_physics i s ->
  touches_ground (ball (at_ground i s)) = true ->
  scoreDelayTimer (at_ground i s) = 0%Z ->
  (INT_MIN <= Player.score (player1 s) < INT_MAX)%Z ->
  (INT_MIN <= Player.score (player2 s) < INT_MAX)%Z ->
  let x := vec_x (Ball.position (ball (at_ground i s))) in
  let s' := UpdateGame i s in
  (x < IZR NET_X ->
     Player.score (player2 s') = (Player.score (player2 s) + 1)%Z /\
     servingSide s' = RIGHT /\
     Player.score (player1 s') = Player.score (player1 s)) /\
  (x > IZR NET_X ->
     Player.score (player1 s') = (Player.score (player1 s) + 1)%Z /\
     servingSide s' = LEFT /\
     Player.score (player2 s') = Player.score (player2 s)).
Proof.
  intros Hr Ht Hd H1 H2.
  destruct (scoring_frame i s Hr Ht Hd) as (L & R).
  cbv zeta. split; intros Hx.
  - destruct (L Hx) as (q1 & q2 & q3).
    rewrite q1, q2, q3, (int_incr_small _ H2). auto.
  - destruct (R (Rlt_le _ _ Hx)) as (q1 & q2 & q3).
    rewrite q1, q2, q3, (int_incr_small _ H1). auto.
Qed.

Lemma landing_hypotheses (a b : Z) :
  runs_physics no_keys (landing a b) /\
  touches_ground (ball (at_ground no_keys (landing a b))) = true /\
  scoreDelayTimer (at_ground no_keys (landing a b)) = 0%Z /\
  vec_x (Ball.position (ball (at_ground no_keys (landing a b)))) < IZR NET_X.
Proof.
  split; [apply no_keys_runs |].
  rewrite landing_ball.
  destruct (at_ground_rules no_keys (landing a b)) as (_ & _ & _ & _ & ->).
  unfold touches_ground. run_frame. repeat split. lra.
Qed.

Lemma landing_left_hypotheses :
  runs_physics no_keys landing_left /\
  touches_ground (ball (at_ground no_keys landing_left)) = true /\
  scoreDelayTimer (at_ground no_keys landing_left) = 0%Z /\
  vec_x (Ball.position (ball (at_ground no_keys landing_left))) < IZR NET_X.
Proof. apply landing_hypotheses. Qed.

Lemma ground_contact_scores_for_opposite_side_witness :
  Player.score (player2 (UpdateGame no_keys landing_left)) = 1%Z /\
  servingSide (UpdateGame no_keys landing_left) = RIGHT /\
  Player.score (player1 (UpdateGame no_keys landing_left)) = 0%Z.
Proof.
  destruct landing_left_hypotheses as (Hr & Ht & Hd & Hx).
  apply (ground_contact_scores_for_opposite_side no_keys landing_left Hr Ht Hd).
  - unfold landing_left, landing, court, INT_MIN, INT_MAX. fields. lia.
  - unfold landing_left, landing, court, INT_MIN, INT_MAX. fields. lia.
  - exact Hx.
Defined.

Lemma hit_ball_position (p : Player.t) (b : Ball.t) :
  Ball.position (hit_ball p b) =
  mkVector2
    (vec_x (Player.position p) + vec_x (collision_normal p b) * (Player.radius p + Ball.radius b))
    (vec_y (Player.position p) + vec_y (collision_normal p b) * (Player.radius p + Ball.radius b)).
Proof. reflexivity. Qed.

Lemma hit_ball_radius (p : Player.t) (b : Ball.t) :
  Ball.radius (hit_ball p b) = Ball.radius b.
Proof. reflexivity. Qed.

(** The square root of a closed expression whose value [v] is known. *)
Ltac rsqrt v :=
  match goal with
  | |- context [sqrtf ?e] =>
      replace (sqrtf e) with v
        by (unfold sqrtf; replace e with (v * v) by lra;
            symmetry; apply sqrt_square; lra)
  end.

Lemma landing_centre_position :
  Ball.position (ball (at_ground no_keys landing_centre)) = mkVector2 512 708 /\
  Ball.radius (ball (at_ground no_keys landing_centre)) = 35.
Proof.
  unfold landing_centre. rewrite court_at_ground by lra.
  unfold court, vzero. run_frame. run_flight.
  set (b := Ball.mk _ _ _ _ _ _).
  set (p1 := Player.mk (mkVector2 437 668) _ _ _ _ _ _).
  assert (H1 : hits 0 p1 b = hit_ball p1 b).
  { unfold hits, CheckCollisionCircles, b, p1. run_frame. reflexivity. }
  rewrite H1.
  assert (Hn : collision_normal p1 b = mkVector2 (15 / 17) (8 / 17)).
  { unfold collision_normal, b, p1. fields. rsqrt 17. run_frame.
    same_numbers. }
  assert (Hp : Ball.position (hit_ball p1 b) = mkVector2 512 708).
  { rewrite hit_ball_position, Hn. unfold b, p1. fields. same_numbers. }
  unfold hits. rewrite hit_ball_radius, Hp.
  unfold CheckCollisionCircles. replace (Ball.radius b) with 35 by reflexivity.
  run_frame. rewrite Hp, hit_ball_radius. split; reflexivity.
Qed.

(** C10.  In a PLAYING frame that runs the physics, when the ball's bottom
    edge has reached the ground with its centre exactly on the net
    centerline ([x = NET_X]) and the post-score delay inactive, the left
    player's score goes up by 1, the serve passes to LEFT, and the right
    player's score is unchanged. *)
Theorem centerline_landing_scores_for_left (i : Input) (s : State) :
  runs_physics i s ->
  touches_ground (ball (at_ground i s)) = true ->
  scoreDelayTimer (at_ground i s) = 0%Z ->
  (INT_MIN <= Player.score (player1 s) < INT_MAX)%Z ->
  vec_x (Ball.position (ball (at_ground i s))) = IZR NET_X ->
  let s' := UpdateGame i s in
  Player.score (player1 s') = (Player.score (player1 s) + 1)%Z /\
  servingSide s' = LEFT /\
  Player.score (player2 s') = Player.score (player2 s).
Proof.
  intros Hr Ht Hd H1 Hx.
  destruct (scoring_frame i s Hr Ht Hd) as (_ & R).
  cbv zeta in *. destruct R as (q1 & q2 & q3); [rewrite Hx; lra |].
  rewrite q1, q2, q3, (int_incr_small _ H1). auto.
Qed.

Lemma centerline_landing_scores_for_left_witness :
  Player.score (player1 (UpdateGame no_keys landing_centre)) = 1%Z /\
  servingSide (UpdateGame no_keys landing_centre) = LEFT /\
  Player.score (player2 (UpdateGame no_keys landing_centre)) = 0%Z.
Proof.
  destruct landing_centre_position as (Hp & Hrad).
  apply (centerline_landing_scores_for_left no_keys landing_centre).
  - apply no_keys_runs.
  - unfold touches_ground. rewrite Hp, Hrad. run_frame. reflexivity.
  - destruct (at_ground_rules no_keys landing_centre) as (_ & _ & _ & _ & ->).
    reflexivity.
  - unfold landing_centre, court, INT_MIN, INT_MAX. fields. lia.
  - rewrite Hp. fields. rewrite IZR_NET_X. reflexivity.
Defined.

(* ------------------------------------------------------------------ *)
(** ** Win detection *)

(** What "Determine which side scored" and "Check win condition" do. *)
Lemma resolve_score_cases (s : State) :
  let s' := resolve_score s in
  ((score1 s' = int_incr (score1 s) /\ score2 s' = score2 s) \/
   (score2 s' = int_incr (score2 s) /\ score1 s' = score1 s)) /\
  gameState s' =
    (if (score1 s' >=? WIN_SCORE)%Z || (score2 s' >=? WIN_SCORE)%Z
     then GAMEOVER else gameState s).
Proof.
  unfold resolve_score, score1, score2.
  destruct (_ <? _); fields;
    (destruct (_ || _) eqn:E; fields; rewrite E; (split; [tauto | reflexivity])).
Qed.

(** A frame that runs the physics either leaves the scores and the game
    state alone, or scores once. *)
Lemma playing_frame_cases (i : Input) (s : State) :
  runs_physics i s ->
  let s' := UpdateGame i s in
  (score1 s' = score1 s /\ score2 s' = score2 s /\ gameState s' = gameState s) \/
  (((score1 s' = int_incr (score1 s) /\ score2 s' = score2 s) \/
    (score2 s' = int_incr (score2 s) /\ score1 s' = score1 s)) /\
   gameState s' =
     (if (score1 s' >=? WIN_SCORE)%Z || (score2 s' >=? WIN_SCORE)%Z
      then GAMEOVER else gameState s)).
Proof.
  intros Hr. cbv zeta. rewrite (UpdateGame_playing i s Hr).
  destruct (at_ground_rules i s) as (r1 & _ & r3 & r4 & _).
  unfold score1, score2 in *. rewrite <- r1, <- r3, <- r4.
  generalize (at_ground i s). intros g.
  destruct (touches_ground (ball g)) eqn:Ht.
  - destruct (Z.eq_dec (scoreDelayTimer g) 0) as [Hd | Hd].
    + right.
      destruct (ball_ground_collision_scores i g Ht Hd) as (g' & E & (ps & rc & W)).
      rewrite E.
      replace (Player.score (player1 g)) with (score1 g')
        by (rewrite W; reflexivity).
      replace (Player.score (player2 g)) with (score2 g')
        by (rewrite W; reflexivity).
      replace (gameState g) with (gameState g') by (rewrite W; reflexivity).
      apply resolve_score_cases.
    + left. pose proof (ball_ground_collision_no_score i g Hd) as (ps & rc & W).
      rewrite Ht in W. rewrite W. fields. auto.
  - left. rewrite (ball_ground_collision_airborne i g Ht). auto.
Qed.

(** A PLAYING frame that does not run the physics (Escape, or paused)
    leaves the scores alone and does not end the match. *)
Lemma idle_playing_frame (i : Input) (s : State) :
  gameState s = PLAYING ->
  ~ runs_physics i s ->
  let s' := UpdateGame i s in
  score1 s' = score1 s /\ score2 s' = score2 s /\ gameState s' <> GAMEOVER.
Proof.
  intros Hg Hn. unfold runs_physics, enter_playing in Hn.
  unfold UpdateGame, score1, score2. fields. rewrite Hg.
  unfold update_playing. fields.
  destruct (IsKeyPressed i KEY_ESCAPE) eqn:He.
  - destruct (IsKeyPressed i KEY_P); fields; repeat split; discriminate.
  - destruct (IsKeyPressed i KEY_P); fields; fields_in Hn;
      destruct (pause s) eqn:Hp; fields; fields_in Hn;
      try (exfalso; apply Hn; auto; fail);
      rewrite ?Hg; repeat split; discriminate.
Qed.

Lemma runs_physics_dec (i : Input) (s : State) :
  runs_physics i s \/ ~ runs_physics i s.
Proof.
  unfold runs_physics.
  destruct (gameState s); try (right; intros (H & _); discriminate).
  destruct (IsKeyPressed i KEY_ESCAPE); [right; intros (_ & H & _); discriminate |].
  destruct (pause (enter_playing i s)); [right; intros (_ & _ & H); discriminate |].
  left. auto.
Qed.

(** The other three screens never raise a score. *)
Lemma menu_frame_scores (i : Input) (s : State) :
  gameState s = MENU ->
  let s' := UpdateGame i s in
  ((score1 s' = score1 s /\ score2 s' = score2 s) \/
   (score1 s' = 0 /\ score2 s' = 0)%Z) /\
  gameState s' <> GAMEOVER /\
  (gameState s' = PLAYING -> (score1 s' = 0 /\ score2 s' = 0)%Z).
Proof.
  intros Hg. unfold UpdateGame, score1, score2. fields. rewrite Hg.
  unfold update_menu, ResetBall. fields.
  split_ifs; rewrite ?Hg; repeat split; try discriminate; auto.
Qed.


Lemma credits_frame_scores (i : Input) (s : State) :
  gameState s = CREDITS ->
  let s' := UpdateGame i s in
  score1 s' = score1 s /\ score2 s' = score2 s /\
  (gameState s' = CREDITS \/ gameState s' = MENU).
Proof.
  intros Hg. unfold UpdateGame, score1, score2. fields. rewrite Hg.
  unfold update_credits. fields.
  split_ifs; auto.
Qed.


Lemma int_incr_score (z : Z) : (0 <= z < WIN_SCORE)%Z -> int_incr z = (z + 1)%Z.
Proof.
  intros H. apply int_incr_small. unfold INT_MIN, INT_MAX, WIN_SCORE in *. lia.
Qed.





(** A match point played out: player 2, at 9, scores; the same frame ends
    the match at 10 and starts no delay. *)
Lemma match_point_ends_match :
  let s' := UpdateGame no_keys match_point in
  score2 s' = 10%Z /\ score1 s' = 0%Z /\ gameState s' = GAMEOVER.
Proof.
  cbv zeta. destruct (landing_hypotheses 0 9) as (Hr & Ht & Hd & Hx).
  fold match_point in *.
  destruct (scoring_frame no_keys match_point Hr Ht Hd) as (L & _).
  destruct (L Hx) as (q1 & q2 & _).
  change (int_incr (Player.score (player2 match_point))) with 10%Z in q1.
  change (Player.score (player1 match_point)) with 0%Z in q2.
  destruct (playing_frame_cases no_keys match_point Hr) as [(_ & E & _) | (_ & Hw)].
  - unfold score2 in E. rewrite q1 in E. discriminate E.
  - unfold score1, score2 in *. rewrite q1, q2 in Hw. rewrite Hw. auto.
Qed.

(* ------------------------------------------------------------------ *)
(** ** Side containment of the players *)

(** The ground collision moves no player. *)
Lemma ball_ground_collision_players (i : Input) (g : State) :
  let s' := ball_ground_collision i g in
  Player.position (player1 s') = Player.position (player1 g) /\
  Player.radius (player1 s') = Player.radius (player1 g) /\
  Player.position (player2 s') = Player.position (player2 g) /\
  Player.radius (player2 s') = Player.radius (player2 g).
Proof.
  cbv zeta. unfold ball_ground_collision.
  destruct (touches_ground (ball g)); [| tauto].
  cbv zeta.
  set (g1 := set_ball g (ground_bounce (ball g))).
  set (g2 := SpawnGroundParticles i _ 15 g1).
  assert (W : writes_particles g1 g2) by apply SpawnGroundParticles_writes.
  clearbody g2. destruct W as (ps & rc & ->). subst g1. fields.
  destruct (scoreDelayTimer g =? 0)%Z; [| fields; tauto].
  unfold resolve_score. fields. split_ifs; tauto.
Qed.

(** Where player 1 is at the end of a frame that runs the physics. *)
Lemma UpdateGame_player1_position (i : Input) (s : State) :
  runs_physics i s ->
  Player.position (player1 (UpdateGame i s)) =
    Player.position (settle (controls1 i (player1 s))) /\
  Player.radius (player1 (UpdateGame i s)) =
    Player.radius (settle (controls1 i (player1 s))).
Proof.
  intros Hr. rewrite (UpdateGame_playing i s Hr).
  destruct (ball_ground_collision_players i (at_ground i s)) as (-> & -> & _).
  unfold at_ground, before_ground.
  destruct (ball_phase_moves_ball (players_phase i (enter_playing i s)))
    as (_ & -> & _).
  rewrite players_phase_player1.
  destruct (enter_playing_fields i s) as (_ & _ & _ & -> & _).
  split; reflexivity.
Qed.

(** Where player 2 is at the end of such a frame of a two-player match. *)
Lemma UpdateGame_player2_position (i : Input) (s : State) :
  runs_physics i s ->
  gameMode s = TWO_PLAYER ->
  Player.position (player2 (UpdateGame i s)) =
    Player.position (settle (controls2 i (player2 s))) /\
  Player.radius (player2 (UpdateGame i s)) =
    Player.radius (settle (controls2 i (player2 s))).
Proof.
  intros Hr Hm. rewrite (UpdateGame_playing i s Hr).
  destruct (ball_ground_collision_players i (at_ground i s)) as (_ & _ & -> & ->).
  unfold at_ground, before_ground.
  destruct (ball_phase_moves_ball (players_phase i (enter_playing i s)))
    as (_ & _ & -> & _).
  destruct (enter_playing_fields i s) as (_ & Hm' & _ & _ & E & _).
  rewrite players_phase_player2_two by congruence.
  rewrite E. split; reflexivity.
Qed.

(** C1 (the code at the failing inputs).  Player 1 stands at the left
    screen edge and A is held: [UpdatePlayerControls] moves him to 46 and
    clamps him back to 50, and the physics step then adds the velocity -4
    once more, so the frame ends with his centre at 46, 4 units outside
    [radius, net edge - radius].  With D held at the net the frame ends at
    461, and his right edge (511) is past the net's near edge (507). *)
Theorem player1_ends_frame_outside_bounds :
  (let s' := UpdateGame hold_A at_left_wall in
   vec_x (Player.position (player1 s')) = 46 /\
   vec_x (Player.position (player1 s')) < Player.radius (player1 s')) /\
  (let s' := UpdateGame hold_D at_net in
   vec_x (Player.position (player1 s')) = 461 /\
   vec_x (Player.position (player1 s')) + Player.radius (player1 s')
     > IZR NET_X - NET_WIDTH / 2).
Proof.
  split; cbv zeta.
  - destruct (UpdateGame_player1_position hold_A at_left_wall) as (-> & ->);
      [repeat split |].
    unfold at_left_wall, court, hold_A, vzero. fields.
    run2 controls1. run1 settle. run_frame. split; lra.
  - destruct (UpdateGame_player1_position hold_D at_net) as (-> & ->);
      [repeat split |].
    unfold at_net, court, hold_D, vzero. fields.
    run2 controls1. run1 settle. run_frame. split; lra.
Qed.

(** Turn the recorded outcomes of real comparisons into inequalities. *)
Ltac rbool_hyps :=
  unfold Rgtb, Rgeb in *;
  repeat match goal with
  | H : (_ <? _) = true |- _ => apply Rltb_spec in H
  | H : (_ <? _) = false |- _ => apply Rltb_nspec in H
  | H : (_ <=? _) = true |- _ => apply Rleb_spec in H
  | H : (_ <=? _) = false |- _ => apply Rleb_nspec in H
  end.

(** [UpdatePlayerControls] does keep player 1 within his bounds, and
    publishes a velocity of at most [PLAYER_MOVE_SPEED] either way. *)
Lemma controls1_clamped (i : Input) (p : Player.t) :
  Player.radius p = 50 ->
  50 <= vec_x (Player.position (controls1 i p)) <= 457 /\
  -4 <= vec_x (Player.velocity (controls1 i p)) <= 4.
Proof.
  destruct p as [[px py] [vx vy] r sd c sc og]. fields. intros ->.
  unfold controls1. consts.
  split_ifs; rbool_hyps; lra.
Qed.

Lemma settle_x (p : Player.t) :
  vec_x (Player.position (settle p))
  = vec_x (Player.position p) + vec_x (Player.velocity p).
Proof. unfold settle. split_ifs; reflexivity. Qed.

(** How far outside: the physics step then moves the clamped player by
    that velocity, so player 1 ends a frame within 4 units of his bounds. *)
Lemma player1_frame_bounds (i : Input) (s : State) :
  runs_physics i s ->
  Player.radius (player1 s) = 50 ->
  46 <= vec_x (Player.position (player1 (UpdateGame i s))) <= 461.
Proof.
  intros Hr Hrad.
  destruct (UpdateGame_player1_position i s Hr) as (-> & _).
  rewrite settle_x.
  destruct (controls1_clamped i (player1 s) Hrad) as (Hx & Hv). lra.
Qed.

(** How the left screen edge is reached: holding A, player 1 moves 8
    units per frame, 4 in his controls and 4 more in the physics step. *)
Lemma walk_left_step (x : R) (p : Player.t) :
  54 <= x <= 457 ->
  Player.position p = mkVector2 x 668 ->
  vec_y (Player.velocity p) = 0 ->
  Player.radius p = 50 ->
  let p' := settle (controls1 hold_A p) in
  Player.position p' = mkVector2 (x - 8) 668 /\
  vec_y (Player.velocity p') = 0 /\
  Player.radius p' = 50.
Proof.
  intros Hx. destruct p as [pos [vx vy] r sd c sc og]. fields.
  intros -> -> ->. cbv zeta. unfold hold_A.
  run2 controls1. run1 settle. fields. repeat split; same_numbers.
Qed.

Lemma walk_left (n : nat) (x : R) (p : Player.t) :
  46 + 8 * INR n <= x <= 457 ->
  Player.position p = mkVector2 x 668 ->
  vec_y (Player.velocity p) = 0 ->
  Player.radius p = 50 ->
  Player.position (walk hold_A n p) = mkVector2 (x - 8 * INR n) 668.
Proof.
  revert x p. induction n as [| n IH]; intros x p Hx Hp Hv Hr.
  - cbn [walk INR]. rewrite Hp. f_equal. lra.
  - cbn [walk]. rewrite S_INR in *. pose proof (pos_INR n) as Hn.
    destruct (walk_left_step x p) as (a1 & a2 & a3); try assumption; [lra |].
    rewrite (IH (x - 8)); try assumption; [f_equal; lra | lra].
Qed.

(** From his spawn point player 1 is outside the bounds, at 48, after 26
    frames. *)
Lemma walk_left_from_spawn :
  Player.position (walk hold_A 26 (player1 initial_state)) = mkVector2 48 668.
Proof.
  rewrite (walk_left 26 256).
  - f_equal. change (INR 26) with (IZR (Z.of_nat 26)) || rewrite INR_IZR_INZ.
    cbn [Z.of_nat Pos.of_succ_nat Pos.succ]. lra.
  - rewrite INR_IZR_INZ. cbn [Z.of_nat Pos.of_succ_nat Pos.succ]. lra.
  - change (Player.position (player1 initial_state))
      with (mkVector2 (IZR (SCREEN_WIDTH ÷ 4)) (IZR GROUND_LEVEL - PLAYER_RADIUS)).
    consts. f_equal. lra.
  - reflexivity.
  - reflexivity.
Qed.

(* ------------------------------------------------------------------ *)
(** ** Player-ball collision: reflection and speed clamp *)


Lemma norm_sqr (v : Vector2) :
  norm v * norm v = vec_x v * vec_x v + vec_y v * vec_y v.
Proof. unfold norm. apply sqrt_sqrt. nra. Qed.

Lemma direction_unit (v : Vector2) : 0 < norm v -> norm (direction v) = 1.
Proof.
  intros H. unfold direction. unfold norm at 1. fields.
  replace (vec_x v / norm v * (vec_x v / norm v)
           + vec_y v / norm v * (vec_y v / norm v)) with 1.
  - apply sqrt_1.
  - pose proof (norm_sqr v) as E. field_simplify_eq; [| lra]. lra.
Qed.

Lemma collision_normal_direction (p : Player.t) (b : Ball.t) :
  0 < norm (centre_to_centre p b) ->
  collision_normal p b = direction (centre_to_centre p b).
Proof.
  intros H. unfold collision_normal, direction, centre_to_centre, norm, sqrtf in *.
  fields. fields_in H. unfold Rgtb. rewrite (Rltb_true _ _ H). reflexivity.
Qed.

Lemma reflect_mirror (v n : Vector2) :
  reflect v n =
  mkVector2 (vec_x v - 2 * dot v n * vec_x n) (vec_y v - 2 * dot v n * vec_y n).
Proof. reflexivity. Qed.

Lemma reflect_keeps_norm (v n : Vector2) : norm n = 1 -> norm (reflect v n) = norm v.
Proof.
  intros H. pose proof (norm_sqr n) as E. rewrite H in E.
  unfold norm at 1 2. f_equal. unfold reflect. fields.
  set (d := vec_x v * vec_x n + vec_y v * vec_y n).
  transitivity (vec_x v * vec_x v + vec_y v * vec_y v
                + 4 * d * d * (vec_x n * vec_x n + vec_y n * vec_y n - 1)).
  - unfold d. ring.
  - rewrite <- E. ring.
Qed.

(** C4.  For a player-ball collision whose contact normal is not
    degenerate (the centres are a nonzero distance apart), the normal [n]
    the code uses is the unit vector from the player's centre to the
    ball's centre, and the ball's velocity after the reflection and before
    the 5% damping is [v - 2 (v . n) n]; the damping, the player's
    influence and the clamp are applied to that vector. *)
Theorem reflection_law (p : Player.t) (b : Ball.t) :
  0 < norm (centre_to_centre p b) ->
  let n := direction (centre_to_centre p b) in
  let v := Ball.velocity b in
  let v' := reflect v (collision_normal p b) in
  collision_normal p b = n /\
  norm n = 1 /\
  v' = mkVector2 (vec_x v - 2 * dot v n * vec_x n)
                 (vec_y v - 2 * dot v n * vec_y n) /\
  norm v' = norm v /\
  Ball.velocity (hit_ball p b) = clamp_speed (transfer p v').
Proof.
  intros H. cbv zeta.
  rewrite (collision_normal_direction p b H).
  pose proof (direction_unit _ H) as Hu.
  repeat split.
  - exact Hu.
  - apply reflect_keeps_norm, Hu.
  - unfold hit_ball. fields. rewrite (collision_normal_direction p b H). reflexivity.
Qed.

(** The ball at (3, 4) from a player at the origin, moving down at 10. *)
Lemma reflection_law_witness :
  reflect (mkVector2 0 10)
    (collision_normal
       (Player.mk vzero vzero 50 LEFT BLUE 0 true)
       (Ball.mk (mkVector2 3 4) (mkVector2 0 10) 35 [] 0 0))
  = mkVector2 (0 - 2 * (0 * (3 / 5) + 10 * (4 / 5)) * (3 / 5))
              (10 - 2 * (0 * (3 / 5) + 10 * (4 / 5)) * (4 / 5)).
Proof.
  assert (N : norm (centre_to_centre
                      (Player.mk vzero vzero 50 LEFT BLUE 0 true)
                      (Ball.mk (mkVector2 3 4) (mkVector2 0 10) 35 [] 0 0)) = 5).
  { unfold norm, centre_to_centre, vzero. fields.
    replace ((3 - 0) * (3 - 0) + (4 - 0) * (4 - 0)) with (5 * 5) by lra.
    apply sqrt_square. lra. }
  destruct (reflection_law
              (Player.mk vzero vzero 50 LEFT BLUE 0 true)
              (Ball.mk (mkVector2 3 4) (mkVector2 0 10) 35 [] 0 0))
    as (_ & _ & E & _).
  - rewrite N. lra.
  - fields_in E. rewrite E. unfold direction, dot. rewrite N.
    unfold centre_to_centre, vzero. fields. same_numbers.
Defined.






(** The ball after the ground collision. *)
Lemma ball_ground_collision_ball (i : Input) (g : State) :
  ball (ball_ground_collision i g) =
  if touches_ground (ball g) then ground_bounce (ball g) else ball g.
Proof.
  unfold ball_ground_collision.
  destruct (touches_ground (ball g)); [| reflexivity].
  cbv zeta.
  set (g1 := set_ball g (ground_bounce (ball g))).
  set (g2 := SpawnGroundParticles i _ 15 g1).
  assert (W : writes_particles g1 g2) by apply SpawnGroundParticles_writes.
  clearbody g2. destruct W as (ps & rc & ->). subst g1. fields.
  destruct (scoreDelayTimer g =? 0)%Z; [| reflexivity].
  unfold resolve_score. fields. split_ifs; reflexivity.
Qed.




(* ------------------------------------------------------------------ *)
(** ** The post-score delay and the serve reset *)

Lemma plays_on_runs (i : Input) (s : State) :
  plays_on i -> gameState s = PLAYING -> pause s = false -> runs_physics i s.
Proof.
  intros (He & Hp) Hg Hpa. unfold runs_physics, enter_playing.
  rewrite Hp. fields. auto.
Qed.

Lemma ball_integrate_radius (b : Ball.t) :
  Ball.radius (ball_integrate b) = Ball.radius b.
Proof. reflexivity. Qed.

Lemma ball_trail_step_radius (f : Z) (b : Ball.t) :
  Ball.radius (ball_trail_step f b) = Ball.radius b.
Proof. unfold ball_trail_step, UpdateBallTrail. split_ifs; reflexivity. Qed.

Lemma ball_wall_collision_radius (b : Ball.t) :
  Ball.radius (ball_wall_collision b) = Ball.radius b.
Proof. unfold ball_wall_collision. split_ifs; reflexivity. Qed.

Lemma ball_net_collision_radius (b : Ball.t) :
  Ball.radius (ball_net_collision b) = Ball.radius b.
Proof. unfold ball_net_collision. split_ifs; reflexivity. Qed.

Lemma flight_radius (f : Z) (b : Ball.t) : Ball.radius (flight f b) = Ball.radius b.
Proof.
  unfold flight.
  rewrite ball_net_collision_radius, ball_wall_collision_radius,
    ball_trail_step_radius, ball_integrate_radius.
  reflexivity.
Qed.

Lemma hits_radius (t : Z) (p : Player.t) (b : Ball.t) :
  Ball.radius (hits t p b) = Ball.radius b.
Proof. unfold hits. destruct (_ && _); reflexivity. Qed.

Lemma UpdateGame_radius (i : Input) (s : State) :
  runs_physics i s -> Ball.radius (ball (UpdateGame i s)) = Ball.radius (ball s).
Proof.
  intros Hr. rewrite (UpdateGame_playing i s Hr), ball_ground_collision_ball.
  assert (E : Ball.radius (ball (at_ground i s)) = Ball.radius (ball s)).
  { rewrite at_ground_ball. cbv zeta.
    rewrite !hits_radius, flight_radius. destruct (_ && _); [| reflexivity].
    rewrite ResetBall_ball. reflexivity. }
  revert E. generalize (at_ground i s). intros g E.
  destruct (touches_ground (ball g)); [| exact E].
  rewrite <- E. reflexivity.
Qed.






(** What the ground collision leaves alone besides the players'
    positions: mode, pause, frame counter, and the players' motion. *)
Lemma ball_ground_collision_keeps (i : Input) (g : State) :
  let s' := ball_ground_collision i g in
  gameMode s' = gameMode g /\
  pause s' = pause g /\
  framesCounter s' = framesCounter g /\
  Player.velocity (player1 s') = Player.velocity (player1 g) /\
  Player.onGround (player1 s') = Player.onGround (player1 g) /\
  Player.velocity (player2 s') = Player.velocity (player2 g) /\
  Player.onGround (player2 s') = Player.onGround (player2 g).
Proof.
  cbv zeta. unfold ball_ground_collision.
  destruct (touches_ground (ball g)); [| tauto].
  cbv zeta.
  set (g1 := set_ball g (ground_bounce (ball g))).
  set (g2 := SpawnGroundParticles i _ 15 g1).
  assert (W : writes_particles g1 g2) by apply SpawnGroundParticles_writes.
  clearbody g2. destruct W as (ps & rc & ->). subst g1. fields.
  destruct (scoreDelayTimer g =? 0)%Z; [| fields; tauto].
  unfold resolve_score. fields. split_ifs; tauto.
Qed.

Lemma at_ground_player1 (i : Input) (s : State) :
  player1 (at_ground i s) = settle (controls1 i (player1 s)).
Proof.
  unfold at_ground, before_ground.
  destruct (ball_phase_moves_ball (players_phase i (enter_playing i s)))
    as (_ & -> & _).
  rewrite players_phase_player1.
  destruct (enter_playing_fields i s) as (_ & _ & _ & -> & _). reflexivity.
Qed.

Lemma at_ground_player2_two (i : Input) (s : State) :
  gameMode s = TWO_PLAYER ->
  player2 (at_ground i s) = settle (controls2 i (player2 s)).
Proof.
  intros Hm. unfold at_ground, before_ground.
  destruct (ball_phase_moves_ball (players_phase i (enter_playing i s)))
    as (_ & _ & -> & _).
  destruct (enter_playing_fields i s) as (_ & Hm' & _ & _ & E & _).
  rewrite players_phase_player2_two by congruence.
  rewrite E. reflexivity.
Qed.

Lemma at_ground_mode (i : Input) (s : State) :
  gameMode (at_ground i s) = gameMode s /\
  pause (at_ground i s) = pause (enter_playing i s).
Proof.
  unfold at_ground, before_ground.
  destruct (ball_phase_moves_ball (players_phase i (enter_playing i s)))
    as ((_ & -> & -> & _) & _).
  destruct (players_phase_moves i (enter_playing i s)) as ((_ & -> & -> & _) & _).
  destruct (enter_playing_fields i s) as (_ & -> & _). auto.
Qed.

Lemma standing1_idle (x : R) (p : Player.t) :
  50 <= x <= 457 -> standing x p -> standing x (settle (controls1 no_keys p)).
Proof.
  intros Hx. destruct p as [pos vel r sd c sc og]. unfold standing. fields.
  intros (-> & -> & -> & ->). unfold no_keys, vzero.
  run2 controls1. run1 settle. fields. repeat split; same_numbers.
Qed.

Lemma standing2_idle (x : R) (p : Player.t) :
  567 <= x <= 974 -> standing x p -> standing x (settle (controls2 no_keys p)).
Proof.
  intros Hx. destruct p as [pos vel r sd c sc og]. unfold standing. fields.
  intros (-> & -> & -> & ->). unfold no_keys, vzero.
  run2 controls2. run1 settle. fields. repeat split; same_numbers.
Qed.

(** With no key touched, standing players are still standing after a
    frame of a two-player match. *)
Lemma standing_frame (x1 x2 : R) (s : State) :
  50 <= x1 <= 457 -> 567 <= x2 <= 974 ->
  runs_physics no_keys s ->
  gameMode s = TWO_PLAYER ->
  standing x1 (player1 s) -> standing x2 (player2 s) ->
  let s' := UpdateGame no_keys s in
  gameMode s' = TWO_PLAYER /\
  standing x1 (player1 s') /\ standing x2 (player2 s').
Proof.
  intros H1 H2 Hr Hm S1 S2. cbv zeta.
  rewrite (UpdateGame_playing no_keys s Hr).
  pose proof (standing1_idle x1 _ H1 S1) as T1.
  pose proof (standing2_idle x2 _ H2 S2) as T2.
  rewrite <- (at_ground_player1 no_keys s) in T1.
  rewrite <- (at_ground_player2_two no_keys s Hm) in T2.
  destruct (at_ground_mode no_keys s) as (m1 & _). rewrite <- m1 in Hm.
  revert T1 T2 Hm. generalize (at_ground no_keys s). intros g T1 T2 Hm.
  destruct (ball_ground_collision_players no_keys g) as (c1 & c2 & c3 & c4).
  destruct (ball_ground_collision_keeps no_keys g) as (k1 & _ & _ & k4 & k5 & k6 & k7).
  unfold standing in *.
  rewrite c1, c2, c3, c4, k1, k4, k5, k6, k7. tauto.
Qed.

Lemma no_keys_plays_on : plays_on no_keys.
Proof. split; reflexivity. Qed.


Lemma resolve_score_continues (s : State) :
  (score1 (resolve_score s) < WIN_SCORE)%Z ->
  (score2 (resolve_score s) < WIN_SCORE)%Z ->
  gameState (resolve_score s) = gameState s /\
  pause (resolve_score s) = pause s /\
  scoreDelayTimer (resolve_score s) = SCORE_DELAY_FRAMES.
Proof.
  unfold resolve_score, score1, score2.
  destruct (_ <? _); fields;
    (destruct (_ || _) eqn:E; fields; [| auto]);
    intros H1 H2; exfalso;
    apply orb_true_iff in E; destruct E as [E | E];
    apply Z.geb_le in E; lia.
Qed.

(** A frame that scores without ending the match starts the delay. *)
Lemma scoring_starts_delay (i : Input) (s : State) :
  runs_physics i s ->
  touches_ground (ball (at_ground i s)) = true ->
  scoreDelayTimer (at_ground i s) = 0%Z ->
  (0 <= score1 s < WIN_SCORE - 1)%Z ->
  (0 <= score2 s < WIN_SCORE - 1)%Z ->
  let s' := UpdateGame i s in
  gameState s' = PLAYING /\ pause s' = false /\
  scoreDelayTimer s' = SCORE_DELAY_FRAMES.
Proof.
  intros Hr Ht Hd H1 H2. cbv zeta.
  assert (Hs : (score1 (UpdateGame i s) < WIN_SCORE)%Z
               /\ (score2 (UpdateGame i s) < WIN_SCORE)%Z).
  { destruct (scoring_frame i s Hr Ht Hd) as (L & R). cbv zeta in L, R.
    unfold score1, score2 in *.
    destruct (Rlt_le_dec (vec_x (Ball.position (ball (at_ground i s)))) (IZR NET_X))
      as [Hx | Hx].
    - destruct (L Hx) as (-> & -> & _). rewrite int_incr_score by lia. lia.
    - destruct (R Hx) as (-> & -> & _). rewrite int_incr_score by lia. lia. }
  revert Hs. rewrite (UpdateGame_playing i s Hr).
  destruct (at_ground_rules i s) as (r1 & _).
  destruct (at_ground_mode i s) as (_ & m2).
  destruct Hr as (Hg & _ & Hp). rewrite Hg in r1. rewrite Hp in m2.
  revert Ht Hd r1 m2. generalize (at_ground i s). intros g Ht Hd r1 m2.
  destruct (ball_ground_collision_scores i g Ht Hd) as (g' & -> & (ps & rc & W)).
  intros (S1 & S2).
  destruct (resolve_score_continues g' S1 S2) as (-> & -> & ->).
  rewrite W. fields. auto.
Qed.


Lemma firstn_Forall {A : Type} (P : A -> Prop) (n : nat) (l : list A) :
  Forall P l -> Forall P (firstn n l).
Proof.
  intros H. revert n. induction H as [| x l Hx Hl IH]; intros [| n]; cbn [firstn];
    constructor; auto.
Qed.

Lemma skipn_Forall {A : Type} (P : A -> Prop) (n : nat) (l : list A) :
  Forall P l -> Forall P (skipn n l).
Proof.
  intros H. revert n. induction H as [| x l Hx Hl IH]; intros [| n]; cbn [skipn];
    auto.
Qed.



(** The state of [landing_left] one frame later: player 2 has scored and
    the delay has begun. *)
Lemma landing_left_scored :
  let s1 := UpdateGame no_keys landing_left in
  (score1 s1 = 0%Z /\ score2 s1 = 1%Z /\ servingSide s1 = RIGHT) /\
  (gameState s1 = PLAYING /\ pause s1 = false /\
   scoreDelayTimer s1 = SCORE_DELAY_FRAMES /\ Ball.radius (ball s1) = BALL_RADIUS) /\
  (gameMode s1 = TWO_PLAYER /\ standing 256 (player1 s1) /\ standing 768 (player2 s1)).
Proof.
  cbv zeta.
  destruct landing_left_hypotheses as (Hr & Ht & Hd & Hx).
  split; [| split].
  - destruct (scoring_frame no_keys landing_left Hr Ht Hd) as (L & _).
    destruct (L Hx) as (q1 & q2 & q3). unfold score1, score2.
    rewrite q1, q2, q3. repeat split.
  - destruct (scoring_starts_delay no_keys landing_left Hr Ht Hd) as (a1 & a2 & a3);
      [unfold WIN_SCORE; cbn; lia | unfold WIN_SCORE; cbn; lia |].
    rewrite (UpdateGame_radius no_keys landing_left Hr). auto.
  - apply standing_frame; try lra; try assumption; try reflexivity;
      repeat split; reflexivity.
Qed.






(* ------------------------------------------------------------------ *)
(** ** The ball during the delay *)

Lemma hits_suppressed (t : Z) (p : Player.t) (b : Ball.t) :
  t <> 0%Z -> hits t p b = b.
Proof.
  intros H. unfold hits. destruct (Z.eqb_spec t 0); [contradiction | reflexivity].
Qed.

Lemma UpdateGame_framesCounter (i : Input) (s : State) :
  runs_physics i s -> framesCounter (UpdateGame i s) = int_incr (framesCounter s).
Proof.
  intros Hr. rewrite (UpdateGame_playing i s Hr).
  destruct (ball_ground_collision_keeps i (at_ground i s)) as (_ & _ & -> & _).
  destruct (enter_playing_fields i s) as (_ & _ & _ & _ & _ & _ & _ & e8).
  unfold at_ground, before_ground.
  destruct (players_phase_moves i (enter_playing i s)) as ((_ & _ & _ & a4 & _) & _).
  destruct (ball_phase_moves_ball (players_phase i (enter_playing i s)))
    as ((_ & _ & _ & b4 & _) & _).
  congruence.
Qed.

(** The ball in a frame in which the delay timer stays positive: its
    flight and the ground bounce, and no player collision. *)
Lemma delay_frame_ball (i : Input) (s : State) :
  runs_physics i s ->
  (1 < scoreDelayTimer s <= INT_MAX)%Z ->
  ball (UpdateGame i s) =
  let b := flight (int_incr (framesCounter s)) (ball s) in
  if touches_ground b then ground_bounce b else b.
Proof.
  intros Hr Ht. cbv zeta.
  rewrite (UpdateGame_playing i s Hr), ball_ground_collision_ball, at_ground_ball.
  cbv zeta.
  assert (E : delay_after (scoreDelayTimer s) = (scoreDelayTimer s - 1)%Z).
  { unfold delay_after. destruct (Z.gtb_spec (scoreDelayTimer s) 0); [| lia].
    apply int_decr_small. unfold INT_MIN, INT_MAX in *. lia. }
  rewrite E, !hits_suppressed by lia.
  destruct (Z.eqb_spec (scoreDelayTimer s - 1) 0); [lia |].
  rewrite andb_false_r. reflexivity.
Qed.

(** C7, as stated, fails: in the frame after player 2's point
    ([landing_left]) the delay is running (timer 120) and the ball, which
    bounced off the ground at height 683, has risen to 672.6. *)
Lemma ball_moves_during_delay :
  let s1 := UpdateGame no_keys landing_left in
  let s2 := UpdateGame no_keys s1 in
  scoreDelayTimer s1 = SCORE_DELAY_FRAMES /\
  Ball.position (ball s1) = mkVector2 400 683 /\
  Ball.position (ball s2) = mkVector2 400 672.6 /\
  Ball.position (ball s2) <> Ball.position (ball s1).
Proof.
  cbv zeta.
  destruct landing_left_hypotheses as (Hr & Ht & Hd & Hx).
  destruct landing_left_scored as (_ & (a1 & a2 & a3 & a4) & _).
  assert (B1 : ball (UpdateGame no_keys landing_left) =
               Ball.mk (mkVector2 400 683) (mkVector2 0 (-10.4)) 35
                 (repeat vzero TRAIL_LENGTH) 0 0).
  { rewrite (UpdateGame_playing no_keys landing_left Hr).
    rewrite ball_ground_collision_ball, Ht, landing_left_ball.
    unfold ground_bounce. run_frame. same_numbers. }
  pose proof (UpdateGame_framesCounter no_keys landing_left Hr) as F1.
  change (int_incr (framesCounter landing_left)) with 1%Z in F1.
  revert a1 a2 a3 B1 F1. generalize (UpdateGame no_keys landing_left).
  intros s1 a1 a2 a3 B1 F1.
  assert (B2 : Ball.position (ball (UpdateGame no_keys s1)) = mkVector2 400 672.6).
  { rewrite delay_frame_ball.
    - cbv zeta. rewrite B1, F1. change (int_incr 1) with 2%Z.
      unfold vzero. run_flight. unfold touches_ground. run_frame. same_numbers.
    - apply plays_on_runs; [apply no_keys_plays_on | assumption | assumption].
    - rewrite a3. unfold SCORE_DELAY_FRAMES, INT_MAX. lia. }
  rewrite B2, B1. fields. repeat split; try assumption.
  intros E. assert (E' : 672.6 = 683) by (injection E; auto). lra.
Qed.

(** C7, amended.  In every frame of play in which the delay timer is still
    positive when the collision tests run (it is above 1 when the frame
    starts), both player-ball collision tests are skipped: the ball at the
    end of the frame is what its own physics make of it (integration,
    trail, walls, ceiling, net and the ground bounce), whatever the
    players do, and the players are where their controls and physics put
    them.  The ball is not held in place: it keeps moving and bouncing.
    The timer goes down by one, nobody scores and the match goes on. *)
Theorem delay_suppresses_player_collisions (i : Input) (s : State) :
  runs_physics i s ->
  (1 < scoreDelayTimer s <= INT_MAX)%Z ->
  let s' := UpdateGame i s in
  let b := flight (int_incr (framesCounter s)) (ball s) in
  ball s' = (if touches_ground b then ground_bounce b else b) /\
  Player.position (player1 s')
    = Player.position (player1 (players_phase i (enter_playing i s))) /\
  Player.velocity (player1 s')
    = Player.velocity (player1 (players_phase i (enter_playing i s))) /\
  Player.position (player2 s')
    = Player.position (player2 (players_phase i (enter_playing i s))) /\
  Player.velocity (player2 s')
    = Player.velocity (player2 (players_phase i (enter_playing i s))) /\
  scoreDelayTimer s' = (scoreDelayTimer s - 1)%Z /\
  score1 s' = score1 s /\ score2 s' = score2 s /\
  gameState s' = PLAYING.
Proof.
  intros Hr Ht. cbv zeta.
  split; [exact (delay_frame_ball i s Hr Ht) |].
  rewrite (UpdateGame_playing i s Hr).
  destruct (at_ground_rules i s) as (r1 & _ & r3 & r4 & r5).
  assert (E : delay_after (scoreDelayTimer s) = (scoreDelayTimer s - 1)%Z).
  { unfold delay_after. destruct (Z.gtb_spec (scoreDelayTimer s) 0); [| lia].
    apply int_decr_small. unfold INT_MIN, INT_MAX in *. lia. }
  rewrite E in r5. destruct Hr as (Hg & _). rewrite Hg in r1.
  assert (P : player1 (at_ground i s) = player1 (players_phase i (enter_playing i s))
              /\ player2 (at_ground i s) = player2 (players_phase i (enter_playing i s))).
  { unfold at_ground, before_ground.
    destruct (ball_phase_moves_ball (players_phase i (enter_playing i s)))
      as (_ & -> & -> & _). auto. }
  destruct P as (P1 & P2). rewrite <- P1, <- P2. unfold score1, score2.
  rewrite <- r3, <- r4.
  revert r1 r5. generalize (at_ground i s). intros g r1 r5.
  destruct (ball_ground_collision_players i g) as (-> & _ & -> & _).
  destruct (ball_ground_collision_keeps i g) as (_ & _ & _ & -> & _ & -> & _).
  assert (Hnz : scoreDelayTimer g <> 0%Z) by lia.
  pose proof (ball_ground_collision_no_score i g Hnz) as (ps & rc & W).
  rewrite W.
  destruct (touches_ground (ball g)); fields; repeat split; congruence.
Qed.

Lemma delay_suppresses_player_collisions_witness :
  scoreDelayTimer (UpdateGame no_keys (UpdateGame no_keys landing_left)) = 119%Z.
Proof.
  destruct landing_left_scored as (_ & (a1 & a2 & a3 & a4) & _).
  destruct (delay_suppresses_player_collisions no_keys
              (UpdateGame no_keys landing_left))
    as (_ & _ & _ & _ & _ & H & _).
  - apply plays_on_runs; [apply no_keys_plays_on | assumption | assumption].
  - rewrite a3. unfold SCORE_DELAY_FRAMES, INT_MAX. lia.
  - rewrite H, a3. reflexivity.
Defined.

(* ------------------------------------------------------------------ *)
(** ** The particle pool *)

Lemma count_active_inactive (ps : list Particle.t) :
  (count_active ps + count_inactive ps = length ps)%nat.
Proof.
  unfold count_active, count_inactive.
  induction ps as [| p ps IH]; cbn [filter length]; [reflexivity |].
  destruct (Particle.active p); cbn [negb length]; lia.
Qed.

Lemma claim_slot_some (fresh : Particle.t) (ps ps' : list Particle.t) :
  Particle.active fresh = true ->
  claim_slot fresh ps = Some ps' ->
  count_active ps' = S (count_active ps) /\
  count_inactive ps = S (count_inactive ps') /\
  length ps' = length ps.
Proof.
  intros Hf. revert ps'. unfold count_active, count_inactive.
  induction ps as [| p ps IH]; intros ps' H; cbn [claim_slot] in H; [discriminate |].
  destruct (Particle.active p) eqn:Hp.
  - destruct (claim_slot fresh ps) as [l |]; [| discriminate].
    injection H as <-. destruct (IH l eq_refl) as (a & b & c).
    cbn [filter length]. rewrite Hp. cbn [negb length]. lia.
  - injection H as <-. cbn [filter length]. rewrite Hf, Hp. cbn [negb length]. lia.
Qed.

Lemma claim_slot_none (fresh : Particle.t) (ps : list Particle.t) :
  claim_slot fresh ps = None -> count_inactive ps = 0%nat.
Proof.
  unfold count_inactive.
  induction ps as [| p ps IH]; intros H; cbn [claim_slot] in H; [reflexivity |].
  destruct (Particle.active p) eqn:Hp; [| discriminate].
  destruct (claim_slot fresh ps); [discriminate |].
  cbn [filter]. rewrite Hp. cbn [negb]. apply IH. reflexivity.
Qed.

(** One requested particle: a slot is claimed exactly when one is free. *)
Lemma spawn_one_count (i : Input) (pos : Vector2) (s : State) :
  length (particles s) = MAX_PARTICLES ->
  let s' := spawn_one i pos s in
  length (particles s') = MAX_PARTICLES /\
  (count_active (particles s')
   = count_active (particles s) + Nat.min 1 (count_inactive (particles s)))%nat /\
  (count_inactive (particles s')
   = count_inactive (particles s) - 1)%nat.
Proof.
  intros Hlen. cbv zeta. unfold spawn_one.
  rewrite firstn_all2, skipn_all2 by (rewrite Hlen; apply Nat.le_refl).
  set (fresh := Particle.mk _ _ _ _ _ _).
  destruct (claim_slot fresh (particles s)) as [ps |] eqn:E; fields.
  - destruct (claim_slot_some fresh (particles s) ps eq_refl E) as (a & b & c).
    rewrite app_nil_r. lia.
  - pose proof (claim_slot_none fresh (particles s) E). lia.
Qed.

Lemma spawn_loop_count (i : Input) (pos : Vector2) (m : nat) (s : State) :
  length (particles s) = MAX_PARTICLES ->
  let s' := spawn_loop i pos m s in
  length (particles s') = MAX_PARTICLES /\
  (count_active (particles s')
   = count_active (particles s) + Nat.min m (count_inactive (particles s)))%nat.
Proof.
  revert s. induction m as [| m IH]; intros s Hlen; cbn [spawn_loop].
  - cbv zeta. split; [exact Hlen | cbn [Nat.min]; lia].
  - destruct (spawn_one_count i pos s Hlen) as (L & A & I).
    destruct (IH (spawn_one i pos s) L) as (L' & A').
    cbv zeta. split; [exact L' |].
    rewrite A', A, I. lia.
Qed.

(** C8.  Emitting [n >= 0] particles into the pool of 100 slots of which
    [k] are inactive activates exactly min(n, k, 100) of them: the number
    of active slots grows by that much and the pool keeps its 100 slots.
    In particular 15 particles into an empty pool give 15 active slots,
    and 200 into an empty pool give 100. *)
Theorem particle_pool_capacity (i : Input) (pos : Vector2) (n : Z) (s : State) :
  length (particles s) = MAX_PARTICLES ->
  (0 <= n)%Z ->
  let k := count_inactive (particles s) in
  let s' := SpawnGroundParticles i pos n s in
  length (particles s') = MAX_PARTICLES /\
  Z.of_nat (count_active (particles s'))
    = (Z.of_nat (count_active (particles s))
       + Z.min (Z.min n (Z.of_nat k)) (Z.of_nat MAX_PARTICLES))%Z /\
  (k = MAX_PARTICLES -> n = 15%Z -> count_active (particles s') = 15%nat) /\
  (k = MAX_PARTICLES -> n = 200%Z -> count_active (particles s') = 100%nat).
Proof.
  intros Hlen Hn. cbv zeta. unfold SpawnGroundParticles.
  destruct (spawn_loop_count i pos (Z.to_nat (Z.min n (Z.of_nat MAX_PARTICLES))) s Hlen)
    as (L & A).
  pose proof (count_active_inactive (particles s)) as T. rewrite Hlen in T.
  split; [exact L |].
  assert (E : Z.of_nat (count_active (particles
                 (spawn_loop i pos (Z.to_nat (Z.min n (Z.of_nat MAX_PARTICLES))) s)))
              = (Z.of_nat (count_active (particles s))
                 + Z.min (Z.min n (Z.of_nat (count_inactive (particles s))))
                     (Z.of_nat MAX_PARTICLES))%Z).
  { rewrite A. unfold MAX_PARTICLES in *. lia. }
  split; [exact E |].
  unfold MAX_PARTICLES in *. split; intros Hk ->; lia.
Qed.

Lemma particle_pool_capacity_witness :
  count_active
    (particles (SpawnGroundParticles no_keys (mkVector2 400 718) 15 landing_left))
  = 15%nat.
Proof.
  apply (particle_pool_capacity no_keys (mkVector2 400 718) 15 landing_left);
    reflexivity || (cbn; lia).
Defined.

(* ------------------------------------------------------------------ *)
(** ** The AI at rest *)

Lemma UpdateAI_ball (i : Input) (s : State) : ball (UpdateAI i s) = ball s.
Proof. destruct (UpdateAI_moves i s) as (_ & H & _). exact H. Qed.

Lemma ai_run_ball (inputs : list Input) (s : State) : ball (ai_run inputs s) = ball s.
Proof.
  revert s. induction inputs as [| i r IH]; intros s; cbn [ai_run]; [reflexivity |].
  rewrite IH. apply UpdateAI_ball.
Qed.

Lemma UpdateAI_idle (i : Input) (s : State) :
  ballComingToward (ball s) = false ->
  player2 (UpdateAI i s) = ai_return_to_center (player2 s).
Proof.
  intros H. unfold UpdateAI.
  destruct (aiJumpCooldown s >? 0)%Z; fields; rewrite H; reflexivity.
Qed.

Lemma UpdateAI_chase_position (i : Input) (s : State) :
  ballComingToward (ball s) = true ->
  Player.position (player2 (UpdateAI i s)) =
  Player.position
    (ai_move_toward (vec_x (Ball.position (ball s)) - x2 s) (player2 s)) /\
  Player.radius (player2 (UpdateAI i s)) = Player.radius (player2 s).
Proof.
  intros H. unfold UpdateAI, x2.
  destruct (aiJumpCooldown s >? 0)%Z; fields; rewrite H; fields;
    unfold ai_jump, draw; split_ifs;
    (split; [reflexivity | unfold ai_move_toward; split_ifs; reflexivity]).
Qed.

Lemma stationary_left_not_coming (b : Ball.t) :
  Ball.velocity b = vzero ->
  vec_x (Ball.position b) < IZR NET_X ->
  ballComingToward b = false.
Proof.
  intros Hv Hx. unfold ballComingToward. rewrite Hv. unfold vzero. fields.
  unfold Rgtb, Rgeb. rewrite (Rltb_false 0 0), (Rleb_false _ _ Hx) by lra.
  reflexivity.
Qed.

(** One idle step, on the horizontal position alone. *)
Lemma ai_return_to_center_step (p : Player.t) :
  let x := vec_x (Player.position p) in
  let x' := vec_x (Player.position (ai_return_to_center p)) in
  vec_x (Player.velocity (ai_return_to_center p)) = 0 /\
  (x < 748 -> x' = x + 2.4) /\
  (x > 788 -> x' = x - 2.4) /\
  (748 <= x <= 788 -> Player.position (ai_return_to_center p) = Player.position p).
Proof.
  cbv zeta. unfold ai_return_to_center. rewrite IZR_ai_target.
  unfold AI_POSITION_TOLERANCE, PLAYER_MOVE_SPEED.
  split; [reflexivity |].
  repeat split; intros H; unfold Rgtb.
  - rewrite Rltb_true by lra. fields. lra.
  - rewrite Rltb_false, Rltb_true by lra. fields. lra.
  - rewrite !Rltb_false by lra. reflexivity.
Qed.

Lemma in_band_iff (s : State) : in_band s <-> 748 <= x2 s <= 788.
Proof.
  unfold in_band, ai_target, AI_POSITION_TOLERANCE. rewrite IZR_ai_target.
  split; intros H.
  - apply Rabs_le_bounds in H. lra.
  - apply Rabs_le. lra.
Qed.

(** Once within [20 + 2.4 n] of the midpoint, [n] idle calls are enough,
    and so is any larger number. *)
Lemma idle_run_reaches_band (inputs : list Input) (s : State) :
  ballComingToward (ball s) = false ->
  Rabs (x2 s - 768) <= 20 + 2.4 * INR (length inputs) ->
  in_band (ai_run inputs s).
Proof.
  revert s. induction inputs as [| i r IH]; intros s Hb Hx.
  - cbn [ai_run]. apply in_band_iff. cbn [length INR] in Hx.
    apply Rabs_le_bounds in Hx. lra.
  - cbn [ai_run]. apply IH.
    + rewrite UpdateAI_ball. exact Hb.
    + unfold x2 in *. rewrite (UpdateAI_idle i s Hb).
      destruct (ai_return_to_center_step (player2 s)) as (_ & Lo & Hi & Mid).
      cbv zeta in Lo, Hi, Mid.
      change (length (i :: r)) with (S (length r)) in Hx. rewrite S_INR in Hx.
      apply Rabs_le_bounds in Hx. pose proof (pos_INR (length r)) as Hn.
      apply Rabs_le.
      destruct (Rlt_le_dec (vec_x (Player.position (player2 s))) 748) as [A | A].
      * rewrite (Lo A). lra.
      * destruct (Rlt_le_dec 788 (vec_x (Player.position (player2 s)))) as [B | B].
        -- rewrite (Hi B). lra.
        -- rewrite (Mid (conj A B)). lra.
Qed.

Lemma enough_steps (d : R) : exists N : nat, d <= 20 + 2.4 * INR N.
Proof.
  destruct (Rle_dec d 20) as [H | H].
  - exists 0%nat. cbn [INR]. lra.
  - destruct (archimed (d / 2.4)) as (U & _).
    assert (Hpos : (0 <= up (d / 2.4))%Z).
    { apply le_IZR. apply Rlt_le. eapply Rle_lt_trans; [| exact U].
      apply Rlt_le, Rdiv_lt_0_compat; lra. }
    exists (Z.to_nat (up (d / 2.4))).
    rewrite INR_IZR_INZ, Z2Nat.id by exact Hpos.
    assert (d / 2.4 * 2.4 = d) by (field; lra). nra.
Qed.

Lemma ai_move_toward_right (d : R) (p : Player.t) :
  let x := vec_x (Player.position p) in
  Player.radius p = 50 ->
  790 <= x <= 933.2 -> d = 950 - x ->
  790 <= vec_x (Player.position (ai_move_toward d p)) <= 933.2.
Proof.
  cbv zeta. destruct p as [[px py] vel r sd c sc og]. fields.
  intros -> Hx ->. unfold ai_move_toward.
  destruct (Rlt_le_dec 20 (950 - px)) as [A | A]; run_frame; lra.
Qed.

Lemma chase_invariant (inputs : list Input) (s : State) :
  ball s = ball ball_on_ai_side ->
  Player.radius (player2 s) = 50 ->
  790 <= x2 s <= 933.2 ->
  790 <= x2 (ai_run inputs s) <= 933.2.
Proof.
  revert s. induction inputs as [| i r IH]; intros s Hb Hr Hx; cbn [ai_run].
  - exact Hx.
  - assert (Hc : ballComingToward (ball s) = true).
    { rewrite Hb. unfold ballComingToward, ball_on_ai_side, court, vzero. fields.
      rewrite IZR_NET_X. unfold Rgeb. rewrite (Rleb_true 512 950) by lra.
      apply orb_true_r. }
    destruct (UpdateAI_chase_position i s Hc) as (Hp & Hrad).
    apply IH.
    + rewrite UpdateAI_ball. exact Hb.
    + rewrite Hrad. exact Hr.
    + unfold x2 in *. rewrite Hp. apply ai_move_toward_right; try assumption.
      rewrite Hb. reflexivity.
Qed.

(** C9, as stated, fails: the ball lies still, 160 units from the AI, but
    on the AI's own half.  The controller treats it as "coming toward"
    and walks to the ball; it never enters the band around the midpoint. *)
Lemma ai_walks_to_still_ball_on_its_side :
  Ball.velocity (ball ball_on_ai_side) = vzero /\
  Rabs (vec_x (Ball.position (ball ball_on_ai_side)) - x2 ball_on_ai_side)
    > AI_REACTION_DISTANCE /\
  forall inputs : list Input, ~ in_band (ai_run inputs ball_on_ai_side).
Proof.
  split; [reflexivity |]. split.
  - unfold ball_on_ai_side, court, x2, AI_REACTION_DISTANCE. fields.
    rewrite Rabs_pos_eq; lra.
  - intros inputs H. apply in_band_iff in H.
    pose proof (chase_invariant inputs ball_on_ai_side eq_refl eq_refl) as K.
    assert (E : x2 ball_on_ai_side = 790) by reflexivity.
    rewrite E in K. lra.
Qed.

(** C9, amended.  With the ball stationary on the opponent's (left) half
    of the court, the AI controller, called over successive ticks,
    converges to the horizontal midpoint of its half within the +-20
    band: after finitely many calls it is within the band, it stays there
    (a further call leaves its position unchanged), and every call
    publishes zero horizontal velocity.  The distance to the ball plays no
    part. *)
Theorem ai_returns_to_center (s : State) :
  Ball.velocity (ball s) = vzero ->
  vec_x (Ball.position (ball s)) < IZR NET_X ->
  exists N : nat,
    forall inputs : list Input,
      (N <= length inputs)%nat ->
      let s' := ai_run inputs s in
      in_band s' /\
      forall i : Input,
        Player.position (player2 (UpdateAI i s')) = Player.position (player2 s') /\
        vec_x (Player.velocity (player2 (UpdateAI i s'))) = 0.
Proof.
  intros Hv Hx.
  pose proof (stationary_left_not_coming (ball s) Hv Hx) as Hb.
  destruct (enough_steps (Rabs (x2 s - 768))) as (N & HN).
  exists N. intros inputs Hlen. cbv zeta.
  assert (Hband : in_band (ai_run inputs s)).
  { apply idle_run_reaches_band; [exact Hb |].
    apply le_INR in Hlen. lra. }
  split; [exact Hband |].
  intros i.
  assert (Hb' : ballComingToward (ball (ai_run inputs s)) = false)
    by (rewrite ai_run_ball; exact Hb).
  rewrite (UpdateAI_idle i _ Hb').
  destruct (ai_return_to_center_step (player2 (ai_run inputs s)))
    as (V & _ & _ & Mid).
  split; [| exact V].
  apply Mid. apply in_band_iff in Hband. exact Hband.
Qed.

Lemma ai_returns_to_center_witness :
  exists N : nat,
    forall inputs : list Input,
      (N <= length inputs)%nat -> in_band (ai_run inputs ball_on_left_side).
Proof.
  destruct (ai_returns_to_center ball_on_left_side) as (N & H).
  - reflexivity.
  - unfold ball_on_left_side, court. fields. rewrite IZR_NET_X. lra.
  - exists N. intros inputs Hlen. apply (H inputs Hlen).
Defined.

(* ================================================================== *)
(** * Further properties of the code

    Invariants of the states the program can reach, the state machine,
    the jump, the bounces, and what the draw functions are given. *)

(* ------------------------------------------------------------------ *)
(** ** What a frame writes *)

(** Unfold the record accessors in the hypotheses too. *)
Ltac fields_hyps :=
  repeat match goal with H : _ |- _ => progress fields_in H end.

Lemma UpdateAI_keeps (i : Input) (s : State) :
  let s' := UpdateAI i s in
  creditsScroll s' = creditsScroll s /\
  matchTimer s' = matchTimer s /\
  particles s' = particles s.
Proof.
  cbv zeta. unfold UpdateAI, ai_jump, draw. split_ifs; repeat split.
Qed.

Lemma players_phase_keeps (i : Input) (s : State) :
  let s' := players_phase i s in
  creditsScroll s' = creditsScroll s /\
  matchTimer s' = int_incr (matchTimer s) /\
  particles s' = particles (UpdateParticles s).
Proof.
  cbv zeta. unfold players_phase. rewrite player_physics_players. fields.
  unfold UpdatePlayerControls. fields.
  destruct (gameMode (UpdateParticles _)) eqn:E; fields; rewrite E.
  - destruct (UpdateAI_keeps i
      (set_player1 (UpdateParticles (set_matchTimer s (int_incr (matchTimer s))))
                   (controls1 i (player1 (UpdateParticles (set_matchTimer s (int_incr (matchTimer s))))))))
      as (-> & -> & ->).
    fields. repeat split.
  - fields. repeat split.
Qed.

Lemma ball_phase_keeps (s : State) :
  let s' := ball_phase s in
  creditsScroll s' = creditsScroll s /\
  matchTimer s' = matchTimer s /\
  aiJumpCooldown s' = aiJumpCooldown s.
Proof. cbv zeta. rewrite ball_phase_eq. fields. repeat split. Qed.

(** The ground collision writes the ball, the particles, the random
    source and, when it scores, a score, the serving side and either the
    game state or the delay timer. *)
Lemma ball_ground_collision_quiet (i : Input) (g : State) :
  let s' := ball_ground_collision i g in
  menuSelection s' = menuSelection g /\
  shouldExitGame s' = shouldExitGame g /\
  creditsScroll s' = creditsScroll g /\
  matchTimer s' = matchTimer g /\
  aiJumpCooldown s' = aiJumpCooldown g /\
  body (player1 s') = body (player1 g) /\
  body (player2 s') = body (player2 g) /\
  (scoreDelayTimer s' = scoreDelayTimer g \/
   scoreDelayTimer g = 0%Z /\ scoreDelayTimer s' = SCORE_DELAY_FRAMES) /\
  (gameState s' = gameState g \/ gameState s' = GAMEOVER).
Proof.
  cbv zeta. unfold ball_ground_collision.
  destruct (touches_ground (ball g)); [| tauto].
  cbv zeta.
  set (g1 := set_ball g (ground_bounce (ball g))).
  set (g2 := SpawnGroundParticles i _ 15 g1).
  assert (W : writes_particles g1 g2) by apply SpawnGroundParticles_writes.
  clearbody g2. destruct W as (ps & rc & ->). subst g1. fields.
  destruct (scoreDelayTimer g =? 0)%Z eqn:E; [| fields; tauto].
  apply Z.eqb_eq in E.
  unfold resolve_score, body. fields. split_ifs; tauto.
Qed.

(** A PLAYING frame that does not run the physics: back to the menu on
    Escape, and otherwise nothing but the frame counter and the pause key. *)
Lemma quiet_playing (i : Input) (s : State) :
  gameState s = PLAYING ->
  ~ runs_physics i s ->
  UpdateGame i s =
  if IsKeyPressed i KEY_ESCAPE
  then set_menuSelection (set_gameState (enter_playing i s) MENU) 0
  else enter_playing i s.
Proof.
  intros Hg Hn. unfold UpdateGame. fields. rewrite Hg.
  unfold update_playing, enter_playing. fields.
  destruct (IsKeyPressed i KEY_ESCAPE) eqn:He; [reflexivity |].
  destruct (IsKeyPressed i KEY_P) eqn:Hp; fields;
    destruct (pause s) eqn:Hq; fields; try reflexivity;
    exfalso; apply Hn; unfold runs_physics, enter_playing; fields;
    rewrite Hp; fields; rewrite ?Hq; tauto.
Qed.

(** A frame that does not run the physics leaves the players' bodies, the
    particles, the AI cooldown, the delay timer and the serving side
    alone; the ball is left alone or reset for a new match. *)
Lemma quiet_frame (i : Input) (s : State) :
  ~ runs_physics i s ->
  let s' := UpdateGame i s in
  body (player1 s') = body (player1 s) /\
  body (player2 s') = body (player2 s) /\
  particles s' = particles s /\
  aiJumpCooldown s' = aiJumpCooldown s /\
  scoreDelayTimer s' = scoreDelayTimer s /\
  servingSide s' = servingSide s /\
  (ball s' = ball s \/ ball s' = ball (ResetBall s)) /\
  (matchTimer s' = matchTimer s \/ matchTimer s' = 0%Z).
Proof.
  intros Hn. cbv zeta. unfold UpdateGame. fields.
  destruct (gameState s) eqn:Hg.
  - unfold update_menu. split_ifs; rewrite ?ResetBall_ball; fields;
      unfold body; fields; rewrite <- ?ResetBall_ball; tauto.
  - unfold update_playing. fields.
    destruct (IsKeyPressed i KEY_ESCAPE) eqn:He.
    + destruct (IsKeyPressed i KEY_P); fields; unfold body; tauto.
    + destruct (IsKeyPressed i KEY_P) eqn:Hp; fields;
        destruct (pause s) eqn:Hq; fields; unfold body; try tauto;
        exfalso; apply Hn; unfold runs_physics, enter_playing; fields;
        rewrite Hp; fields; rewrite ?Hq; tauto.
  - unfold update_gameover. split_ifs; unfold body; fields; tauto.
  - unfold update_credits. split_ifs; unfold body; fields; tauto.
Qed.

(** A frame that runs the physics leaves the menu, the exit flag, the
    credits and the game mode alone, advances the match timer by one, and
    ends in PLAYING or GAMEOVER, not paused. *)
Lemma physics_frame_keeps (i : Input) (s : State) :
  runs_physics i s ->
  let s' := UpdateGame i s in
  menuSelection s' = menuSelection s /\
  shouldExitGame s' = shouldExitGame s /\
  creditsScroll s' = creditsScroll s /\
  matchTimer s' = int_incr (matchTimer s) /\
  gameMode s' = gameMode s /\
  pause s' = false /\
  (gameState s' = PLAYING \/ gameState s' = GAMEOVER).
Proof.
  intros Hr. cbv zeta. rewrite (UpdateGame_playing i s Hr).
  destruct Hr as (Hg & He & Hp).
  generalize (ball_ground_collision_quiet i (at_ground i s)).
  generalize (ball_ground_collision_keeps i (at_ground i s)).
  generalize (at_ground_rules i s).
  assert (K : menuSelection (at_ground i s) = menuSelection s /\
              shouldExitGame (at_ground i s) = shouldExitGame s /\
              creditsScroll (at_ground i s) = creditsScroll s /\
              matchTimer (at_ground i s) = int_incr (matchTimer s) /\
              gameMode (at_ground i s) = gameMode s /\
              pause (at_ground i s) = false).
  { unfold at_ground, before_ground.
    destruct (players_phase_moves i (enter_playing i s))
      as ((a1 & a2 & a3 & a4 & a5 & a6 & a7 & a8 & a9) & a10 & a11).
    destruct (ball_phase_moves_ball (players_phase i (enter_playing i s)))
      as ((b1 & b2 & b3 & b4 & b5 & b6 & b7 & b8 & b9) & _).
    destruct (players_phase_keeps i (enter_playing i s)) as (c1 & c2 & c3).
    destruct (ball_phase_keeps (players_phase i (enter_playing i s))) as (d1 & d2 & d3).
    rewrite b8, a8, b9, a9, d1, c1, d2, c2, b2, a2, b3, a3, Hp.
    unfold enter_playing. destruct (IsKeyPressed i KEY_P); fields; tauto. }
  revert K. generalize (ball_ground_collision i (at_ground i s)).
  generalize (at_ground i s). intros g s' K R1 R2 R3. cbv zeta in *.
  destruct K as (k1 & k2 & k3 & k4 & k5 & k6).
  destruct R1 as (r1 & _).
  destruct R2 as (m1 & m2 & _).
  destruct R3 as (q1 & q2 & q3 & q4 & q5 & q6 & q7 & q8 & q9).
  repeat split; try congruence.
Qed.

(* ------------------------------------------------------------------ *)
(** ** The state machine and the menu *)

(** X1.  One frame moves the game only along MENU -> PLAYING | CREDITS,
    PLAYING -> MENU | GAMEOVER, GAMEOVER -> MENU and CREDITS -> MENU, or
    stays where it is. *)
Theorem state_machine_transitions (i : Input) (s : State) :
  transition (gameState s) (gameState (UpdateGame i s)).
Proof.
  destruct (runs_physics_dec i s) as [Hr | Hn].
  - destruct (physics_frame_keeps i s Hr) as (_ & _ & _ & _ & _ & _ & H).
    destruct Hr as (Hg & _). rewrite Hg.
    destruct H as [-> | ->]; exact I.
  - revert Hn. unfold runs_physics, enter_playing, UpdateGame. fields.
    destruct (gameState s) eqn:Hg; intros Hn.
    + unfold update_menu. split_ifs; unfold ResetBall; fields; rewrite ?Hg; exact I.
    + unfold update_playing. fields.
      destruct (IsKeyPressed i KEY_ESCAPE) eqn:He; [split_ifs; rewrite ?Hg; exact I |].
      destruct (IsKeyPressed i KEY_P) eqn:Hp; fields; fields_in Hn;
        destruct (pause s) eqn:Hq; fields; fields_in Hn;
        try (rewrite Hg; exact I); exfalso; apply Hn; tauto.
    + unfold update_gameover. split_ifs; rewrite ?Hg; exact I.
    + unfold update_credits. split_ifs; rewrite ?Hg; exact I.
Qed.

Lemma menu_inv_step (i : Input) (s : State) : menu_inv s -> menu_inv (UpdateGame i s).
Proof.
  unfold menu_inv. intros H.
  destruct (runs_physics_dec i s) as [Hr | Hn].
  - destruct (physics_frame_keeps i s Hr) as (-> & _). exact H.
  - destruct (gameState s) eqn:Hg;
      [| rewrite (quiet_playing i s Hg Hn); unfold enter_playing;
         split_ifs; fields; try lia; exact H | |];
      unfold UpdateGame; fields; rewrite Hg.
    + unfold update_menu. fields.
      assert (D : int_decr (menuSelection s) = (menuSelection s - 1)%Z)
        by (apply int_decr_small; unfold INT_MIN, INT_MAX; lia).
      assert (U : forall z, (0 <= z <= 3)%Z -> int_incr z = (z + 1)%Z)
        by (intros z Hz; apply int_incr_small; unfold INT_MIN, INT_MAX; lia).
      set (s1 := if IsKeyPressed i KEY_UP then _ else _).
      assert (H1 : (0 <= menuSelection s1 <= 3)%Z).
      { subst s1. destruct (IsKeyPressed i KEY_UP); [| exact H]. fields. rewrite D.
        destruct (menuSelection s - 1 <? 0)%Z eqn:E; fields; lia. }
      clearbody s1.
      set (s2 := if IsKeyPressed i KEY_DOWN then _ else _).
      assert (H2 : (0 <= menuSelection s2 <= 3)%Z).
      { subst s2. destruct (IsKeyPressed i KEY_DOWN); [| exact H1]. fields.
        rewrite (U _ H1).
        destruct (menuSelection s1 + 1 >? 3)%Z eqn:E; fields; lia. }
      clearbody s2.
      split_ifs; rewrite ?ResetBall_ball; unfold ResetBall; fields; exact H2.
    + unfold update_gameover. split_ifs; fields; try lia; exact H.
    + unfold update_credits. split_ifs; fields; try lia; exact H.
Qed.

Lemma reachable_menu_inv (s : State) : reachable s -> menu_inv s.
Proof.
  induction 1 as [| i s _ IH]; [unfold menu_inv; cbn; lia | apply menu_inv_step, IH].
Qed.

(** X2.  In every state the program can reach the menu selection is one of
    the four options, and [DrawMenu] highlights that option and no other. *)
Theorem menu_highlights_selected_option (s : State) :
  reachable s ->
  exists k : nat,
    (k < 4)%nat /\ menuSelection s = Z.of_nat k /\
    forall j : nat, nth j (DrawMenu s) Menu.GRAY = Menu.RED <-> j = k.
Proof.
  intros Hr. apply reachable_menu_inv in Hr. unfold menu_inv in Hr.
  exists (Z.to_nat (menuSelection s)).
  split; [lia |]. split; [lia |].
  assert (C : (menuSelection s = 0 \/ menuSelection s = 1 \/
               menuSelection s = 2 \/ menuSelection s = 3)%Z) by lia.
  unfold DrawMenu.
  destruct C as [-> | [-> | [-> | ->]]]; intros j; cbn;
    (split; [| intros ->; reflexivity]);
    do 4 (destruct j as [| j]; try reflexivity; try discriminate);
    destruct j; discriminate.
Qed.

Lemma menu_highlights_selected_option_witness :
  exists k : nat,
    (k < 4)%nat /\
    menuSelection (UpdateGame (press KEY_UP) initial_state) = Z.of_nat k /\
    forall j : nat,
      nth j (DrawMenu (UpdateGame (press KEY_UP) initial_state)) Menu.GRAY = Menu.RED
      <-> j = k.
Proof.
  apply (menu_highlights_selected_option (UpdateGame (press KEY_UP) initial_state)).
  apply reachable_step, reachable_init.
Defined.

(** X3.  The exit flag is raised in one place only: in the menu, by ENTER
    on the fourth option; the game is then still in the menu. *)
Theorem exit_only_from_menu (i : Input) (s : State) :
  shouldExitGame s = false ->
  shouldExitGame (UpdateGame i s) = true ->
  gameState s = MENU /\ IsKeyPressed i KEY_ENTER = true /\
  menuSelection (UpdateGame i s) = 3%Z /\ gameState (UpdateGame i s) = MENU.
Proof.
  intros H0.
  destruct (runs_physics_dec i s) as [Hr | Hn].
  - destruct (physics_frame_keeps i s Hr) as (_ & -> & _). congruence.
  - destruct (gameState s) eqn:Hg.
    + unfold UpdateGame. fields. rewrite Hg. unfold update_menu.
      set (s2 := if IsKeyPressed i KEY_DOWN then _ else _).
      assert (H2 : gameState s2 = MENU /\ shouldExitGame s2 = false).
      { subst s2. split_ifs; fields; auto. }
      clearbody s2. destruct H2 as (G2 & E2).
      destruct (IsKeyPressed i KEY_ENTER); [| congruence].
      destruct ((menuSelection s2 =? 0)%Z || (menuSelection s2 =? 1)%Z);
        [unfold ResetBall; fields; congruence |].
      destruct (menuSelection s2 =? 2)%Z; [fields; congruence |].
      destruct (menuSelection s2 =? 3)%Z eqn:E3; [| congruence].
      apply Z.eqb_eq in E3. fields. auto.
    + rewrite (quiet_playing i s Hg Hn). unfold enter_playing.
      split_ifs; fields; congruence.
    + unfold UpdateGame. fields. rewrite Hg. unfold update_gameover.
      split_ifs; fields; congruence.
    + unfold UpdateGame. fields. rewrite Hg. unfold update_credits.
      split_ifs; fields; congruence.
Qed.

Lemma exit_only_from_menu_witness :
  gameState (UpdateGame (press KEY_UP) initial_state) = MENU /\
  IsKeyPressed press_enter KEY_ENTER = true /\
  menuSelection (UpdateGame press_enter (UpdateGame (press KEY_UP) initial_state)) = 3%Z /\
  gameState (UpdateGame press_enter (UpdateGame (press KEY_UP) initial_state)) = MENU.
Proof.
  apply (exit_only_from_menu press_enter (UpdateGame (press KEY_UP) initial_state));
    reflexivity.
Defined.

Lemma set_framesCounter_same (s : State) : set_framesCounter s (framesCounter s) = s.
Proof. destruct s; reflexivity. Qed.

Lemma paused_frame (i : Input) (s : State) :
  gameState s = PLAYING -> pause s = true -> plays_on i ->
  UpdateGame i s = set_framesCounter s (int_incr (framesCounter s)).
Proof.
  intros Hg Hq (He & Hp).
  rewrite quiet_playing; [| exact Hg |].
  - rewrite He. unfold enter_playing. rewrite Hp. reflexivity.
  - intros (_ & _ & H). unfold enter_playing in H. rewrite Hp in H.
    fields_in H. congruence.
Qed.

(** X4.  While the match is paused, frames without P or Escape change the
    frame counter and nothing else: players, ball, scores, timers and
    particles stand still for any number of frames. *)
Theorem paused_match_is_frozen (inputs : list Input) (s : State) :
  gameState s = PLAYING ->
  pause s = true ->
  Forall plays_on inputs ->
  run inputs s = set_framesCounter s (frames_later (length inputs) (framesCounter s)).
Proof.
  intros Hg Hq Hi. revert s Hg Hq.
  induction Hi as [| i rest Hi _ IH]; intros s Hg Hq.
  - cbn. symmetry. apply set_framesCounter_same.
  - cbn [run length]. rewrite (paused_frame i s Hg Hq Hi).
    rewrite IH by (fields; assumption).
    unfold frames_later. rewrite Nat.iter_succ_r. fields. reflexivity.
Qed.

Lemma paused_match_is_frozen_witness :
  run [no_keys; hold_A; no_keys] (set_pause landing_left true)
  = set_framesCounter (set_pause landing_left true)
      (frames_later 3 (framesCounter (set_pause landing_left true))).
Proof.
  apply (paused_match_is_frozen [no_keys; hold_A; no_keys] (set_pause landing_left true)).
  - reflexivity.
  - reflexivity.
  - repeat constructor.
Defined.

(** X5.  Starting a match from the menu resets the two scores, the match
    timer and the ball, and nothing else of the match: the pause flag, the
    serving side, the post-score delay, the AI cooldown, the particles and
    the players' positions and velocities are those the last match left. *)
Theorem new_match_resets_scores_timer_ball (i : Input) (s : State) :
  gameState s = MENU ->
  gameState (UpdateGame i s) = PLAYING ->
  let s' := UpdateGame i s in
  (score1 s' = 0%Z /\ score2 s' = 0%Z /\ matchTimer s' = 0%Z /\
   ball s' = ball (ResetBall s)) /\
  (pause s' = pause s /\ servingSide s' = servingSide s /\
   scoreDelayTimer s' = scoreDelayTimer s /\
   aiJumpCooldown s' = aiJumpCooldown s /\
   particles s' = particles s /\
   body (player1 s') = body (player1 s) /\
   body (player2 s') = body (player2 s)).
Proof.
  intros Hg. cbv zeta.
  assert (Hn : ~ runs_physics i s) by (intros (H & _); congruence).
  destruct (quiet_frame i s Hn) as (q1 & q2 & q3 & q4 & q5 & q6 & _).
  rewrite q1, q2, q3, q4, q5, q6. clear q1 q2 q3 q4 q5 q6 Hn.
  unfold UpdateGame. fields. rewrite Hg. unfold update_menu, score1, score2.
  set (s2 := if IsKeyPressed i KEY_DOWN then _ else _).
  assert (H2 : gameState s2 = MENU /\ pause s2 = pause s /\ ball s2 = ball s /\
               servingSide s2 = servingSide s).
  { subst s2. split_ifs; fields; auto. }
  clearbody s2. destruct H2 as (G2 & P2 & B2 & S2).
  destruct (IsKeyPressed i KEY_ENTER); [| congruence].
  destruct ((menuSelection s2 =? 0)%Z || (menuSelection s2 =? 1)%Z).
  - intros _. rewrite !ResetBall_ball. unfold ResetBall. fields.
    rewrite P2, B2, S2. tauto.
  - split_ifs; congruence.
Qed.

Lemma new_match_resets_scores_timer_ball_witness :
  let s := set_gameState (set_pause match_point true) MENU in
  let s' := UpdateGame press_enter s in
  (score1 s' = 0%Z /\ score2 s' = 0%Z /\ matchTimer s' = 0%Z /\
   ball s' = ball (ResetBall s)) /\
  (pause s' = pause s /\ servingSide s' = servingSide s /\
   scoreDelayTimer s' = scoreDelayTimer s /\
   aiJumpCooldown s' = aiJumpCooldown s /\
   particles s' = particles s /\
   body (player1 s') = body (player1 s) /\
   body (player2 s') = body (player2 s)).
Proof.
  apply (new_match_resets_scores_timer_ball press_enter
           (set_gameState (set_pause match_point true) MENU)); reflexivity.
Defined.

(* ------------------------------------------------------------------ *)
(** ** Timers *)

Lemma delay_after_range (t hi : Z) :
  (0 <= t <= hi)%Z -> (hi <= 1000)%Z -> (0 <= delay_after t <= hi)%Z.
Proof.
  intros H Hhi. unfold delay_after.
  destruct (t >? 0)%Z eqn:E; [| exact H].
  rewrite int_decr_small by (unfold INT_MIN, INT_MAX; lia). lia.
Qed.

(** The AI cooldown after [UpdateAI]: one less when it was running, or
    started afresh by a jump. *)
Lemma UpdateAI_cooldown (i : Input) (s : State) :
  aiJumpCooldown (UpdateAI i s) = delay_after (aiJumpCooldown s) \/
  aiJumpCooldown (UpdateAI i s) = AI_JUMP_COOLDOWN.
Proof.
  unfold UpdateAI, ai_jump, draw, delay_after.
  destruct (aiJumpCooldown s >? 0)%Z; split_ifs; auto.
Qed.

Lemma players_phase_cooldown (i : Input) (s : State) :
  aiJumpCooldown (players_phase i s) = aiJumpCooldown s \/
  aiJumpCooldown (players_phase i s) = delay_after (aiJumpCooldown s) \/
  aiJumpCooldown (players_phase i s) = AI_JUMP_COOLDOWN.
Proof.
  unfold players_phase. rewrite player_physics_players. fields.
  unfold UpdatePlayerControls, UpdateParticles. fields.
  destruct (gameMode s) eqn:E; fields; rewrite E; [| auto].
  match goal with |- context [UpdateAI i ?a] =>
    destruct (UpdateAI_cooldown i a) as [H | H]; rewrite H end; auto.
Qed.

Lemma timers_inv_step (i : Input) (s : State) :
  timers_inv s -> timers_inv (UpdateGame i s).
Proof.
  unfold timers_inv. intros (Hd & Hc).
  destruct (runs_physics_dec i s) as [Hr | Hn].
  - rewrite (UpdateGame_playing i s Hr).
    destruct (at_ground_rules i s) as (_ & _ & _ & _ & Ht).
    assert (Ha : (0 <= aiJumpCooldown (at_ground i s) <= AI_JUMP_COOLDOWN)%Z).
    { unfold at_ground, before_ground.
      destruct (ball_phase_keeps (players_phase i (enter_playing i s))) as (_ & _ & ->).
      assert (E : aiJumpCooldown (enter_playing i s) = aiJumpCooldown s)
        by (unfold enter_playing; split_ifs; reflexivity).
      pose proof (delay_after_range (aiJumpCooldown s) AI_JUMP_COOLDOWN Hc) as D.
      destruct (players_phase_cooldown i (enter_playing i s)) as [H | [H | H]];
        rewrite H, ?E; unfold AI_JUMP_COOLDOWN in *; lia. }
    pose proof (delay_after_range (scoreDelayTimer s) SCORE_DELAY_FRAMES Hd) as D.
    destruct (ball_ground_collision_quiet i (at_ground i s))
      as (_ & _ & _ & _ & q5 & _ & _ & q8 & _).
    revert q5 q8 Ht Ha. generalize (ball_ground_collision i (at_ground i s)).
    generalize (at_ground i s). intros g s' q5 q8 Ht Ha.
    rewrite q5. split; [| exact Ha].
    unfold SCORE_DELAY_FRAMES in *.
    destruct q8 as [q8 | (_ & q8)]; rewrite q8; lia.
  - destruct (quiet_frame i s Hn) as (_ & _ & _ & -> & -> & _). auto.
Qed.

Lemma reachable_timers_inv (s : State) : reachable s -> timers_inv s.
Proof.
  induction 1 as [| i s _ IH]; [| apply timers_inv_step, IH].
  unfold timers_inv, SCORE_DELAY_FRAMES, AI_JUMP_COOLDOWN. cbn. lia.
Qed.

(** X6.  In every state the program can reach the post-score delay timer
    lies between 0 and 120 frames and the AI's jump cooldown between 0
    and 30: the decrements never take either below zero. *)
Theorem timers_stay_in_range (s : State) :
  reachable s ->
  (0 <= scoreDelayTimer s <= SCORE_DELAY_FRAMES)%Z /\
  (0 <= aiJumpCooldown s <= AI_JUMP_COOLDOWN)%Z.
Proof. apply reachable_timers_inv. Qed.

Lemma timers_stay_in_range_witness :
  (0 <= scoreDelayTimer (UpdateGame press_enter initial_state) <= SCORE_DELAY_FRAMES)%Z /\
  (0 <= aiJumpCooldown (UpdateGame press_enter initial_state) <= AI_JUMP_COOLDOWN)%Z.
Proof.
  apply (timers_stay_in_range (UpdateGame press_enter initial_state)).
  apply reachable_step, reachable_init.
Defined.

(** X7.  While the cooldown is running (above 1 when [UpdateAI] is called)
    the AI does not jump: the call takes one off the cooldown, leaves
    player 2's vertical velocity and ground flag alone and draws no
    random number. *)
Theorem ai_waits_for_cooldown (i : Input) (s : State) :
  (1 < aiJumpCooldown s <= AI_JUMP_COOLDOWN)%Z ->
  let s' := UpdateAI i s in
  aiJumpCooldown s' = (aiJumpCooldown s - 1)%Z /\
  vec_y (Player.velocity (player2 s')) = vec_y (Player.velocity (player2 s)) /\
  vec_y (Player.position (player2 s')) = vec_y (Player.position (player2 s)) /\
  Player.onGround (player2 s') = Player.onGround (player2 s) /\
  rngCalls s' = rngCalls s.
Proof.
  unfold AI_JUMP_COOLDOWN. intros Hc. cbv zeta. unfold UpdateAI.
  assert (E1 : (aiJumpCooldown s >? 0)%Z = true) by lia.
  rewrite E1.
  rewrite int_decr_small by (unfold INT_MIN, INT_MAX; lia).
  fields.
  destruct (negb (ballComingToward (ball s))).
  - fields. unfold ai_return_to_center. split_ifs; auto.
  - unfold ai_jump. fields.
    assert (E2 : (aiJumpCooldown s - 1 =? 0)%Z = false) by lia.
    rewrite E2, andb_false_r. cbn [andb]. fields.
    unfold ai_move_toward. split_ifs; auto.
Qed.

Lemma ai_waits_for_cooldown_witness :
  let s := set_aiJumpCooldown ball_on_ai_side 30 in
  let s' := UpdateAI no_keys s in
  aiJumpCooldown s' = (aiJumpCooldown s - 1)%Z /\
  vec_y (Player.velocity (player2 s')) = vec_y (Player.velocity (player2 s)) /\
  vec_y (Player.position (player2 s')) = vec_y (Player.position (player2 s)) /\
  Player.onGround (player2 s') = Player.onGround (player2 s) /\
  rngCalls s' = rngCalls s.
Proof.
  apply (ai_waits_for_cooldown no_keys (set_aiJumpCooldown ball_on_ai_side 30)).
  unfold AI_JUMP_COOLDOWN. cbn. lia.
Defined.

(* ------------------------------------------------------------------ *)
(** ** The credits *)

Lemma credits_inv_step (i : Input) (s : State) :
  credits_inv s -> credits_inv (UpdateGame i s).
Proof.
  unfold credits_inv. change (IZR SCREEN_HEIGHT) with 768. intros H.
  destruct (runs_physics_dec i s) as [Hr | Hn].
  - destruct (physics_frame_keeps i s Hr) as (_ & _ & -> & _). exact H.
  - destruct (gameState s) eqn:Hg;
      [| rewrite (quiet_playing i s Hg Hn); unfold enter_playing;
         split_ifs; fields; exact H | |];
      unfold UpdateGame; fields; rewrite Hg.
    + unfold update_menu. split_ifs; unfold ResetBall; fields;
        change (IZR SCREEN_HEIGHT) with 768; lra.
    + unfold update_gameover. split_ifs; fields; exact H.
    + unfold update_credits. fields.
      destruct (Rle_dec (creditsScroll s - 2) (-800)) as [L | L].
      * rewrite (Rleb_true _ _ L). split_ifs; fields; lra.
      * rewrite (Rleb_false _ _) by lra. split_ifs; fields; lra.
Qed.

(** X8.  In every state the program can reach the credits scroll position
    lies between -800, where the scrolling stops, and the screen height
    768, where it starts. *)
Theorem credits_scroll_in_range (s : State) :
  reachable s -> -800 <= creditsScroll s <= IZR SCREEN_HEIGHT.
Proof.
  induction 1 as [| i s _ IH]; [| apply credits_inv_step, IH].
  change (IZR SCREEN_HEIGHT) with 768. cbn. lra.
Qed.

Lemma credits_scroll_in_range_witness :
  -800 <= creditsScroll (UpdateGame press_enter initial_state) <= IZR SCREEN_HEIGHT.
Proof.
  apply (credits_scroll_in_range (UpdateGame press_enter initial_state)).
  apply reachable_step, reachable_init.
Defined.

(* ------------------------------------------------------------------ *)
(** ** The players *)

Lemma grounded_body (p q : Player.t) : body q = body p -> grounded p -> grounded q.
Proof.
  unfold body, grounded. intros E. injection E as -> -> -> ->. tauto.
Qed.

Lemma settle_grounded (p : Player.t) : grounded (settle p).
Proof.
  destruct p as [[px py] [vx vy] r sd c sc og].
  unfold grounded, settle. consts. fields.
  split_ifs; rbool_hyps; fields; repeat split; intros; try discriminate; lra.
Qed.

Lemma settle_radius (p : Player.t) : Player.radius (settle p) = Player.radius p.
Proof. unfold settle. split_ifs; reflexivity. Qed.

Lemma controls1_radius (i : Input) (p : Player.t) :
  Player.radius (controls1 i p) = Player.radius p.
Proof. unfold controls1. split_ifs; reflexivity. Qed.

Lemma controls2_radius (i : Input) (p : Player.t) :
  Player.radius (controls2 i p) = Player.radius p.
Proof. unfold controls2. split_ifs; reflexivity. Qed.

Lemma controls2_clamped (i : Input) (p : Player.t) :
  Player.radius p = 50 ->
  567 <= vec_x (Player.position (controls2 i p)) <= 974 /\
  -4 <= vec_x (Player.velocity (controls2 i p)) <= 4.
Proof.
  destruct p as [[px py] [vx vy] r sd c sc og]. fields. intros ->.
  unfold controls2. consts.
  split_ifs; rbool_hyps; lra.
Qed.

(** Where the AI leaves player 2 before the physics step: the chase is
    clamped like a human player's move, the walk back to the middle of
    his half is not, and needs none. *)
Lemma UpdateAI_player2_x (i : Input) (s : State) :
  Player.radius (player2 s) = 50 ->
  563 <= vec_x (Player.position (player2 s)) <= 978 ->
  let q := player2 (UpdateAI i s) in
  Player.radius q = 50 /\
  563 <= vec_x (Player.position q) + vec_x (Player.velocity q) <= 978.
Proof.
  destruct s as [gs gm pa fc p1 [[px py] [vx vy] r sd c sc og] b ps cd sv dt ms cs ex mt rc].
  fields. intros -> Hx. cbv zeta.
  unfold UpdateAI. fields.
  destruct (cd >? 0)%Z; fields;
    (destruct (negb (ballComingToward b)); fields;
     [ unfold ai_return_to_center; consts; split_ifs; rbool_hyps; fields_hyps;
       split; lra
     | unfold ai_jump, draw; fields;
       match goal with |- context [ai_move_toward ?d ?p] =>
         assert (M : Player.radius (ai_move_toward d p) = 50 /\
                     563 <= vec_x (Player.position (ai_move_toward d p))
                            + vec_x (Player.velocity (ai_move_toward d p)) <= 978)
           by (unfold ai_move_toward; consts; split_ifs; rbool_hyps; fields_hyps;
               split; lra);
         generalize dependent (ai_move_toward d p)
       end;
       intros q M; split_ifs; exact M ]).
Qed.

(** Player 2 at ground contact: the AI or the second player's controls,
    then the physics step. *)
Lemma at_ground_player2 (i : Input) (s : State) :
  exists q : Player.t,
    player2 (at_ground i s) = settle q /\
    (Player.radius (player2 s) = 50 ->
     563 <= vec_x (Player.position (player2 s)) <= 978 ->
     Player.radius q = 50 /\
     563 <= vec_x (Player.position q) + vec_x (Player.velocity q) <= 978).
Proof.
  unfold at_ground, before_ground.
  destruct (ball_phase_moves_ball (players_phase i (enter_playing i s)))
    as (_ & _ & -> & _).
  destruct (enter_playing_fields i s) as (_ & _ & _ & _ & E & _).
  revert E. generalize (enter_playing i s). intros s0 E. rewrite <- E.
  unfold players_phase. rewrite player_physics_players. fields.
  unfold UpdatePlayerControls, UpdateParticles. fields.
  destruct (gameMode s0) eqn:M; fields; rewrite M.
  - eexists. split; [reflexivity |]. intros Hr Hx.
    apply UpdateAI_player2_x; assumption.
  - fields. eexists. split; [reflexivity |]. intros Hr Hx.
    rewrite controls2_radius. split; [exact Hr |].
    destruct (controls2_clamped i (player2 s0) Hr). lra.
Qed.

Lemma players_inv_step (i : Input) (s : State) :
  players_inv s -> players_inv (UpdateGame i s).
Proof.
  unfold players_inv, PLAYER_RADIUS. intros ((R1 & R2) & (X1 & X2) & G1 & G2).
  destruct (runs_physics_dec i s) as [Hr | Hn].
  - rewrite (UpdateGame_playing i s Hr).
    destruct (ball_ground_collision_quiet i (at_ground i s))
      as (_ & _ & _ & _ & _ & q6 & q7 & _).
    pose proof (at_ground_player1 i s) as P1.
    destruct (at_ground_player2 i s) as (q & P2 & Hq).
    destruct (Hq R2 X2) as (Rq & Xq). clear Hq.
    revert q6 q7 P1 P2. generalize (ball_ground_collision i (at_ground i s)).
    generalize (at_ground i s). intros g s' q6 q7 P1 P2.
    rewrite P1 in q6. rewrite P2 in q7.
    assert (B1 := q6). assert (B2 := q7).
    unfold body in q6, q7.
    injection q6 as a1 a2 a3 a4. injection q7 as b1 b2 b3 b4.
    rewrite a1, a3, b1, b3, !settle_radius, !settle_x, controls1_radius.
    destruct (controls1_clamped i (player1 s) R1) as (C1 & C2).
    split; [split; assumption |]. split; [split; lra |]. split.
    + eapply grounded_body; [exact B1 | apply settle_grounded].
    + eapply grounded_body; [exact B2 | apply settle_grounded].
  - destruct (quiet_frame i s Hn) as (q1 & q2 & _).
    assert (B1 := q1). assert (B2 := q2).
    unfold body in q1, q2.
    injection q1 as a1 a2 a3 a4. injection q2 as b1 b2 b3 b4.
    rewrite a1, a3, b1, b3.
    split; [split; assumption |]. split; [split; lra |]. split.
    + eapply grounded_body; [exact B1 | exact G1].
    + eapply grounded_body; [exact B2 | exact G2].
Qed.

Lemma reachable_players_inv (s : State) : reachable s -> players_inv s.
Proof.
  induction 1 as [| i s _ IH]; [| apply players_inv_step, IH].
  unfold players_inv, grounded, initial_state, InitGame, ResetBall, static_init.
  fields. consts. unfold vzero. fields.
  repeat split; intros; try discriminate; lra.
Qed.

(** X9.  In every state the program can reach, each player's circle is on
    his own side of the centerline, at least one unit away from it, and
    reaches at most 4 units beyond the screen edge: the second
    integration of the horizontal velocity never carries a player across
    the net, and the two players never touch. *)
Theorem players_never_cross_centerline (s : State) :
  reachable s ->
  let x1 := vec_x (Player.position (player1 s)) in
  let x2 := vec_x (Player.position (player2 s)) in
  -4 <= x1 - Player.radius (player1 s) /\
  x1 + Player.radius (player1 s) <= IZR NET_X - 1 /\
  IZR NET_X + 1 <= x2 - Player.radius (player2 s) /\
  x2 + Player.radius (player2 s) <= IZR SCREEN_WIDTH + 4.
Proof.
  intros Hr. destruct (reachable_players_inv s Hr) as ((R1 & R2) & (X1 & X2) & _).
  cbv zeta. rewrite R1, R2. consts. lra.
Qed.

Lemma players_never_cross_centerline_witness :
  let s := UpdateGame hold_A (UpdateGame press_enter initial_state) in
  let x1 := vec_x (Player.position (player1 s)) in
  let x2 := vec_x (Player.position (player2 s)) in
  -4 <= x1 - Player.radius (player1 s) /\
  x1 + Player.radius (player1 s) <= IZR NET_X - 1 /\
  IZR NET_X + 1 <= x2 - Player.radius (player2 s) /\
  x2 + Player.radius (player2 s) <= IZR SCREEN_WIDTH + 4.
Proof.
  apply (players_never_cross_centerline
           (UpdateGame hold_A (UpdateGame press_enter initial_state))).
  apply reachable_step, reachable_step, reachable_init.
Defined.

(** X10.  In every state the program can reach, neither player is below
    the ground line or falls faster than the maximum velocity, and the
    ground flag of a player is set exactly when he rests on the ground
    line, with zero vertical velocity. *)
Theorem players_stay_above_ground (s : State) :
  reachable s -> grounded (player1 s) /\ grounded (player2 s).
Proof.
  intros Hr. destruct (reachable_players_inv s Hr) as (_ & _ & G). exact G.
Qed.

Lemma players_stay_above_ground_witness :
  grounded (player1 (UpdateGame (press KEY_W) (UpdateGame press_enter initial_state))) /\
  grounded (player2 (UpdateGame (press KEY_W) (UpdateGame press_enter initial_state))).
Proof.
  apply (players_stay_above_ground
           (UpdateGame (press KEY_W) (UpdateGame press_enter initial_state))).
  apply reachable_step, reachable_step, reachable_init.
Defined.

(* ------------------------------------------------------------------ *)
(** ** The jump *)

Lemma INR_upper (n m : nat) : (n <= m)%nat -> INR n <= IZR (Z.of_nat m).
Proof. intros H. rewrite <- INR_IZR_INZ. apply le_INR, H. Qed.

Lemma INR_lower (n m : nat) : (m <= n)%nat -> IZR (Z.of_nat m) <= INR n.
Proof. intros H. rewrite <- INR_IZR_INZ. apply le_INR, H. Qed.

Lemma jumped_body (n : nat) (p q : Player.t) : body q = body p -> jumped n p -> jumped n q.
Proof.
  unfold body, jumped. intros E. injection E as -> -> -> ->. tauto.
Qed.

Lemma controls1_jump (i : Input) (p : Player.t) :
  IsKeyPressed i KEY_W = true ->
  Player.radius p = 50 ->
  vec_y (Player.position p) = 668 ->
  Player.onGround p = true ->
  jumped 0 (controls1 i p).
Proof.
  destruct p as [[px py] [vx vy] r sd c sc og]. fields. intros Hw -> -> ->.
  unfold jumped, jump_height, controls1. cbn [Nat.leb INR]. rewrite Hw. consts.
  split_ifs; repeat split; lra.
Qed.

Lemma controls1_airborne (i : Input) (n : nat) (p : Player.t) :
  (n <= 30)%nat -> jumped n p -> jumped n (controls1 i p).
Proof.
  intros Hn. unfold jumped. apply Nat.leb_le in Hn. rewrite Hn.
  destruct p as [[px py] [vx vy] r sd c sc og]. fields. intros (-> & -> & -> & ->).
  unfold controls1.
  destruct (IsKeyDown i KEY_A); [| destruct (IsKeyDown i KEY_D)]; fields;
    rewrite andb_false_r; split_ifs; repeat split.
Qed.

Lemma settle_jumped (n : nat) (p : Player.t) :
  (n <= 30)%nat -> jumped n p -> jumped (S n) (settle p).
Proof.
  intros Hn. unfold jumped. rewrite (proj2 (Nat.leb_le n 30) Hn).
  destruct p as [[px py] [vx vy] r sd c sc og]. fields. intros (-> & -> & -> & ->).
  unfold jump_height. rewrite S_INR.
  assert (H0 : 0 <= INR n) by apply pos_INR.
  assert (H30 : INR n <= 30) by (apply (INR_upper n 30), Hn).
  unfold settle, Rgtb, Rgeb. consts. fields.
  rewrite (Rltb_false 15) by lra. fields.
  destruct (Nat.eq_dec n 30) as [-> | Hne].
  - rewrite (INR_IZR_INZ 30) in *. change (IZR (Z.of_nat 30)) with 30 in *.
    cbn [Nat.leb].
    rewrite Rleb_true by lra. fields. repeat split; lra.
  - assert (H29 : INR n <= 29) by (apply (INR_upper n 29); lia).
    rewrite (proj2 (Nat.leb_le (S n) 30)) by lia.
    rewrite Rleb_false by nra. fields. repeat split; lra.
Qed.

(** Player 1's body after a frame that runs the physics. *)
Lemma UpdateGame_body1 (i : Input) (s : State) :
  runs_physics i s ->
  body (player1 (UpdateGame i s)) = body (settle (controls1 i (player1 s))).
Proof.
  intros Hr. rewrite (UpdateGame_playing i s Hr).
  destruct (ball_ground_collision_quiet i (at_ground i s))
    as (_ & _ & _ & _ & _ & q6 & _).
  pose proof (at_ground_player1 i s) as P1.
  revert q6 P1. generalize (ball_ground_collision i (at_ground i s)).
  generalize (at_ground i s). intros g s' q6 P1. rewrite q6, P1. reflexivity.
Qed.

Lemma jump_continues (rest : list Input) (n : nat) (s : State) :
  (n + length rest <= 31)%nat ->
  play rest s ->
  jumped n (player1 s) ->
  jumped (n + length rest) (player1 (run rest s)).
Proof.
  revert n s. induction rest as [| i rest IH]; intros n s Hn Hp Hj.
  - cbn [length run]. rewrite Nat.add_0_r. exact Hj.
  - cbn [length run] in *. destruct Hp as (Hr & Hp).
    rewrite <- Nat.add_succ_comm. apply IH; [lia | exact Hp |].
    eapply jumped_body; [apply (UpdateGame_body1 i s Hr) |].
    apply settle_jumped; [lia |]. apply controls1_airborne; [lia | exact Hj].
Qed.

(** X11.  Player 1 standing on the ground, W pressed, play going on: for
    the next 30 frames he is in the air whatever keys are pressed (no
    second jump), [jump_height n] above his standing height after [n]
    frames and never more than 96 units; the 31st frame puts him back on
    the ground. *)
Theorem jump_lasts_31_frames (i0 : Input) (rest : list Input) (s : State) :
  IsKeyPressed i0 KEY_W = true ->
  Player.radius (player1 s) = PLAYER_RADIUS ->
  vec_y (Player.position (player1 s)) + PLAYER_RADIUS = IZR GROUND_LEVEL ->
  Player.onGround (player1 s) = true ->
  play (i0 :: rest) s ->
  let n := S (length rest) in
  let p := player1 (run (i0 :: rest) s) in
  ((n <= 30)%nat ->
     vec_y (Player.position p) = IZR GROUND_LEVEL - PLAYER_RADIUS - jump_height n /\
     0 <= jump_height n <= 96 /\
     Player.onGround p = false) /\
  (n = 31%nat ->
     vec_y (Player.position p) = IZR GROUND_LEVEL - PLAYER_RADIUS /\
     Player.onGround p = true).
Proof.
  unfold PLAYER_RADIUS. rewrite IZR_GROUND_LEVEL.
  intros Hw Hrad Hy Hog (Hr & Hp). cbv zeta.
  assert (J1 : jumped 1 (player1 (UpdateGame i0 s))).
  { eapply jumped_body; [apply (UpdateGame_body1 i0 s Hr) |].
    apply settle_jumped; [lia |].
    apply controls1_jump; [exact Hw | exact Hrad | lra | exact Hog]. }
  cbn [run]. split; intros Hn.
  - pose proof (jump_continues rest 1 (UpdateGame i0 s) ltac:(lia) Hp J1) as (_ & J).
    cbn [Nat.add] in J. rewrite (proj2 (Nat.leb_le _ 30) Hn) in J.
    destruct J as (Jy & _ & Jg).
    split; [rewrite Jy; lra |]. split; [| exact Jg].
    unfold jump_height.
    assert (H1 : 1 <= INR (S (length rest)))
      by (apply (INR_lower _ 1); lia).
    assert (H30 : INR (S (length rest)) <= 30)
      by (apply (INR_upper _ 30), Hn).
    split; [nra |].
    destruct (Nat.le_gt_cases (S (length rest)) 15) as [L | L].
    + assert (INR (S (length rest)) <= 15)
        by (apply (INR_upper _ 15), L). nra.
    + assert (16 <= INR (S (length rest)))
        by (apply (INR_lower _ 16); lia). nra.
  - pose proof (jump_continues rest 1 (UpdateGame i0 s) ltac:(lia) Hp J1) as (_ & J).
    cbn [Nat.add] in J. rewrite Hn in J. cbn [Nat.leb] in J.
    destruct J as (Jy & _ & Jg). split; [rewrite Jy; lra | exact Jg].
Qed.

Lemma jump_lasts_31_frames_witness :
  let n := 1%nat in
  let p := player1 (run [press KEY_W] landing_left) in
  ((n <= 30)%nat ->
     vec_y (Player.position p) = IZR GROUND_LEVEL - PLAYER_RADIUS - jump_height n /\
     0 <= jump_height n <= 96 /\
     Player.onGround p = false) /\
  (n = 31%nat ->
     vec_y (Player.position p) = IZR GROUND_LEVEL - PLAYER_RADIUS /\
     Player.onGround p = true).
Proof.
  apply (jump_lasts_31_frames (press KEY_W) [] landing_left).
  - reflexivity.
  - reflexivity.
  - unfold landing_left, landing, court, PLAYER_RADIUS. fields. consts. lra.
  - reflexivity.
  - repeat split.
Defined.

(* ------------------------------------------------------------------ *)
(** ** The ball *)

Lemma UpdateBallTrail_ok (b : Ball.t) : trail_ok b -> trail_ok (UpdateBallTrail b).
Proof.
  unfold trail_ok, UpdateBallTrail, TRAIL_LENGTH. intros (L & C). fields.
  assert (L' : length (firstn 3 (Ball.position b :: Ball.trail b)) = 3%nat).
  { rewrite length_firstn. cbn [length]. rewrite L. reflexivity. }
  change (Z.of_nat 3) with 3%Z in *.
  destruct (Ball.trailCount b <? 3)%Z eqn:E; fields; split; try exact L'.
  - apply Z.ltb_lt in E.
    rewrite int_incr_small by (unfold INT_MIN, INT_MAX; lia). lia.
  - exact C.
Qed.

Lemma ball_trail_step_ok (f : Z) (b : Ball.t) :
  trail_ok b -> trail_ok (ball_trail_step f b).
Proof.
  unfold ball_trail_step. destruct (_ =? _)%Z; [apply UpdateBallTrail_ok | trivial].
Qed.

Lemma flight_trail_ok (f : Z) (b : Ball.t) : trail_ok b -> trail_ok (flight f b).
Proof.
  intros H. unfold flight.
  assert (H1 : trail_ok (ball_trail_step f (ball_integrate b))).
  { apply ball_trail_step_ok. exact H. }
  revert H1. generalize (ball_trail_step f (ball_integrate b)). intros b1 H1.
  assert (H2 : trail_ok (ball_wall_collision b1)).
  { unfold ball_wall_collision, trail_ok in *. split_ifs; exact H1. }
  revert H2. generalize (ball_wall_collision b1). intros b2 H2.
  unfold ball_net_collision, trail_ok in *. split_ifs; exact H2.
Qed.

Lemma hits_trail_ok (t : Z) (p : Player.t) (b : Ball.t) :
  trail_ok b -> trail_ok (hits t p b).
Proof. unfold hits. destruct (_ && _); trivial. Qed.

Lemma ResetBall_trail_ok (s : State) :
  length (Ball.trail (ball s)) = TRAIL_LENGTH -> trail_ok (ball (ResetBall s)).
Proof.
  intros H. rewrite ResetBall_ball. unfold trail_ok, TRAIL_LENGTH in *. fields.
  split; [exact H | lia].
Qed.

Lemma at_ground_radius (i : Input) (s : State) :
  Ball.radius (ball (at_ground i s)) = Ball.radius (ball s).
Proof.
  rewrite at_ground_ball. cbv zeta.
  rewrite !hits_radius, flight_radius. destruct (_ && _); [| reflexivity].
  rewrite ResetBall_ball. reflexivity.
Qed.

Lemma ball_inv_step (i : Input) (s : State) : ball_inv s -> ball_inv (UpdateGame i s).
Proof.
  unfold ball_inv. intros (Hr & Hy & Ht).
  destruct (runs_physics_dec i s) as [Hp | Hn].
  - rewrite (UpdateGame_playing i s Hp), ball_ground_collision_ball.
    assert (E : trail_ok (ball (at_ground i s))).
    { rewrite at_ground_ball. cbv zeta.
      apply hits_trail_ok, hits_trail_ok, flight_trail_ok.
      destruct (_ && _); [| exact Ht].
      apply ResetBall_trail_ok, Ht. }
    pose proof (at_ground_radius i s) as Er. rewrite Hr in Er.
    revert E Er. generalize (at_ground i s). intros g E Er.
    unfold touches_ground, Rgeb.
    destruct (IZR GROUND_LEVEL <=? _) eqn:T.
    + unfold ground_bounce. fields. split; [exact Er |]. split; [lra | exact E].
    + apply Rleb_nspec in T. split; [exact Er |]. split; [lra | exact E].
  - destruct (quiet_frame i s Hn) as (_ & _ & _ & _ & _ & _ & [-> | ->] & _).
    + auto.
    + split; [| split; [| apply ResetBall_trail_ok, Ht]];
        rewrite ResetBall_ball; fields; [exact Hr |].
      rewrite Hr. unfold BALL_RADIUS. consts. lra.
Qed.

Lemma reachable_ball_inv (s : State) : reachable s -> ball_inv s.
Proof.
  induction 1 as [| i s _ IH]; [| apply ball_inv_step, IH].
  unfold ball_inv, trail_ok, initial_state, InitGame, ResetBall, static_init.
  fields. unfold BALL_RADIUS, TRAIL_LENGTH. consts. cbn [repeat length Z.of_nat].
  repeat split; try lra; lia.
Qed.

(** X12.  In every state the program can reach, the ball has its radius of
    35 and its lowest point is on or above the ground line: a frame
    never ends with the ball sunk into the ground. *)
Theorem ball_never_below_ground (s : State) :
  reachable s ->
  Ball.radius (ball s) = BALL_RADIUS /\
  vec_y (Ball.position (ball s)) + Ball.radius (ball s) <= IZR GROUND_LEVEL.
Proof.
  intros Hr. destruct (reachable_ball_inv s Hr) as (H1 & H2 & _). auto.
Qed.

Lemma ball_never_below_ground_witness :
  Ball.radius (ball (UpdateGame no_keys (UpdateGame press_enter initial_state)))
    = BALL_RADIUS /\
  vec_y (Ball.position (ball (UpdateGame no_keys (UpdateGame press_enter initial_state))))
  + Ball.radius (ball (UpdateGame no_keys (UpdateGame press_enter initial_state)))
    <= IZR GROUND_LEVEL.
Proof.
  apply (ball_never_below_ground
           (UpdateGame no_keys (UpdateGame press_enter initial_state))).
  apply reachable_step, reachable_step, reachable_init.
Defined.

(** The loop reads inside the array and draws circles no larger and no
    more opaque than the first one. *)
Lemma DrawBallTrail_loop_ok (n i : nat) (b : Ball.t) :
  length (Ball.trail b) = TRAIL_LENGTH ->
  (i + n <= TRAIL_LENGTH)%nat ->
  0 <= Ball.radius b ->
  exists circles : list Circle,
    DrawBallTrail_loop i n b = Some circles /\
    length circles = n /\
    Forall (fun c => 0 < circle_alpha c <= 0.6 /\
                     Ball.radius b / 2 <= circle_radius c <= Ball.radius b)
           circles /\
    forall k : nat, (k < n)%nat ->
      option_map circle_centre (nth_error circles k) = nth_error (Ball.trail b) (i + k).
Proof.
  intros L. revert i. induction n as [| n IH]; intros i Hi Hr.
  - exists []. cbn. repeat split; [constructor | intros k Hk; lia].
  - cbn [DrawBallTrail_loop].
    destruct (nth_error (Ball.trail b) i) as [pos |] eqn:E;
      [| apply nth_error_None in E; lia].
    destruct (IH (S i)) as (cs & Ec & Lc & Fc & Nc); [lia | exact Hr |].
    rewrite Ec. cbn [option_map]. eexists. split; [reflexivity |].
    split; [cbn [length]; congruence |]. split.
    + constructor; [| exact Fc]. cbn [circle_alpha circle_radius].
      unfold TRAIL_LENGTH in *.
      assert (H0 : 0 <= INR i) by apply pos_INR.
      assert (H2 : INR i <= 2) by (apply (INR_upper i 2); lia).
      rewrite (INR_IZR_INZ 3). change (IZR (Z.of_nat 3)) with 3.
      split; [lra | nra].
    + intros [| k] Hk.
      * cbn [nth_error option_map circle_centre]. rewrite Nat.add_0_r. auto.
      * cbn [nth_error]. rewrite Nc by lia. f_equal. lia.
Qed.

(** X13.  In every state the program can reach, [DrawBallTrail] reads
    [ball.trail] inside its three entries: it draws one circle for each of
    the [trailCount] <= 3 stored positions, in order, each between half
    the ball's radius and its radius, with an opacity in (0, 0.6]. *)
Theorem trail_drawn_within_array (s : State) :
  reachable s ->
  (0 <= Ball.trailCount (ball s) <= Z.of_nat TRAIL_LENGTH)%Z /\
  length (Ball.trail (ball s)) = TRAIL_LENGTH /\
  exists circles : list Circle,
    DrawBallTrail (ball s) = Some circles /\
    length circles = Z.to_nat (Ball.trailCount (ball s)) /\
    Forall (fun c => 0 < circle_alpha c <= 0.6 /\
                     BALL_RADIUS / 2 <= circle_radius c <= BALL_RADIUS) circles /\
    forall k : nat, (k < length circles)%nat ->
      option_map circle_centre (nth_error circles k) = nth_error (Ball.trail (ball s)) k.
Proof.
  intros Hr. destruct (reachable_ball_inv s Hr) as (R & _ & L & C).
  split; [exact C |]. split; [exact L |].
  destruct (DrawBallTrail_loop_ok (Z.to_nat (Ball.trailCount (ball s))) 0 (ball s))
    as (cs & E & Lc & Fc & Nc).
  - exact L.
  - unfold TRAIL_LENGTH in *. lia.
  - rewrite R. unfold BALL_RADIUS. lra.
  - exists cs. rewrite R in Fc. unfold DrawBallTrail.
    split; [exact E |]. split; [exact Lc |]. split; [exact Fc |].
    intros k Hk. apply Nc. lia.
Qed.

Lemma trail_drawn_within_array_witness :
  let s := UpdateGame no_keys (UpdateGame press_enter initial_state) in
  (0 <= Ball.trailCount (ball s) <= Z.of_nat TRAIL_LENGTH)%Z /\
  length (Ball.trail (ball s)) = TRAIL_LENGTH /\
  exists circles : list Circle,
    DrawBallTrail (ball s) = Some circles /\
    length circles = Z.to_nat (Ball.trailCount (ball s)) /\
    Forall (fun c => 0 < circle_alpha c <= 0.6 /\
                     BALL_RADIUS / 2 <= circle_radius c <= BALL_RADIUS) circles /\
    forall k : nat, (k < length circles)%nat ->
      option_map circle_centre (nth_error circles k) = nth_error (Ball.trail (ball s)) k.
Proof.
  apply (trail_drawn_within_array
           (UpdateGame no_keys (UpdateGame press_enter initial_state))).
  apply reachable_step, reachable_step, reachable_init.
Defined.

(** X14.  The bounces off the side walls, the ceiling and the ground keep
    the ball's speed (the damping constant is 1), and the bounce off the
    net never raises it. *)
Theorem bounces_do_not_speed_up_ball (b : Ball.t) :
  norm (Ball.velocity (ball_wall_collision b)) = norm (Ball.velocity b) /\
  norm (Ball.velocity (ground_bounce b)) = norm (Ball.velocity b) /\
  norm (Ball.velocity (ball_net_collision b)) <= norm (Ball.velocity b).
Proof.
  destruct b as [[px py] [vx vy] r tr tc rot].
  unfold norm, ball_wall_collision, ground_bounce, ball_net_collision,
    BALL_BOUNCE_DAMPING.
  split; [| split].
  - split_ifs; f_equal; ring.
  - fields. f_equal. ring.
  - split_ifs; try apply Rle_refl; apply sqrt_le_1_alt; nra.
Qed.



(** X16.  The degenerate collision, the two centres in the same place:
    the normal is the zero vector, so the velocity is not reflected, only
    damped, added to and clamped, and the push puts the ball back on the
    player's centre. *)
Theorem hit_with_coinciding_centres (p : Player.t) (b : Ball.t) :
  Ball.position b = Player.position p ->
  collision_normal p b = vzero /\
  Ball.velocity (hit_ball p b) = clamp_speed (transfer p (Ball.velocity b)) /\
  Ball.position (hit_ball p b) = Player.position p.
Proof.
  intros E.
  assert (N : collision_normal p b = vzero).
  { unfold collision_normal, Rgtb, sqrtf. rewrite E.
    replace (_ * _ + _ * _) with 0 by ring.
    rewrite sqrt_0, Rltb_false by lra. unfold vzero. f_equal; ring. }
  split; [exact N |]. split.
  - unfold hit_ball. fields. rewrite N. unfold reflect, vzero. fields.
    do 2 f_equal. destruct (Ball.velocity b) as [vx vy]. fields. f_equal; ring.
  - rewrite hit_ball_position, N. unfold vzero. fields.
    destruct (Player.position p) as [x y]. fields. f_equal; ring.
Qed.

Lemma hit_with_coinciding_centres_witness :
  let p := Player.mk (mkVector2 256 668) vzero 50 LEFT BLUE 0 true in
  let b := Ball.mk (mkVector2 256 668) (mkVector2 0 10) 35 [] 0 0 in
  collision_normal p b = vzero /\
  Ball.velocity (hit_ball p b) = clamp_speed (transfer p (Ball.velocity b)) /\
  Ball.position (hit_ball p b) = Player.position p.
Proof.
  apply (hit_with_coinciding_centres
           (Player.mk (mkVector2 256 668) vzero 50 LEFT BLUE 0 true)
           (Ball.mk (mkVector2 256 668) (mkVector2 0 10) 35 [] 0 0)).
  reflexivity.
Defined.

(* ------------------------------------------------------------------ *)
(** ** The particles *)

Lemma update_particle_ok (p : Particle.t) : particle_ok p -> particle_ok (update_particle p).
Proof.
  unfold particle_ok, update_particle. intros H.
  destruct (Particle.active p) eqn:A; [| rewrite A; discriminate].
  destruct (H eq_refl) as (Ha & Hl). fields.
  destruct (Particle.life p - 0.02 <=? 0) eqn:E; [cbn [orb]; discriminate |].
  apply Rleb_nspec in E. cbn [orb].
  destruct (_ >? _); [discriminate |]. intros _. split; [reflexivity | lra].
Qed.

Lemma Forall_firstn_skipn {A : Type} (P : A -> Prop) (f : A -> A) (n : nat) (l : list A) :
  (forall a, P a -> P (f a)) ->
  Forall P l -> Forall P (map f (firstn n l) ++ skipn n l).
Proof.
  intros Hf H. apply Forall_app. split.
  - apply Forall_map. eapply Forall_impl; [exact Hf |]. apply firstn_Forall, H.
  - apply skipn_Forall, H.
Qed.

Lemma UpdateParticles_inv (s : State) :
  length (particles s) = MAX_PARTICLES -> Forall particle_ok (particles s) ->
  length (particles (UpdateParticles s)) = MAX_PARTICLES /\
  Forall particle_ok (particles (UpdateParticles s)).
Proof.
  intros L F. unfold UpdateParticles. fields. split.
  - rewrite length_app, length_map, <- length_app, firstn_skipn. exact L.
  - apply Forall_firstn_skipn; [apply update_particle_ok | exact F].
Qed.

Lemma claim_slot_Forall (P : Particle.t -> Prop) (fresh : Particle.t)
  (ps ps' : list Particle.t) :
  P fresh -> Forall P ps -> claim_slot fresh ps = Some ps' -> Forall P ps'.
Proof.
  intros Hf. revert ps'. induction ps as [| p rest IH]; intros ps' F E; cbn in E.
  - discriminate.
  - inversion F as [| ? ? Hp Hrest]; subst.
    destruct (Particle.active p).
    + destruct (claim_slot fresh rest) as [r |]; [| discriminate].
      injection E as <-. constructor; [exact Hp | apply IH; auto].
    + injection E as <-. constructor; assumption.
Qed.

Lemma spawn_one_ok (i : Input) (pos : Vector2) (s : State) :
  Forall particle_ok (particles s) -> Forall particle_ok (particles (spawn_one i pos s)).
Proof.
  intros F. unfold spawn_one.
  destruct (claim_slot _ _) as [ps |] eqn:E; [| exact F]. fields.
  apply Forall_app. split; [| apply skipn_Forall, F].
  eapply claim_slot_Forall; [| apply firstn_Forall, F | exact E].
  unfold particle_ok. fields. intros _. split; [reflexivity | lra].
Qed.

Lemma spawn_loop_inv (i : Input) (pos : Vector2) (n : nat) (s : State) :
  particles_inv s -> particles_inv (spawn_loop i pos n s).
Proof.
  revert s. induction n as [| n IH]; intros s H; cbn [spawn_loop]; [exact H |].
  apply IH. destruct H as (L & F). split.
  - apply (spawn_one_count i pos s L).
  - apply spawn_one_ok, F.
Qed.

Lemma ball_ground_collision_particles (i : Input) (g : State) :
  particles_inv g -> particles_inv (ball_ground_collision i g).
Proof.
  intros H. unfold ball_ground_collision.
  destruct (touches_ground (ball g)); [| exact H]. cbv zeta.
  set (g1 := set_ball g (ground_bounce (ball g))).
  assert (H1 : particles_inv g1) by exact H.
  clearbody g1.
  assert (H2 : particles_inv (SpawnGroundParticles i
                 (mkVector2 (vec_x (Ball.position (ball g1))) (IZR GROUND_LEVEL)) 15 g1))
    by (apply spawn_loop_inv, H1).
  revert H2. generalize (SpawnGroundParticles i
                 (mkVector2 (vec_x (Ball.position (ball g1))) (IZR GROUND_LEVEL)) 15 g1).
  intros g2 H2.
  destruct (scoreDelayTimer g2 =? 0)%Z; [| exact H2].
  unfold resolve_score, particles_inv. split_ifs; exact H2.
Qed.

Lemma particles_inv_step (i : Input) (s : State) :
  particles_inv s -> particles_inv (UpdateGame i s).
Proof.
  intros H.
  destruct (runs_physics_dec i s) as [Hp | Hn].
  - rewrite (UpdateGame_playing i s Hp).
    apply ball_ground_collision_particles.
    unfold at_ground, before_ground, particles_inv.
    destruct (ball_phase_moves_ball (players_phase i (enter_playing i s)))
      as (_ & _ & _ & -> & _).
    destruct (players_phase_keeps i (enter_playing i s)) as (_ & _ & ->).
    apply UpdateParticles_inv;
      unfold enter_playing; split_ifs; apply H.
  - unfold particles_inv.
    destruct (quiet_frame i s Hn) as (_ & _ & -> & _). exact H.
Qed.

Lemma reachable_particles_inv (s : State) : reachable s -> particles_inv s.
Proof.
  induction 1 as [| i s _ IH]; [| apply particles_inv_step, IH].
  split; [apply repeat_length |].
  change (particles initial_state) with (repeat Particle.zero MAX_PARTICLES).
  apply Forall_forall. intros p Hp. apply repeat_spec in Hp. subst p.
  unfold particle_ok. cbn. discriminate.
Qed.

(** X17.  In every state the program can reach the particle pool has its
    100 slots, and every circle [DrawParticles] draws has a radius in
    (0, 3] and an opacity in (0, 1], a third of the radius: an active
    particle's life is positive, at most 1, and equal to its opacity. *)
Theorem particles_drawn_are_alive (s : State) :
  reachable s ->
  length (particles s) = MAX_PARTICLES /\
  (length (DrawParticles s) <= MAX_PARTICLES)%nat /\
  Forall (fun c => 0 < circle_radius c <= 3 /\ 0 < circle_alpha c <= 1 /\
                   circle_radius c = 3 * circle_alpha c)
         (DrawParticles s).
Proof.
  intros Hr. destruct (reachable_particles_inv s Hr) as (L & F).
  split; [exact L |]. unfold DrawParticles. split.
  - rewrite length_map.
    eapply Nat.le_trans; [apply filter_length_le |].
    rewrite length_firstn. lia.
  - apply Forall_map, Forall_forall. intros p Hp.
    apply filter_In in Hp. destruct Hp as (Hin & Ha).
    cbn [circle_radius circle_alpha].
    assert (Hin' : In p (particles s)).
    { rewrite <- (firstn_skipn MAX_PARTICLES). apply in_or_app. left. exact Hin. }
    rewrite Forall_forall in F. destruct (F p Hin' Ha) as (-> & Hl). lra.
Qed.

Lemma particles_drawn_are_alive_witness :
  let s := UpdateGame no_keys (UpdateGame press_enter initial_state) in
  length (particles s) = MAX_PARTICLES /\
  (length (DrawParticles s) <= MAX_PARTICLES)%nat /\
  Forall (fun c => 0 < circle_radius c <= 3 /\ 0 < circle_alpha c <= 1 /\
                   circle_radius c = 3 * circle_alpha c)
         (DrawParticles s).
Proof.
  apply (particles_drawn_are_alive
           (UpdateGame no_keys (UpdateGame press_enter initial_state))).
  apply reachable_step, reachable_step, reachable_init.
Defined.

Lemma update_particle_inactive (p : Particle.t) :
  Particle.active p = false -> update_particle p = p.
Proof. intros H. unfold update_particle. rewrite H. reflexivity. Qed.

Lemma update_particle_iter_inactive (n : nat) (p : Particle.t) :
  Particle.active p = false -> Nat.iter n update_particle p = p.
Proof.
  intros A. induction n as [| n IH]; [reflexivity |].
  rewrite Nat.iter_succ, IH. apply update_particle_inactive, A.
Qed.

Lemma update_particle_life (p : Particle.t) :
  Particle.active (update_particle p) = true ->
  Particle.active p = true /\
  Particle.life (update_particle p) = Particle.life p - 0.02.
Proof.
  unfold update_particle. destruct (Particle.active p) eqn:A.
  - fields. intros _. auto.
  - rewrite A. discriminate.
Qed.

Lemma particle_life_after (n : nat) (p : Particle.t) :
  Particle.active (Nat.iter n update_particle p) = true ->
  Particle.life (Nat.iter n update_particle p) = Particle.life p - 0.02 * INR n.
Proof.
  induction n as [| n IH]; intros H.
  - cbn [Nat.iter nat_rect INR]. lra.
  - rewrite Nat.iter_succ in *. destruct (update_particle_life _ H) as (A & ->).
    rewrite (IH A), S_INR. lra.
Qed.

Lemma particle_ok_iter (n : nat) (p : Particle.t) :
  particle_ok p -> particle_ok (Nat.iter n update_particle p).
Proof.
  intros H. induction n as [| n IH]; [exact H |].
  rewrite Nat.iter_succ. apply update_particle_ok, IH.
Qed.

Lemma UpdateParticles_iter (n : nat) (s : State) :
  length (particles s) = MAX_PARTICLES ->
  particles (Nat.iter n UpdateParticles s) = map (Nat.iter n update_particle) (particles s).
Proof.
  intros L. induction n as [| n IH].
  - cbn [Nat.iter nat_rect]. symmetry. apply map_id.
  - rewrite !Nat.iter_succ. unfold UpdateParticles at 1. fields. rewrite IH.
    rewrite firstn_all2, skipn_all2 by (rewrite length_map, L; apply Nat.le_refl).
    rewrite app_nil_r, map_map. reflexivity.
Qed.

(** X18.  A ground particle lives for at most 50 frames: from any state the
    program can reach, 50 calls of [UpdateParticles] leave no particle
    active (each call takes 0.02 off a life that is at most 1). *)
Theorem particles_die_within_50_frames (s : State) :
  reachable s ->
  Forall (fun p => Particle.active p = false)
         (particles (Nat.iter 50 UpdateParticles s)).
Proof.
  intros Hr. destruct (reachable_particles_inv s Hr) as (L & F).
  rewrite (UpdateParticles_iter 50 s L).
  apply Forall_map. eapply Forall_impl; [| exact F].
  intros p Hp.
  destruct (Particle.active (Nat.iter 50 update_particle p)) eqn:A; [| reflexivity].
  exfalso.
  pose proof (particle_life_after 50 p A) as E.
  destruct (particle_ok_iter 50 p Hp A) as (_ & H50).
  assert (A0 : Particle.active p = true).
  { destruct (Particle.active p) eqn:A0; [reflexivity |].
    rewrite (update_particle_iter_inactive 50 p A0) in A. congruence. }
  destruct (Hp A0) as (_ & H0).
  rewrite (INR_IZR_INZ 50) in E. change (IZR (Z.of_nat 50)) with 50 in E. lra.
Qed.

Lemma particles_die_within_50_frames_witness :
  Forall (fun p => Particle.active p = false)
         (particles (Nat.iter 50 UpdateParticles
                       (UpdateGame no_keys (UpdateGame press_enter initial_state)))).
Proof.
  apply (particles_die_within_50_frames
           (UpdateGame no_keys (UpdateGame press_enter initial_state))).
  apply reachable_step, reachable_step, reachable_init.
Defined.

(* ------------------------------------------------------------------ *)
(** ** What is drawn: winner, clock, shadows *)

(** X19.  When a frame ends the match, exactly one player has the win
    score of 10, reached in that frame from 9, the other player has
    fewer, and the announcement of the game-over screen names the player
    with 10. *)
Theorem game_over_names_the_winner (i : Input) (s : State) :
  score_inv s ->
  gameState s <> GAMEOVER ->
  gameState (UpdateGame i s) = GAMEOVER ->
  let s' := UpdateGame i s in
  (winner s' = PLAYER_1_WINS /\ score1 s' = WIN_SCORE /\ score1 s = 9%Z /\
   score2 s' = score2 s /\ (score2 s' < WIN_SCORE)%Z) \/
  (winner s' = PLAYER_2_WINS /\ score2 s' = WIN_SCORE /\ score2 s = 9%Z /\
   score1 s' = score1 s /\ (score1 s' < WIN_SCORE)%Z).
Proof.
  intros (H1 & H2 & H3) Hg Hover. cbv zeta.
  destruct (H3 Hg) as (L1 & L2).
  destruct (gameState s) eqn:G; try congruence.
  - destruct (menu_frame_scores i s G) as (_ & N & _). congruence.
  - destruct (runs_physics_dec i s) as [Hr | Hn].
    + destruct (playing_frame_cases i s Hr) as [(_ & _ & E) | (Hs & E)];
        [congruence |].
      rewrite Hover in E. unfold winner. fold (score1 (UpdateGame i s)).
      unfold WIN_SCORE in *.
      destruct Hs as [(E1 & E2) | (E1 & E2)];
        rewrite int_incr_score in E1 by (unfold WIN_SCORE; lia);
        rewrite E1, E2 in *.
      * left.
        destruct (score1 s + 1 >=? 10)%Z eqn:C1;
          [| destruct (score2 s >=? 10)%Z eqn:C2; [lia | rewrite G in E; discriminate]].
        repeat split; lia.
      * right.
        destruct (score1 s >=? 10)%Z eqn:C1; [lia |].
        destruct (score2 s + 1 >=? 10)%Z eqn:C2; [| rewrite G in E; discriminate].
        repeat split; lia.
    + destruct (idle_playing_frame i s G Hn) as (_ & _ & N). congruence.
  - destruct (credits_frame_scores i s G) as (_ & _ & [E | E]); congruence.
Qed.

Lemma game_over_names_the_winner_witness :
  let s' := UpdateGame no_keys match_point in
  (winner s' = PLAYER_1_WINS /\ score1 s' = WIN_SCORE /\ score1 match_point = 9%Z /\
   score2 s' = score2 match_point /\ (score2 s' < WIN_SCORE)%Z) \/
  (winner s' = PLAYER_2_WINS /\ score2 s' = WIN_SCORE /\ score2 match_point = 9%Z /\
   score1 s' = score1 match_point /\ (score1 s' < WIN_SCORE)%Z).
Proof.
  apply (game_over_names_the_winner no_keys match_point).
  - unfold score_inv, score1, score2, WIN_SCORE, match_point, landing, court. fields.
    repeat split; lia.
  - discriminate.
  - apply match_point_ends_match.
Defined.

(** X20.  The clock of [DrawScore], for a match timer that has not
    overflowed: the seconds printed are between 0 and 59, and minutes and
    seconds together are the number of whole seconds (60 frames each) the
    timer has counted. *)
Theorem clock_shows_elapsed_seconds (s : State) :
  (0 <= matchTimer s)%Z ->
  let '(minutes, seconds) := DrawScore_timer s in
  (0 <= minutes)%Z /\ (0 <= seconds < 60)%Z /\
  (60 * (60 * minutes + seconds) <= matchTimer s < 60 * (60 * minutes + seconds) + 60)%Z.
Proof.
  intros H. unfold DrawScore_timer.
  rewrite (Z.quot_div_nonneg (matchTimer s) 60) by lia.
  assert (0 <= matchTimer s / 60)%Z by (apply Z.div_pos; lia).
  rewrite Z.quot_div_nonneg, Z.rem_mod_nonneg by lia.
  pose proof (Z.div_mod (matchTimer s) 60 ltac:(lia)) as D1.
  pose proof (Z.mod_pos_bound (matchTimer s) 60 ltac:(lia)) as B1.
  pose proof (Z.div_mod (matchTimer s / 60) 60 ltac:(lia)) as D2.
  pose proof (Z.mod_pos_bound (matchTimer s / 60) 60 ltac:(lia)) as B2.
  assert (0 <= matchTimer s / 60 / 60)%Z by (apply Z.div_pos; lia).
  cbv beta iota zeta. lia.
Qed.

Lemma clock_shows_elapsed_seconds_witness :
  let '(minutes, seconds) := DrawScore_timer (set_matchTimer initial_state 4000) in
  (0 <= minutes)%Z /\ (0 <= seconds < 60)%Z /\
  (60 * (60 * minutes + seconds) <= matchTimer (set_matchTimer initial_state 4000)
   < 60 * (60 * minutes + seconds) + 60)%Z.
Proof.
  apply (clock_shows_elapsed_seconds (set_matchTimer initial_state 4000)).
  cbn. lia.
Defined.

Lemma shadowScale_grounded (p : Player.t) :
  grounded p -> 0 <= Player.radius p ->
  0.4 <= shadowScale p <= 1 /\
  (Player.onGround p = true -> shadowScale p = 1) /\
  (Player.onGround p = false -> shadowScale p < 1).
Proof.
  unfold grounded, shadowScale, Rgtb. intros (Hy & _ & Ht & Hf) Hr.
  set (h := IZR GROUND_LEVEL - vec_y (Player.position p) - Player.radius p) in *.
  assert (H0 : 0 <= h) by (unfold h; lra).
  destruct (1 - h / 200 <? 0.4) eqn:E1; rbool_hyps.
  - rewrite Rltb_false by lra. split; [lra |]. split; intros Hg; [| lra].
    destruct (Ht Hg) as (Hy' & _). unfold h in *. lra.
  - rewrite Rltb_false by lra. split; [lra |]. split; intros Hg.
    + destruct (Ht Hg) as (Hy' & _). unfold h. lra.
    + specialize (Hf Hg). unfold h. lra.
Qed.

(** X21.  In every state the program can reach, the shadow [DrawPlayerShadow]
    draws under a player has a scale between 0.4 and 1 and an opacity
    between 0.12 and 0.3, and it has full size exactly when the player's
    ground flag is set. *)
Theorem shadow_full_size_on_ground (s : State) :
  reachable s ->
  forall p : Player.t, p = player1 s \/ p = player2 s ->
  0.4 <= shadowScale p <= 1 /\
  0.12 <= shadowAlpha p <= 0.3 /\
  (Player.onGround p = true <-> shadowScale p = 1).
Proof.
  intros Hr p Hp.
  destruct (reachable_players_inv s Hr) as ((R1 & R2) & _ & G1 & G2).
  assert (G : grounded p /\ 0 <= Player.radius p).
  { unfold PLAYER_RADIUS in *. destruct Hp as [-> | ->]; split; auto; lra. }
  destruct G as (G & R).
  destruct (shadowScale_grounded p G R) as (B & T & F).
  split; [exact B |]. split; [unfold shadowAlpha; lra |].
  split; [exact T |]. intros E.
  destruct (Player.onGround p); [reflexivity |]. specialize (F eq_refl). lra.
Qed.

Lemma shadow_full_size_on_ground_witness :
  let p := player1 (UpdateGame (press KEY_W) (UpdateGame press_enter initial_state)) in
  0.4 <= shadowScale p <= 1 /\
  0.12 <= shadowAlpha p <= 0.3 /\
  (Player.onGround p = true <-> shadowScale p = 1).
Proof.
  apply (shadow_full_size_on_ground
           (UpdateGame (press KEY_W) (UpdateGame press_enter initial_state))).
  - apply reachable_step, reachable_step, reachable_init.
  - left. reflexivity.
Defined.

(* ------------------------------------------------------------------ *)
(** ** The keys a single-player match reads *)

Lemma controls1_keys (i i' : Input) (p : Player.t) :
  IsKeyDown i KEY_A = IsKeyDown i' KEY_A ->
  IsKeyDown i KEY_D = IsKeyDown i' KEY_D ->
  IsKeyPressed i KEY_W = IsKeyPressed i' KEY_W ->
  controls1 i p = controls1 i' p.
Proof. unfold controls1. intros -> -> ->. reflexivity. Qed.

Lemma UpdateAI_rnd (i i' : Input) (s : State) :
  (forall n : nat, rnd i n = rnd i' n) -> UpdateAI i s = UpdateAI i' s.
Proof.
  intros H. unfold UpdateAI, ai_jump, draw. rewrite !H. reflexivity.
Qed.

Lemma spawn_one_rnd (i i' : Input) (pos : Vector2) (s : State) :
  (forall n : nat, rnd i n = rnd i' n) -> spawn_one i pos s = spawn_one i' pos s.
Proof. intros H. unfold spawn_one. rewrite !H. reflexivity. Qed.

Lemma spawn_loop_rnd (i i' : Input) (pos : Vector2) (n : nat) (s : State) :
  (forall n : nat, rnd i n = rnd i' n) -> spawn_loop i pos n s = spawn_loop i' pos n s.
Proof.
  intros H. revert s. induction n as [| n IH]; intros s; cbn [spawn_loop]; [reflexivity |].
  rewrite (spawn_one_rnd i i' pos s H). apply IH.
Qed.

Lemma ball_ground_collision_rnd (i i' : Input) (g : State) :
  (forall n : nat, rnd i n = rnd i' n) ->
  ball_ground_collision i g = ball_ground_collision i' g.
Proof.
  intros H. unfold ball_ground_collision, SpawnGroundParticles.
  destruct (touches_ground (ball g)); [| reflexivity].
  cbv zeta. rewrite (spawn_loop_rnd i i' _ _ _ H). reflexivity.
Qed.

Lemma players_phase_single (i i' : Input) (s : State) :
  gameMode s = SINGLE_PLAYER ->
  same_single_player_input i i' ->
  players_phase i s = players_phase i' s.
Proof.
  intros Hm (_ & _ & Hw & Ha & Hd & Hr).
  unfold players_phase, UpdatePlayerControls, UpdateParticles. fields.
  rewrite Hm. fields. rewrite Hm.
  rewrite (controls1_keys i i' _ Ha Hd Hw).
  rewrite (UpdateAI_rnd i i' _ Hr). reflexivity.
Qed.

(** X22.  A frame of a single-player match reads the keys P, Escape, W, A
    and D and the random source, and nothing else of the input: the arrow
    keys and ENTER have no effect on it. *)
Theorem single_player_ignores_arrow_keys (i i' : Input) (s : State) :
  gameState s = PLAYING ->
  gameMode s = SINGLE_PLAYER ->
  same_single_player_input i i' ->
  UpdateGame i s = UpdateGame i' s.
Proof.
  intros Hg Hm Hs.
  assert (Hs' := Hs). destruct Hs' as (Hp & He & _ & _ & _ & Hr).
  unfold UpdateGame. fields. rewrite Hg.
  unfold update_playing. rewrite Hp, He.
  destruct (IsKeyPressed i' KEY_ESCAPE); [reflexivity |].
  set (s1 := if IsKeyPressed i' KEY_P then _ else _).
  assert (Hm1 : gameMode s1 = SINGLE_PLAYER)
    by (subst s1; destruct (IsKeyPressed i' KEY_P); fields; exact Hm).
  clearbody s1.
  destruct (negb (pause s1)); [| reflexivity].
  unfold playing_frame, before_ground.
  rewrite (players_phase_single i i' s1 Hm1 Hs).
  apply ball_ground_collision_rnd, Hr.
Qed.

Lemma single_player_ignores_arrow_keys_witness :
  UpdateGame no_keys ball_on_ai_side = UpdateGame arrows_and_enter ball_on_ai_side.
Proof.
  apply (single_player_ignores_arrow_keys no_keys arrows_and_enter ball_on_ai_side).
  - reflexivity.
  - reflexivity.
  - repeat split.
Defined.

(* ------------------------------------------------------------------ *)
(** ** Menu navigation, the game-over screen and the credits *)

(** X23.  In the menu DOWN moves the selection one option down and UP one
    option up, both wrapping around the four options, so that UP undoes
    DOWN; the game stays in the menu. *)
Theorem menu_navigation_wraps_around (up down : Input) (s : State) :
  gameState s = MENU ->
  (0 <= menuSelection s <= 3)%Z ->
  IsKeyPressed up KEY_UP = true -> IsKeyPressed up KEY_DOWN = false ->
  IsKeyPressed up KEY_ENTER = false ->
  IsKeyPressed down KEY_DOWN = true -> IsKeyPressed down KEY_UP = false ->
  IsKeyPressed down KEY_ENTER = false ->
  (menuSelection (UpdateGame down s) = (menuSelection s + 1) mod 4 /\
   gameState (UpdateGame down s) = MENU)%Z /\
  (menuSelection (UpdateGame up s) = (menuSelection s - 1) mod 4 /\
   gameState (UpdateGame up s) = MENU)%Z /\
  menuSelection (UpdateGame up (UpdateGame down s)) = menuSelection s.
Proof.
  intros Hg Hm U1 U2 U3 D1 D2 D3.
  assert (Down : forall t : State, gameState t = MENU -> (0 <= menuSelection t <= 3)%Z ->
            (menuSelection (UpdateGame down t) = (menuSelection t + 1) mod 4 /\
             gameState (UpdateGame down t) = MENU)%Z).
  { intros t Tg Tm. unfold UpdateGame. fields. rewrite Tg.
    unfold update_menu. rewrite D1, D2, D3. fields.
    rewrite int_incr_small by (unfold INT_MIN, INT_MAX; lia).
    destruct (menuSelection t + 1 >? 3)%Z eqn:E; fields; split; try exact Tg.
    - assert (menuSelection t = 3)%Z by lia. replace (menuSelection t) with 3%Z.
      reflexivity.
    - rewrite Z.mod_small; lia. }
  assert (Up : forall t : State, gameState t = MENU -> (0 <= menuSelection t <= 3)%Z ->
            (menuSelection (UpdateGame up t) = (menuSelection t - 1) mod 4 /\
             gameState (UpdateGame up t) = MENU)%Z).
  { intros t Tg Tm. unfold UpdateGame. fields. rewrite Tg.
    unfold update_menu. rewrite U1, U2, U3. fields.
    rewrite int_decr_small by (unfold INT_MIN, INT_MAX; lia).
    destruct (menuSelection t - 1 <? 0)%Z eqn:E; fields; split; try exact Tg.
    - assert (menuSelection t = 0)%Z by lia. replace (menuSelection t) with 0%Z.
      reflexivity.
    - rewrite Z.mod_small; lia. }
  destruct (Down s Hg Hm) as (Ed & Gd).
  split; [auto |]. split; [auto |].
  destruct (Up (UpdateGame down s) Gd) as (Eu & _).
  { rewrite Ed. pose proof (Z.mod_pos_bound (menuSelection s + 1) 4). lia. }
  rewrite Eu, Ed.
  assert (C : (menuSelection s = 0 \/ menuSelection s = 1 \/
               menuSelection s = 2 \/ menuSelection s = 3)%Z) by lia.
  destruct C as [-> | [-> | [-> | ->]]]; reflexivity.
Qed.

Lemma menu_navigation_wraps_around_witness :
  (menuSelection (UpdateGame (press KEY_DOWN) initial_state)
     = (menuSelection initial_state + 1) mod 4 /\
   gameState (UpdateGame (press KEY_DOWN) initial_state) = MENU)%Z /\
  (menuSelection (UpdateGame (press KEY_UP) initial_state)
     = (menuSelection initial_state - 1) mod 4 /\
   gameState (UpdateGame (press KEY_UP) initial_state) = MENU)%Z /\
  menuSelection (UpdateGame (press KEY_UP) (UpdateGame (press KEY_DOWN) initial_state))
    = menuSelection initial_state.
Proof.
  apply (menu_navigation_wraps_around (press KEY_UP) (press KEY_DOWN) initial_state);
    try reflexivity.
  cbn. lia.
Defined.

Lemma gameover_frame (i : Input) (s : State) :
  gameState s = GAMEOVER -> IsKeyPressed i KEY_ENTER = false ->
  UpdateGame i s = set_framesCounter s (int_incr (framesCounter s)).
Proof.
  intros Hg He. unfold UpdateGame. fields. rewrite Hg.
  unfold update_gameover. rewrite He. reflexivity.
Qed.

(** X24.  The game-over screen stays, with the final scores and every
    other global but the frame counter unchanged, for as many frames as
    ENTER is not pressed; ENTER leads to the menu, first option selected,
    with both scores and the match timer back at 0. *)
Theorem game_over_waits_for_enter (inputs : list Input) (s : State) :
  gameState s = GAMEOVER ->
  Forall (fun i => IsKeyPressed i KEY_ENTER = false) inputs ->
  run inputs s = set_framesCounter s (frames_later (length inputs) (framesCounter s)) /\
  forall i : Input, IsKeyPressed i KEY_ENTER = true ->
    let s' := UpdateGame i (run inputs s) in
    gameState s' = MENU /\ menuSelection s' = 0%Z /\
    score1 s' = 0%Z /\ score2 s' = 0%Z /\ matchTimer s' = 0%Z.
Proof.
  intros Hg Hi.
  assert (R : run inputs s =
              set_framesCounter s (frames_later (length inputs) (framesCounter s))).
  { revert s Hg. induction Hi as [| i rest Hi _ IH]; intros s Hg.
    - cbn. symmetry. apply set_framesCounter_same.
    - cbn [run length]. rewrite (gameover_frame i s Hg Hi).
      rewrite IH by (fields; assumption).
      unfold frames_later. rewrite Nat.iter_succ_r. fields. reflexivity. }
  split; [exact R |].
  intros i He. rewrite R. cbv zeta. unfold UpdateGame. fields. rewrite Hg.
  unfold update_gameover. fields. rewrite He. unfold score1, score2. fields.
  repeat split.
Qed.

Lemma game_over_waits_for_enter_witness :
  let s := UpdateGame no_keys match_point in
  run [no_keys; hold_A] s
  = set_framesCounter s (frames_later (length [no_keys; hold_A]) (framesCounter s)) /\
  forall i : Input, IsKeyPressed i KEY_ENTER = true ->
    let s' := UpdateGame i (run [no_keys; hold_A] s) in
    gameState s' = MENU /\ menuSelection s' = 0%Z /\
    score1 s' = 0%Z /\ score2 s' = 0%Z /\ matchTimer s' = 0%Z.
Proof.
  apply (game_over_waits_for_enter [no_keys; hold_A] (UpdateGame no_keys match_point)).
  - apply match_point_ends_match.
  - repeat constructor.
Defined.

Lemma credits_frame (i : Input) (s : State) :
  gameState s = CREDITS ->
  IsKeyPressed i KEY_ENTER = false -> IsKeyPressed i KEY_ESCAPE = false ->
  gameState (UpdateGame i s) = CREDITS /\
  creditsScroll (UpdateGame i s) = Rmax (creditsScroll s - 2) (-800).
Proof.
  intros Hg H1 H2. unfold UpdateGame. fields. rewrite Hg.
  unfold update_credits. rewrite H1, H2. fields.
  destruct (Rle_dec (creditsScroll s - 2) (-800)) as [L | L].
  - rewrite (Rleb_true _ _ L). fields. split; [exact Hg |].
    rewrite Rmax_right; lra.
  - rewrite Rleb_false by lra. fields. split; [exact Hg |].
    rewrite Rmax_left; lra.
Qed.

(** X25.  On the credits screen, as long as neither ENTER nor Escape is
    pressed, the text scrolls up by 2 per frame until it stops at -800:
    after [n] frames the scroll position is max(start - 2n, -800). *)
Theorem credits_scroll_up_and_stop (inputs : list Input) (s : State) :
  gameState s = CREDITS ->
  -800 <= creditsScroll s ->
  Forall (fun i => IsKeyPressed i KEY_ENTER = false /\
                   IsKeyPressed i KEY_ESCAPE = false) inputs ->
  gameState (run inputs s) = CREDITS /\
  creditsScroll (run inputs s)
  = Rmax (creditsScroll s - 2 * INR (length inputs)) (-800).
Proof.
  intros Hg Hs Hi. revert s Hg Hs.
  induction Hi as [| i rest (H1 & H2) _ IH]; intros s Hg Hs.
  - cbn [run length INR]. split; [exact Hg |]. rewrite Rmax_left; lra.
  - cbn [run length]. rewrite S_INR.
    destruct (credits_frame i s Hg H1 H2) as (G & E).
    destruct (IH (UpdateGame i s) G) as (G' & E').
    { rewrite E. apply Rmax_r. }
    split; [exact G' |]. rewrite E', E.
    pose proof (pos_INR (length rest)) as Hn.
    destruct (Rle_dec (creditsScroll s - 2) (-800)) as [L | L];
      [rewrite (Rmax_right (creditsScroll s - 2)) by lra
      | rewrite (Rmax_left (creditsScroll s - 2)) by lra];
      unfold Rmax;
      repeat match goal with |- context [Rle_dec ?a ?b] => destruct (Rle_dec a b) end;
      lra.
Qed.

Lemma credits_scroll_up_and_stop_witness :
  let s := UpdateGame press_enter (set_menuSelection initial_state 2) in
  gameState (run [no_keys; no_keys] s) = CREDITS /\
  creditsScroll (run [no_keys; no_keys] s)
  = Rmax (creditsScroll s - 2 * INR (length [no_keys; no_keys])) (-800).
Proof.
  apply (credits_scroll_up_and_stop [no_keys; no_keys]
           (UpdateGame press_enter (set_menuSelection initial_state 2))).
  - reflexivity.
  - change (creditsScroll (UpdateGame press_enter (set_menuSelection initial_state 2)))
      with (IZR SCREEN_HEIGHT).
    change (IZR SCREEN_HEIGHT) with 768. lra.
  - repeat constructor.
Defined.

(* ------------------------------------------------------------------ *)
(** ** The AI's jump *)

(** X26.  The AI leaves the ground only under its jump conditions: if
    [UpdateAI] takes player 2 off the ground, then the ball was coming
    toward the AI, less than 150 units away horizontally, between 100
    units above and 60 units below player 2's centre, the cooldown had
    run out (0, or 1 when the call began), and the random value drawn was
    above 20; the jump speed is 0.9 times a player's and the cooldown
    restarts at 30. *)
Theorem ai_jumps_only_under_its_conditions (i : Input) (s : State) :
  (0 <= aiJumpCooldown s <= AI_JUMP_COOLDOWN)%Z ->
  Player.onGround (player2 s) = true ->
  Player.onGround (player2 (UpdateAI i s)) = false ->
  let dx := vec_x (Ball.position (ball s)) - vec_x (Player.position (player2 s)) in
  let dy := vec_y (Player.position (player2 s)) - vec_y (Ball.position (ball s)) in
  ballComingToward (ball s) = true /\
  Rabs dx < AI_REACTION_DISTANCE /\
  - AI_JUMP_THRESHOLD < dy < 100 /\
  (aiJumpCooldown s = 0 \/ aiJumpCooldown s = 1)%Z /\
  (GetRandomValue 0 100 (rnd i (rngCalls s)) > 20)%Z /\
  vec_y (Player.velocity (player2 (UpdateAI i s))) = PLAYER_JUMP_FORCE * 0.9 /\
  aiJumpCooldown (UpdateAI i s) = AI_JUMP_COOLDOWN.
Proof.
  destruct s as [gs gm pa fc p1 [[px py] [vx vy] r sd c sc og] b ps cd sv dt ms cs ex mt rc].
  unfold AI_JUMP_COOLDOWN at 1. fields. intros Hc ->. cbv zeta. unfold UpdateAI. fields.
  destruct (cd >? 0)%Z eqn:Ecd; fields;
    rewrite Z.gtb_ltb in Ecd;
    [apply Z.ltb_lt in Ecd; rewrite int_decr_small by (unfold INT_MIN, INT_MAX; lia)
    | apply Z.ltb_ge in Ecd].
  all: destruct (ballComingToward b) eqn:Bc; fields;
    [| unfold ai_return_to_center; split_ifs; discriminate].
  all: unfold ai_jump, draw; fields.
  all: assert (Y : forall d q, vec_y (Player.position (ai_move_toward d q))
                               = vec_y (Player.position q) /\
                               Player.onGround (ai_move_toward d q) = Player.onGround q)
         by (intros d q; unfold ai_move_toward; split_ifs; auto).
  all: match goal with |- context [ai_move_toward ?d ?q] =>
         destruct (Y d q) as (Y1 & Y2); fields_in Y1; fields_in Y2;
         revert Y1 Y2; generalize (ai_move_toward d q)
       end; intros q' Y1 Y2; fields; clear Y; rewrite Y1, Y2.
  all: unfold fabsf; rewrite andb_true_r.
  all: destruct (Rabs (vec_x (Ball.position b) - px) <? AI_REACTION_DISTANCE) eqn:C1;
         [| cbn [andb]; fields; rewrite Y2; intros; discriminate].
  all: destruct (py - vec_y (Ball.position b) >? - AI_JUMP_THRESHOLD) eqn:C2;
         [| cbn [andb]; fields; rewrite Y2; intros; discriminate].
  all: destruct (py - vec_y (Ball.position b) <? 100) eqn:C3;
         [| cbn [andb]; fields; rewrite Y2; intros; discriminate].
  all: match goal with |- context [(?c =? 0)%Z] =>
         destruct (c =? 0)%Z eqn:C4;
           [apply Z.eqb_eq in C4 | cbn [andb]; fields; rewrite Y2; intros; discriminate]
       end.
  all: cbn [andb]; fields.
  all: destruct (GetRandomValue 0 100 (rnd i rc) >? 20)%Z eqn:C5; fields;
         [| rewrite Y2; intros; discriminate].
  all: rewrite Z.gtb_ltb in C5; apply Z.ltb_lt in C5.
  all: intros _; rbool_hyps; repeat split; auto; try lra; lia.
Qed.

Lemma ai_jumps_at_ball_over_ai :
  Player.onGround (player2 (UpdateAI draws_50 ball_over_ai)) = false.
Proof.
  unfold ball_over_ai, court, draws_50, vzero, UpdateAI. run_frame.
  unfold ballComingToward. run_frame.
  run2 ai_move_toward. unfold ai_jump, draw. run_frame.
  change (GetRandomValue 0 100 50) with 50%Z. run_frame. reflexivity.
Qed.

Lemma ai_jumps_only_under_its_conditions_witness :
  let s := ball_over_ai in
  let i := draws_50 in
  let dx := vec_x (Ball.position (ball s)) - vec_x (Player.position (player2 s)) in
  let dy := vec_y (Player.position (player2 s)) - vec_y (Ball.position (ball s)) in
  ballComingToward (ball s) = true /\
  Rabs dx < AI_REACTION_DISTANCE /\
  - AI_JUMP_THRESHOLD < dy < 100 /\
  (aiJumpCooldown s = 0 \/ aiJumpCooldown s = 1)%Z /\
  (GetRandomValue 0 100 (rnd i (rngCalls s)) > 20)%Z /\
  vec_y (Player.velocity (player2 (UpdateAI i s))) = PLAYER_JUMP_FORCE * 0.9 /\
  aiJumpCooldown (UpdateAI i s) = AI_JUMP_COOLDOWN.
Proof.
  apply (ai_jumps_only_under_its_conditions draws_50 ball_over_ai).
  - unfold AI_JUMP_COOLDOWN. cbn. lia.
  - reflexivity.
  - apply ai_jumps_at_ball_over_ai.
Defined.
